(** * BasicWorld: the city walker's simulation state and per-tick logic

    A shallow embedding of the [BasicWorld] class (the variant with the
    day/night cycle and the coins): collision query, on-foot and vehicle
    locomotion, the enter/exit toggle, the world wrap and the day/night
    interpolation.

    JavaScript numbers are modelled as real numbers: every [+], [*], [/],
    [Math.sin], [Math.sqrt] of the source is the exact operation on [R], so
    rounding, NaN and the infinities are outside the model.  Objects of the
    scene graph live in a store indexed by object identity, so that the
    aliasing between [scene.children], [coins], [character], [carModel] and
    [cameraTarget] is the one of the source. *)

From Stdlib Require Import Reals Lra Lia ZArith.
From stdpp Require Import base decidable list functions strings.

Local Open Scope R_scope.

(** ** Numbers *)

#[global] Instance Rlt_decision (a b : R) : Decision (a < b) := Rlt_dec a b.
#[global] Instance Rle_decision (a b : R) : Decision (a <= b) := Rle_dec a b.
#[global] Instance Rgt_decision (a b : R) : Decision (a > b) := Rgt_dec a b.
#[global] Instance Rge_decision (a b : R) : Decision (a >= b) := Rge_dec a b.
#[global] Instance R_eq_decision : EqDecision R := Req_dec_T.

(** Decides every comparison met in the goal and closes the branches that
    linear arithmetic refutes. *)
Ltac rcases :=
  repeat (first
    [ progress (rewrite ?bool_decide_eq_true, ?bool_decide_eq_false in * )
    | case_bool_decide
    | case_decide ]);
  try lra.

(** Unfolds [Rmax], [Rmin] and [Rabs] on decided arguments. *)
Ltac rminmax :=
  unfold Rmax, Rmin, Rabs in *;
  repeat (match goal with
          | |- context [Rle_dec ?a ?b] => destruct (Rle_dec a b)
          | |- context [Rcase_abs ?a] => destruct (Rcase_abs a)
          | H : context [Rle_dec ?a ?b] |- _ => destruct (Rle_dec a b)
          | H : context [Rcase_abs ?a] |- _ => destruct (Rcase_abs a)
          end);
  try lra.

Module JS.

(** [Math.trunc] as used by the remainder: the integer part towards zero. *)
Definition trunc (a : R) : Z :=
  if decide (0 <= a) then Int_part a else (- Int_part (- a))%Z.

(** The [%] operator on numbers: [a - b * trunc (a / b)], whose sign is the
    sign of the dividend. *)
Definition rem (a b : R) : R := a - b * IZR (trunc (a / b)).

(** [value || fallback] on a number: zero is falsy. *)
Definition or_else (a fallback : R) : R :=
  if decide (a = 0) then fallback else a.

(** [Math.atan2 (b, a)]. *)
Definition atan2 (b a : R) : R :=
  if decide (0 < a) then atan (b / a)
  else if decide (a < 0) then
    (if decide (0 <= b) then atan (b / a) + PI else atan (b / a) - PI)
  else if decide (0 < b) then PI / 2
  else if decide (b < 0) then - (PI / 2)
  else 0.

End JS.

(** ** The three.js values the world is built from

    These classes are declared in the source and implemented by three.js;
    each operation below is the library's definition of the method the
    source calls. *)

Module Vector3.
Record t : Type := mk { x : R; y : R; z : R }.

Definition add (a b : t) : t := mk (x a + x b) (y a + y b) (z a + z b).
Definition sub (a b : t) : t := mk (x a - x b) (y a - y b) (z a - z b).
Definition multiplyScalar (a : t) (s : R) : t := mk (x a * s) (y a * s) (z a * s).
Definition length (a : t) : R := sqrt (x a * x a + y a * y a + z a * z a).
(** [normalize] divides by [length () || 1]. *)
Definition normalize (a : t) : t := multiplyScalar a (1 / JS.or_else (length a) 1).
Definition distanceTo (a b : t) : R :=
  sqrt ((x a - x b) * (x a - x b) + (y a - y b) * (y a - y b)
        + (z a - z b) * (z a - z b)).
(** A horizontal shift: [p.x += dx; p.z += dz]. *)
Definition shiftXZ (dx dz : R) (a : t) : t := mk (x a + dx) (y a) (z a + dz).
Definition setY (a : t) (h : R) : t := mk (x a) h (z a).
End Vector3.

Module Euler.
Record t : Type := mk { x : R; y : R; z : R }.
End Euler.

Module Quaternion.
Record t : Type := mk { x : R; y : R; z : R; w : R }.

(** [setFromEuler] for the default order XYZ; an object's quaternion is kept
    in step with its Euler rotation by the library. *)
Definition setFromEuler (e : Euler.t) : t :=
  let c1 := cos (Euler.x e / 2) in
  let c2 := cos (Euler.y e / 2) in
  let c3 := cos (Euler.z e / 2) in
  let s1 := sin (Euler.x e / 2) in
  let s2 := sin (Euler.y e / 2) in
  let s3 := sin (Euler.z e / 2) in
  mk (s1 * c2 * c3 + c1 * s2 * s3)
     (c1 * s2 * c3 - s1 * c2 * s3)
     (c1 * c2 * s3 + s1 * s2 * c3)
     (c1 * c2 * c3 - s1 * s2 * s3).
End Quaternion.

(** [Vector3.applyQuaternion]: the product q * v * q^-1 written out. *)
Definition applyQuaternion (v : Vector3.t) (q : Quaternion.t) : Vector3.t :=
  let vx := Vector3.x v in
  let vy := Vector3.y v in
  let vz := Vector3.z v in
  let qx := Quaternion.x q in
  let qy := Quaternion.y q in
  let qz := Quaternion.z q in
  let qw := Quaternion.w q in
  let ix := qw * vx + qy * vz - qz * vy in
  let iy := qw * vy + qz * vx - qx * vz in
  let iz := qw * vz + qx * vy - qy * vx in
  let iw := - qx * vx - qy * vy - qz * vz in
  Vector3.mk (ix * qw + iw * - qx + iy * - qz - iz * - qy)
             (iy * qw + iw * - qy + iz * - qx - ix * - qz)
             (iz * qw + iw * - qz + ix * - qy - iy * - qx).

Module Color.
Record t : Type := mk { r : R; g : R; b : R }.

(** [new THREE.Color (hex)]: one byte per channel, scaled to [0, 1]. *)
Definition ofHex (hex : Z) : t :=
  mk (IZR (Z.land (Z.shiftr hex 16) 255) / 255)
     (IZR (Z.land (Z.shiftr hex 8) 255) / 255)
     (IZR (Z.land hex 255) / 255).

(** [lerp]: each channel moves by [alpha] of the way to the other colour. *)
Definition lerp (c1 c2 : t) (alpha : R) : t :=
  mk (r c1 + (r c2 - r c1) * alpha)
     (g c1 + (g c2 - g c1) * alpha)
     (b c1 + (b c2 - b c1) * alpha).
End Color.

Module Box3.
Record t : Type := mk { min : Vector3.t; max : Vector3.t }.

(** [containsPoint]: false as soon as the point is outside on one of the
    three axes; the bounds are inclusive. *)
Definition containsPoint (box : t) (point : Vector3.t) : bool :=
  if bool_decide (Vector3.x point < Vector3.x (min box))
     || bool_decide (Vector3.x point > Vector3.x (max box))
     || bool_decide (Vector3.y point < Vector3.y (min box))
     || bool_decide (Vector3.y point > Vector3.y (max box))
     || bool_decide (Vector3.z point < Vector3.z (min box))
     || bool_decide (Vector3.z point > Vector3.z (max box))
  then false else true.

(** The wrap's update of one collider: both corners move horizontally. *)
Definition shiftXZ (dx dz : R) (box : t) : t :=
  mk (Vector3.shiftXZ dx dz (min box)) (Vector3.shiftXZ dx dz (max box)).

(** The horizontal footprint of a box, heights left out. *)
Definition inFootprint (box : t) (point : Vector3.t) : Prop :=
  Vector3.x (min box) <= Vector3.x point <= Vector3.x (max box)
  /\ Vector3.z (min box) <= Vector3.z point <= Vector3.z (max box).

(** The vertical extent of a box. *)
Definition inHeightRange (box : t) (point : Vector3.t) : Prop :=
  Vector3.y (min box) <= Vector3.y point <= Vector3.y (max box).
End Box3.

(** ** The collision query *)

(** [collides]: the first stored box that contains the point answers. *)
Fixpoint collides (buildingColliders : list Box3.t) (pos : Vector3.t) : bool :=
  match buildingColliders with
  | [] => false
  | box :: rest => if Box3.containsPoint box pos then true else collides rest pos
  end.

(** The collider loop of [wrapWorld]. *)
Definition translateColliders (offsetX offsetZ : R) (buildingColliders : list Box3.t)
  : list Box3.t :=
  map (Box3.shiftXZ offsetX offsetZ) buildingColliders.

(** [createObjects]: the collider of a building of the given footprint and
    height, from the ground plane up. *)
Definition buildingCollider (buildingX buildingZ width height depth : R) : Box3.t :=
  Box3.mk (Vector3.mk (buildingX - width / 2) 0 (buildingZ - depth / 2))
          (Vector3.mk (buildingX + width / 2) height (buildingZ + depth / 2)).

(** ** Scene objects and the object store *)

(** Objects are identified by their place in the store; two references are to
    the same object exactly when the identifiers are equal. *)
Definition ObjId : Type := nat.

(** The classes the source tests with [instanceof]. *)
Inductive ObjClass : Type :=
  | Object3DClass
  | GroupClass
  | MeshClass
  | PointLightClass
  | DirectionalLightClass
  | AmbientLightClass
  | PerspectiveCameraClass.

#[global] Instance ObjClass_eq_dec : EqDecision ObjClass.
Proof. solve_decision. Defined.

Module Object3D.
(** [intensity] and [color] are meaningful on lights only. *)
Record t : Type := mk {
  class : ObjClass;
  position : Vector3.t;
  rotation : Euler.t;
  visible : bool;
  children : list ObjId;
  intensity : R;
  color : Color.t
}.

Definition setPosition (p : Vector3.t) (o : t) : t :=
  mk (class o) p (rotation o) (visible o) (children o) (intensity o) (color o).
Definition setRotation (e : Euler.t) (o : t) : t :=
  mk (class o) (position o) e (visible o) (children o) (intensity o) (color o).
Definition setVisible (v : bool) (o : t) : t :=
  mk (class o) (position o) (rotation o) v (children o) (intensity o) (color o).
Definition setIntensity (i : R) (o : t) : t :=
  mk (class o) (position o) (rotation o) (visible o) (children o) i (color o).
Definition setColor (c : Color.t) (o : t) : t :=
  mk (class o) (position o) (rotation o) (visible o) (children o) (intensity o) c.

Definition quaternion (o : t) : Quaternion.t := Quaternion.setFromEuler (rotation o).

(** [o.position.x += dx; o.position.z += dz]. *)
Definition shiftXZ (dx dz : R) (o : t) : t :=
  setPosition (Vector3.shiftXZ dx dz (position o)) o.
(** [o.position.y = h]. *)
Definition setY (h : R) (o : t) : t := setPosition (Vector3.setY (position o) h) o.
(** [o.rotation.x += d]. *)
Definition addRotationX (d : R) (o : t) : t :=
  setRotation (Euler.mk (Euler.x (rotation o) + d) (Euler.y (rotation o))
                        (Euler.z (rotation o))) o.
(** [o.rotation.y += d]. *)
Definition addRotationY (d : R) (o : t) : t :=
  setRotation (Euler.mk (Euler.x (rotation o)) (Euler.y (rotation o) + d)
                        (Euler.z (rotation o))) o.
(** [o.rotation.y = a]. *)
Definition setRotationY (a : R) (o : t) : t :=
  setRotation (Euler.mk (Euler.x (rotation o)) a (Euler.z (rotation o))) o.
End Object3D.

Definition Store : Type := ObjId -> Object3D.t.

(** [keysPressed]: a key that was never written reads as falsy. *)
Definition Keys : Type := string -> bool.

(** ** The fields of [BasicWorld] *)

Definition cycleDurationSeconds : R := 120.
Definition coinCollectionDistance : R := 2.0.
Definition footstepInterval : R := 0.4.
Definition moveSpeed : R := 4.
Definition cameraOrbitRadius : R := 7.
Definition gravity : R := 20.0.
Definition jumpStrength : R := 8.0.
Definition characterFeetY : R := 0.
Definition characterHeight : R := 1.8.
Definition carAcceleration : R := 12.0.
Definition carDeceleration : R := 15.0.
Definition carMaxSpeed : R := 25.0.
Definition carReverseMaxSpeed : R := -8.0.
Definition carMaxSteeringAngleRad : R := PI / 7.
Definition carWheelBase : R := 2.8.
Definition enterCarDistance : R := 3.0.
Definition blockSize : R := 20.
Definition streetWidth : R := 6.
Definition citySize : R := 10.
(** [createCar]: the radius the wheel geometry is built with. *)
Definition wheelRadius : R := 0.4.
(** Assigned once, in the constructor. *)
Definition chunkSize : R := citySize * (blockSize + streetWidth).

(** The mutable state of a constructed world.  The constructor creates the
    character, the car and the lights before the first frame, so the guards
    of the source on a missing [carModel], [carBody], [character] or
    [cameraTarget] never fire and the references are plain identifiers.
    Audio and the coin counter's text element are outside the model. *)
Record World : Type := mkWorld {
  objs : Store;
  (** [scene.children], in insertion order. *)
  sceneChildren : list ObjId;
  (** The colour of [scene.fog], when it is a [THREE.Fog]. *)
  sceneFog : option Color.t;
  (** [scene.background], when it is a [THREE.Color] and not a texture. *)
  sceneBackground : option Color.t;
  camera : ObjId;
  character : ObjId;
  carModel : ObjId;
  carWheels : list ObjId;
  sunMoonLight : ObjId;
  sunMoonLightTarget : ObjId;
  ambientLight : ObjId;
  streetLights : list ObjId;
  coins : list ObjId;
  cameraTarget : ObjId;
  cameraTargetOffset : Vector3.t;
  cameraElevationAngle : R;
  cameraAzimuthAngle : R;
  keysPressed : Keys;
  currentTimeOfDaySeconds : R;
  collectedCoinsCount : Z;
  (** Whether the timer that respawns the coins is pending. *)
  respawnAllCoinsTimeout : bool;
  footstepTimer : R;
  isJumping : bool;
  velocityY : R;
  isInCar : bool;
  carSpeed : R;
  carSteeringInput : R;
  buildingColliders : list Box3.t
}.

(** Field updates; every field not named keeps its value. *)

(** Replaces the object store. *)
Definition withObjs (st : Store) (w : World) : World :=
  {| objs := st; sceneChildren := sceneChildren w; sceneFog := sceneFog w;
     sceneBackground := sceneBackground w; camera := camera w;
     character := character w; carModel := carModel w; carWheels := carWheels w;
     sunMoonLight := sunMoonLight w; sunMoonLightTarget := sunMoonLightTarget w;
     ambientLight := ambientLight w; streetLights := streetLights w;
     coins := coins w; cameraTarget := cameraTarget w;
     cameraTargetOffset := cameraTargetOffset w;
     cameraElevationAngle := cameraElevationAngle w;
     cameraAzimuthAngle := cameraAzimuthAngle w; keysPressed := keysPressed w;
     currentTimeOfDaySeconds := currentTimeOfDaySeconds w;
     collectedCoinsCount := collectedCoinsCount w;
     respawnAllCoinsTimeout := respawnAllCoinsTimeout w;
     footstepTimer := footstepTimer w; isJumping := isJumping w;
     velocityY := velocityY w; isInCar := isInCar w; carSpeed := carSpeed w;
     carSteeringInput := carSteeringInput w;
     buildingColliders := buildingColliders w |}.

(** The key state left by the key events since the last frame. *)
Definition withKeys (keys : Keys) (w : World) : World :=
  {| objs := objs w; sceneChildren := sceneChildren w; sceneFog := sceneFog w;
     sceneBackground := sceneBackground w; camera := camera w;
     character := character w; carModel := carModel w; carWheels := carWheels w;
     sunMoonLight := sunMoonLight w; sunMoonLightTarget := sunMoonLightTarget w;
     ambientLight := ambientLight w; streetLights := streetLights w;
     coins := coins w; cameraTarget := cameraTarget w;
     cameraTargetOffset := cameraTargetOffset w;
     cameraElevationAngle := cameraElevationAngle w;
     cameraAzimuthAngle := cameraAzimuthAngle w; keysPressed := keys;
     currentTimeOfDaySeconds := currentTimeOfDaySeconds w;
     collectedCoinsCount := collectedCoinsCount w;
     respawnAllCoinsTimeout := respawnAllCoinsTimeout w;
     footstepTimer := footstepTimer w; isJumping := isJumping w;
     velocityY := velocityY w; isInCar := isInCar w; carSpeed := carSpeed w;
     carSteeringInput := carSteeringInput w;
     buildingColliders := buildingColliders w |}.

(** Replaces the stored colliders. *)
Definition withColliders (cs : list Box3.t) (w : World) : World :=
  {| objs := objs w; sceneChildren := sceneChildren w; sceneFog := sceneFog w;
     sceneBackground := sceneBackground w; camera := camera w;
     character := character w; carModel := carModel w; carWheels := carWheels w;
     sunMoonLight := sunMoonLight w; sunMoonLightTarget := sunMoonLightTarget w;
     ambientLight := ambientLight w; streetLights := streetLights w;
     coins := coins w; cameraTarget := cameraTarget w;
     cameraTargetOffset := cameraTargetOffset w;
     cameraElevationAngle := cameraElevationAngle w;
     cameraAzimuthAngle := cameraAzimuthAngle w; keysPressed := keysPressed w;
     currentTimeOfDaySeconds := currentTimeOfDaySeconds w;
     collectedCoinsCount := collectedCoinsCount w;
     respawnAllCoinsTimeout := respawnAllCoinsTimeout w;
     footstepTimer := footstepTimer w; isJumping := isJumping w;
     velocityY := velocityY w; isInCar := isInCar w; carSpeed := carSpeed w;
     carSteeringInput := carSteeringInput w; buildingColliders := cs |}.

(** Retargets the camera. *)
Definition withCamera (target : ObjId) (offset : Vector3.t) (w : World) : World :=
  {| objs := objs w; sceneChildren := sceneChildren w; sceneFog := sceneFog w;
     sceneBackground := sceneBackground w; camera := camera w;
     character := character w; carModel := carModel w; carWheels := carWheels w;
     sunMoonLight := sunMoonLight w; sunMoonLightTarget := sunMoonLightTarget w;
     ambientLight := ambientLight w; streetLights := streetLights w;
     coins := coins w; cameraTarget := target; cameraTargetOffset := offset;
     cameraElevationAngle := cameraElevationAngle w;
     cameraAzimuthAngle := cameraAzimuthAngle w; keysPressed := keysPressed w;
     currentTimeOfDaySeconds := currentTimeOfDaySeconds w;
     collectedCoinsCount := collectedCoinsCount w;
     respawnAllCoinsTimeout := respawnAllCoinsTimeout w;
     footstepTimer := footstepTimer w; isJumping := isJumping w;
     velocityY := velocityY w; isInCar := isInCar w; carSpeed := carSpeed w;
     carSteeringInput := carSteeringInput w;
     buildingColliders := buildingColliders w |}.

(** The vehicle's kinematic state. *)
Definition withCar (inCar : bool) (speed : R) (steering : R) (w : World) : World :=
  {| objs := objs w; sceneChildren := sceneChildren w; sceneFog := sceneFog w;
     sceneBackground := sceneBackground w; camera := camera w;
     character := character w; carModel := carModel w; carWheels := carWheels w;
     sunMoonLight := sunMoonLight w; sunMoonLightTarget := sunMoonLightTarget w;
     ambientLight := ambientLight w; streetLights := streetLights w;
     coins := coins w; cameraTarget := cameraTarget w;
     cameraTargetOffset := cameraTargetOffset w;
     cameraElevationAngle := cameraElevationAngle w;
     cameraAzimuthAngle := cameraAzimuthAngle w; keysPressed := keysPressed w;
     currentTimeOfDaySeconds := currentTimeOfDaySeconds w;
     collectedCoinsCount := collectedCoinsCount w;
     respawnAllCoinsTimeout := respawnAllCoinsTimeout w;
     footstepTimer := footstepTimer w; isJumping := isJumping w;
     velocityY := velocityY w; isInCar := inCar; carSpeed := speed;
     carSteeringInput := steering; buildingColliders := buildingColliders w |}.

(** The character's vertical state and footstep timer. *)
Definition withJump (timer : R) (jumping : bool) (vy : R) (w : World) : World :=
  {| objs := objs w; sceneChildren := sceneChildren w; sceneFog := sceneFog w;
     sceneBackground := sceneBackground w; camera := camera w;
     character := character w; carModel := carModel w; carWheels := carWheels w;
     sunMoonLight := sunMoonLight w; sunMoonLightTarget := sunMoonLightTarget w;
     ambientLight := ambientLight w; streetLights := streetLights w;
     coins := coins w; cameraTarget := cameraTarget w;
     cameraTargetOffset := cameraTargetOffset w;
     cameraElevationAngle := cameraElevationAngle w;
     cameraAzimuthAngle := cameraAzimuthAngle w; keysPressed := keysPressed w;
     currentTimeOfDaySeconds := currentTimeOfDaySeconds w;
     collectedCoinsCount := collectedCoinsCount w;
     respawnAllCoinsTimeout := respawnAllCoinsTimeout w; footstepTimer := timer;
     isJumping := jumping; velocityY := vy; isInCar := isInCar w;
     carSpeed := carSpeed w; carSteeringInput := carSteeringInput w;
     buildingColliders := buildingColliders w |}.

(** The day/night accumulator and the scene colours. *)
Definition withDay (time : R) (fog : option Color.t) (background : option Color.t) (w : World) : World :=
  {| objs := objs w; sceneChildren := sceneChildren w; sceneFog := fog;
     sceneBackground := background; camera := camera w;
     character := character w; carModel := carModel w; carWheels := carWheels w;
     sunMoonLight := sunMoonLight w; sunMoonLightTarget := sunMoonLightTarget w;
     ambientLight := ambientLight w; streetLights := streetLights w;
     coins := coins w; cameraTarget := cameraTarget w;
     cameraTargetOffset := cameraTargetOffset w;
     cameraElevationAngle := cameraElevationAngle w;
     cameraAzimuthAngle := cameraAzimuthAngle w; keysPressed := keysPressed w;
     currentTimeOfDaySeconds := time;
     collectedCoinsCount := collectedCoinsCount w;
     respawnAllCoinsTimeout := respawnAllCoinsTimeout w;
     footstepTimer := footstepTimer w; isJumping := isJumping w;
     velocityY := velocityY w; isInCar := isInCar w; carSpeed := carSpeed w;
     carSteeringInput := carSteeringInput w;
     buildingColliders := buildingColliders w |}.

(** The coin counter and the respawn timer. *)
Definition withCoins (count : Z) (pending : bool) (w : World) : World :=
  {| objs := objs w; sceneChildren := sceneChildren w; sceneFog := sceneFog w;
     sceneBackground := sceneBackground w; camera := camera w;
     character := character w; carModel := carModel w; carWheels := carWheels w;
     sunMoonLight := sunMoonLight w; sunMoonLightTarget := sunMoonLightTarget w;
     ambientLight := ambientLight w; streetLights := streetLights w;
     coins := coins w; cameraTarget := cameraTarget w;
     cameraTargetOffset := cameraTargetOffset w;
     cameraElevationAngle := cameraElevationAngle w;
     cameraAzimuthAngle := cameraAzimuthAngle w; keysPressed := keysPressed w;
     currentTimeOfDaySeconds := currentTimeOfDaySeconds w;
     collectedCoinsCount := count; respawnAllCoinsTimeout := pending;
     footstepTimer := footstepTimer w; isJumping := isJumping w;
     velocityY := velocityY w; isInCar := isInCar w; carSpeed := carSpeed w;
     carSteeringInput := carSteeringInput w;
     buildingColliders := buildingColliders w |}.

(** ** Entering and leaving the vehicle *)

(** [enterOrExitCar], the handler of the toggle key. *)
Definition enterOrExitCar (w : World) : World :=
  if isInCar w then
    let st1 := alter (Object3D.setVisible true) (character w) (objs w) in
    let carExitOffset :=
      applyQuaternion (Vector3.mk 1.5 0 0) (Object3D.quaternion (st1 (carModel w))) in
    let st2 :=
      alter (Object3D.setPosition
               (Vector3.add (Object3D.position (st1 (carModel w))) carExitOffset))
            (character w) st1 in
    let st3 := alter (Object3D.setY characterFeetY) (character w) st2 in
    withCar false 0 (carSteeringInput w)
      (withCamera (character w) (Vector3.mk 0 (characterHeight * 0.8) 0)
         (withObjs st3 w))
  else
    let distanceToCar :=
      Vector3.distanceTo (Object3D.position (objs w (character w)))
                         (Object3D.position (objs w (carModel w))) in
    if decide (distanceToCar < enterCarDistance) then
      let st1 := alter (Object3D.setVisible false) (character w) (objs w) in
      withCar true 0 0
        (withCamera (carModel w) (Vector3.mk 0 1.5 0) (withObjs st1 w))
    else w.

(** ** Vehicle locomotion *)

(** Forward and back keys as an acceleration of +1, -1 or 0; back wins when
    both are held. *)
Definition accelerationInput (keys : Keys) : R :=
  let a := 0 in
  let a := if keys "w" || keys "arrowup" then 1 else a in
  let a := if keys "s" || keys "arrowdown" then -1 else a in
  a.

(** Left and right keys as a steering input of +1, -1 or 0. *)
Definition steeringInput (keys : Keys) : R :=
  if keys "a" || keys "arrowleft" then 1
  else if keys "d" || keys "arrowright" then -1
  else 0.

(** The speed after acceleration or friction and the clamp. *)
Definition carSpeedAfterInput (deltaTime : R) (w : World) : R :=
  let a := accelerationInput (keysPressed w) in
  let speed :=
    if decide (a <> 0) then carSpeed w + carAcceleration * a * deltaTime
    else
      let s :=
        if decide (carSpeed w > 0) then carSpeed w - carDeceleration * deltaTime
        else if decide (carSpeed w < 0) then carSpeed w + carDeceleration * deltaTime
        else carSpeed w in
      if decide (Rabs s < 0.1) then 0 else s in
  Rmax carReverseMaxSpeed (Rmin carMaxSpeed speed).

Definition turnRadius (steering : R) : R :=
  carWheelBase / sin (steering * carMaxSteeringAngleRad).

Definition angularVelocityOfCar (speed steering : R) : R :=
  speed / turnRadius steering.

(** The car object after the steering step: the yaw advances only when the
    car moves and the wheels are turned. *)
Definition carAfterSteering (deltaTime : R) (w : World) : Object3D.t :=
  let speed := carSpeedAfterInput deltaTime w in
  let steering := steeringInput (keysPressed w) in
  let car := objs w (carModel w) in
  if bool_decide (speed <> 0) && bool_decide (steering <> 0) then
    Object3D.addRotationY (angularVelocityOfCar speed steering * deltaTime) car
  else car.

(** A division that reports a zero divisor instead of a quotient. *)
Definition checkedDiv (a b : R) : option R :=
  if decide (b = 0) then None else Some (a / b).

(** The steering step once more, every division checked: the new yaw of the
    car, or [None] when a divisor is zero. *)
Definition carYawChecked (deltaTime : R) (w : World) : option R :=
  let speed := carSpeedAfterInput deltaTime w in
  let steering := steeringInput (keysPressed w) in
  let yaw := Euler.y (Object3D.rotation (objs w (carModel w))) in
  if bool_decide (speed <> 0) && bool_decide (steering <> 0) then
    match checkedDiv carWheelBase (sin (steering * carMaxSteeringAngleRad)) with
    | None => None
    | Some radius =>
        match checkedDiv speed radius with
        | None => None
        | Some angularVelocity => Some (yaw + angularVelocity * deltaTime)
        end
    end
  else Some yaw.

(** The position the car tries to reach: along its heading by [speed * dt]. *)
Definition carCandidate (deltaTime : R) (w : World) : Vector3.t :=
  let car := carAfterSteering deltaTime w in
  let forwardVector := applyQuaternion (Vector3.mk 0 0 1) (Object3D.quaternion car) in
  Vector3.add (Object3D.position car)
    (Vector3.multiplyScalar forwardVector (carSpeedAfterInput deltaTime w * deltaTime)).

(** The wheel loop: every wheel rolls, the two front wheels show the steering. *)
Fixpoint rotateWheels (wheelRotationDelta steering : R) (wheels : list ObjId)
    (index : nat) (st : Store) : Store :=
  match wheels with
  | [] => st
  | wheel :: rest =>
      let st1 := alter (Object3D.addRotationX wheelRotationDelta) wheel st in
      let st2 :=
        if decide (index < 2)%nat
        then alter (Object3D.setRotationY (steering * carMaxSteeringAngleRad)) wheel st1
        else st1 in
      rotateWheels wheelRotationDelta steering rest (S index) st2
  end.

(** [updateCarMovement]. *)
Definition updateCarMovement (deltaTime : R) (w : World) : World :=
  let steering := steeringInput (keysPressed w) in
  let speed := carSpeedAfterInput deltaTime w in
  let st1 := <[carModel w := carAfterSteering deltaTime w]> (objs w) in
  let candidate := carCandidate deltaTime w in
  let blocked := collides (buildingColliders w) candidate in
  let st2 :=
    if blocked then st1 else alter (Object3D.setPosition candidate) (carModel w) st1 in
  let speed' := if blocked then 0 else speed in
  let st3 := alter (Object3D.setY 0) (carModel w) st2 in
  let wheelCircumference := 2 * PI * wheelRadius in
  let wheelRotationDelta := speed' * deltaTime / wheelCircumference * (2 * PI) in
  let st4 := rotateWheels wheelRotationDelta steering (carWheels w) 0 st3 in
  withCar (isInCar w) speed' steering (withObjs st4 w).

(** ** On-foot locomotion *)

(** The four direction keys summed in the camera's frame, and whether any of
    them is held. *)
Definition movementDirection (w : World) : Vector3.t * bool :=
  let keys := keysPressed w in
  let azimuth := cameraAzimuthAngle w in
  let forward := Vector3.mk (sin azimuth) 0 (cos azimuth) in
  let right := Vector3.mk (sin (azimuth + PI / 2)) 0 (cos (azimuth + PI / 2)) in
  let d := (Vector3.mk 0 0 0, false) in
  let d := if keys "w" || keys "arrowup" then (Vector3.add (fst d) forward, true) else d in
  let d := if keys "s" || keys "arrowdown" then (Vector3.sub (fst d) forward, true) else d in
  let d := if keys "a" || keys "arrowleft" then (Vector3.add (fst d) right, true) else d in
  let d := if keys "d" || keys "arrowright" then (Vector3.sub (fst d) right, true) else d in
  d.

(** The displacement of one frame: the direction normalised and scaled by
    [moveSpeed * deltaTime]. *)
Definition characterStep (deltaTime : R) (w : World) : Vector3.t :=
  Vector3.multiplyScalar (Vector3.normalize (fst (movementDirection w)))
                         (moveSpeed * deltaTime).

Definition characterCandidate (deltaTime : R) (w : World) : Vector3.t :=
  Vector3.add (Object3D.position (objs w (character w))) (characterStep deltaTime w).

(** [while (a < -PI) a += 2 * PI], at most [fuel] rounds. *)
Fixpoint raiseAngle (fuel : nat) (a : R) : R :=
  match fuel with
  | O => a
  | S fuel' => if decide (a < - PI) then raiseAngle fuel' (a + 2 * PI) else a
  end.

(** [while (a > PI) a -= 2 * PI], at most [fuel] rounds. *)
Fixpoint lowerAngle (fuel : nat) (a : R) : R :=
  match fuel with
  | O => a
  | S fuel' => if decide (a > PI) then lowerAngle fuel' (a - 2 * PI) else a
  end.

(** The two loops that bring an angle difference back into [-PI, PI]; neither
    needs more than [|a| / (2 PI)] rounds, rounded up. *)
Definition wrapAngle (a : R) : R :=
  let fuel := Z.to_nat (up (Rabs a / (2 * PI))) in
  lowerAngle fuel (raiseAngle fuel a).

(** The first half of [updateCharacterMovement]: the move to the candidate
    unless it collides, and the turn towards the direction of the move. *)
Definition moveCharacter (deltaTime : R) (w : World) : Store :=
  if snd (movementDirection w) then
    let candidate := characterCandidate deltaTime w in
    let st1 :=
      if negb (collides (buildingColliders w) candidate)
      then alter (Object3D.setPosition candidate) (character w) (objs w)
      else objs w in
    let step := characterStep deltaTime w in
    let targetAngle := JS.atan2 (Vector3.x step) (Vector3.z step) in
    let angleDiff :=
      wrapAngle (targetAngle - Euler.y (Object3D.rotation (st1 (character w)))) in
    alter (Object3D.addRotationY (angleDiff * 10 * deltaTime)) (character w) st1
  else objs w.

(** The footstep timer runs while the character moves on the ground. *)
Definition footstepTimerAfter (deltaTime : R) (w : World) : R :=
  if snd (movementDirection w) && negb (isJumping w) then
    let t := footstepTimer w - deltaTime in
    if decide (t <= 0) then footstepInterval else t
  else footstepTimer w.

(** The second half: the jump integrator, or on the ground the snap to the
    ground and the respawn after a fall. *)
Definition jumpPhysics (deltaTime timer : R) (st : Store) (w : World) : World :=
  let y := Vector3.y (Object3D.position (st (character w))) in
  if isJumping w then
    let y1 := y + velocityY w * deltaTime in
    let vy1 := velocityY w - gravity * deltaTime in
    if decide (y1 <= characterFeetY) then
      withJump timer false 0
        (withObjs (alter (Object3D.setY characterFeetY) (character w) st) w)
    else
      withJump timer true vy1 (withObjs (alter (Object3D.setY y1) (character w) st) w)
  else
    let st1 :=
      if bool_decide (y < characterFeetY) && bool_decide (y > -5)
      then alter (Object3D.setY characterFeetY) (character w) st
      else st in
    if decide (Vector3.y (Object3D.position (st1 (character w))) < -50) then
      let car := Object3D.position (st1 (carModel w)) in
      let respawn := Vector3.mk (Vector3.x car + 3) (characterFeetY + 5) (Vector3.z car) in
      withJump timer false 0
        (withObjs (alter (Object3D.setPosition respawn) (character w) st1) w)
    else withJump timer (isJumping w) (velocityY w) (withObjs st1 w).

(** [updateCharacterMovement]. *)
Definition updateCharacterMovement (deltaTime : R) (w : World) : World :=
  jumpPhysics deltaTime (footstepTimerAfter deltaTime w) (moveCharacter deltaTime w) w.

(** ** The orbit camera *)

(** [updateCameraOrbit]: the camera's place on the sphere around the target.
    Its orientation, set by [lookAt], is rendering state and not modelled. *)
Definition updateCameraOrbit (w : World) : World :=
  let targetPos := Object3D.position (objs w (cameraTarget w)) in
  let effectiveOffset :=
    if decide (cameraTarget w = carModel w) then Vector3.mk 0 1.0 0
    else cameraTargetOffset w in
  let cameraX :=
    Vector3.x targetPos
    - cameraOrbitRadius * sin (cameraAzimuthAngle w) * cos (cameraElevationAngle w) in
  let cameraY :=
    Vector3.y targetPos + cameraOrbitRadius * sin (cameraElevationAngle w)
    + Vector3.y effectiveOffset in
  let cameraZ :=
    Vector3.z targetPos
    - cameraOrbitRadius * cos (cameraAzimuthAngle w) * cos (cameraElevationAngle w) in
  withObjs (alter (Object3D.setPosition (Vector3.mk cameraX cameraY cameraZ))
                  (camera w) (objs w)) w.

(** ** The day/night cycle *)

Definition lerpColor (color1 color2 : Color.t) (t : R) : Color.t :=
  Color.lerp color1 color2 t.

Definition lerpScalar (value1 value2 t : R) : R := value1 * (1 - t) + value2 * t.

Record Keyframe : Type := mkKeyframe {
  time : R;
  sunIntensity : R;
  sunColor : Color.t;
  ambientIntensity : R;
  ambientColor : Color.t;
  fogColor : Color.t
}.

Definition keyframe0 : Keyframe := (* night *)
  mkKeyframe 0 0.1 (Color.ofHex 0x102040) 0.1 (Color.ofHex 0x051015) (Color.ofHex 0x000510).
Definition keyframe1 : Keyframe := (* dawn *)
  mkKeyframe 0.20 0.4 (Color.ofHex 0x8060a0) 0.3 (Color.ofHex 0x202030) (Color.ofHex 0x101020).
Definition keyframe2 : Keyframe := (* day *)
  mkKeyframe 0.25 1.0 (Color.ofHex 0xffddaa) 0.8 (Color.ofHex 0x404060) (Color.ofHex 0x87CEEB).
Definition keyframe3 : Keyframe := (* day *)
  mkKeyframe 0.30 1.0 (Color.ofHex 0xffddaa) 0.8 (Color.ofHex 0x404060) (Color.ofHex 0x87CEEB).
Definition keyframe4 : Keyframe := (* dusk *)
  mkKeyframe 0.70 0.6 (Color.ofHex 0xff8c60) 0.5 (Color.ofHex 0x302020) (Color.ofHex 0x604030).
Definition keyframe5 : Keyframe := (* night *)
  mkKeyframe 0.75 0.1 (Color.ofHex 0x102040) 0.1 (Color.ofHex 0x051015) (Color.ofHex 0x000510).
Definition keyframe6 : Keyframe := (* night, repeated for the wrap *)
  mkKeyframe 1.0 0.1 (Color.ofHex 0x102040) 0.1 (Color.ofHex 0x051015) (Color.ofHex 0x000510).

Definition keyframes : list Keyframe :=
  [keyframe0; keyframe1; keyframe2; keyframe3; keyframe4; keyframe5; keyframe6].

(** The scan [for (i = 1; i < keyframes.length; i++)]: [previous] is
    [keyframes[i-1]] and [rest] starts at [keyframes[i]]; the first frame
    whose time is past the phase ends the scan, and a scan that finds none
    leaves the initial pair. *)
Fixpoint scanFrames (phase : R) (previous : Keyframe) (rest : list Keyframe)
    (initial : Keyframe * Keyframe) : Keyframe * Keyframe :=
  match rest with
  | [] => initial
  | frame :: rest' =>
      if decide (phase < time frame) then (previous, frame)
      else scanFrames phase frame rest' initial
  end.

(** [prevFrame] and [nextFrame] for a phase; they start as [keyframes[0]] and
    [keyframes[1]]. *)
Definition boundingFrames (phase : R) : Keyframe * Keyframe :=
  scanFrames phase keyframe0 (tail keyframes) (keyframe0, keyframe1).

(** The interpolated channels for a phase, with the phase as their time. *)
Definition interpolateFrames (phase : R) : Keyframe :=
  let prevFrame := fst (boundingFrames phase) in
  let nextFrame := snd (boundingFrames phase) in
  let t := (phase - time prevFrame) / (time nextFrame - time prevFrame) in
  mkKeyframe phase
    (lerpScalar (sunIntensity prevFrame) (sunIntensity nextFrame) t)
    (lerpColor (sunColor prevFrame) (sunColor nextFrame) t)
    (lerpScalar (ambientIntensity prevFrame) (ambientIntensity nextFrame) t)
    (lerpColor (ambientColor prevFrame) (ambientColor nextFrame) t)
    (lerpColor (fogColor prevFrame) (fogColor nextFrame) t).

(** Two frames show the same light when every channel but the time agrees. *)
Definition sameLight (k1 k2 : Keyframe) : Prop :=
  sunIntensity k1 = sunIntensity k2 /\ sunColor k1 = sunColor k2
  /\ ambientIntensity k1 = ambientIntensity k2 /\ ambientColor k1 = ambientColor k2
  /\ fogColor k1 = fogColor k2.

(** The accumulator after a frame. *)
Definition advanceTimeOfDay (deltaTime : R) (w : World) : R :=
  JS.rem (currentTimeOfDaySeconds w + deltaTime) cycleDurationSeconds.

(** [updateDayNightCycle]. *)
Definition updateDayNightCycle (deltaTime : R) (w : World) : World :=
  let now := advanceTimeOfDay deltaTime w in
  let phase := now / cycleDurationSeconds in
  let light := interpolateFrames phase in
  let st1 :=
    alter (fun o => Object3D.setColor (sunColor light)
                      (Object3D.setIntensity (sunIntensity light) o))
          (sunMoonLight w) (objs w) in
  let st2 :=
    alter (fun o => Object3D.setColor (ambientColor light)
                      (Object3D.setIntensity (ambientIntensity light) o))
          (ambientLight w) st1 in
  let fog := match sceneFog w with Some _ => Some (fogColor light) | None => None end in
  let background :=
    match sceneBackground w with Some _ => Some (fogColor light) | None => None end in
  let sunAngle := phase * PI * 2 in
  let st3 :=
    alter (Object3D.setPosition
             (Vector3.mk (cos (sunAngle - PI / 2) * 70) (sin (sunAngle - PI / 2) * 70) 30))
          (sunMoonLight w) st2 in
  let isNightTime := bool_decide (Object3D.intensity (st3 (sunMoonLight w)) < 0.3) in
  let targetStreetLightIntensity := if isNightTime then 1.5 else 0 in
  let st4 :=
    foldl (fun st light =>
             alter (fun o => Object3D.setIntensity
                               (lerpScalar (Object3D.intensity o)
                                           targetStreetLightIntensity (deltaTime * 1.0)) o)
                   light st)
          st3 (streetLights w) in
  withDay now fog background (withObjs st4 w).

(** ** The world wrap *)

(** The correction on one axis: one chunk length against the overflow. *)
Definition wrapOffset (coordinate : R) : R :=
  let max := chunkSize / 2 in
  if decide (coordinate > max) then - chunkSize
  else if decide (coordinate < - max) then chunkSize
  else 0.

(** Whether a scene child is a lantern: a group one of whose children is a
    point light of [streetLights]. *)
Definition isStreetLanternGroup (w : World) (st : Store) (obj : ObjId) : bool :=
  bool_decide (Object3D.class (st obj) = GroupClass)
  && bool_decide (0 < length (Object3D.children (st obj)))%nat
  && existsb (fun child =>
                bool_decide (Object3D.class (st child) = PointLightClass)
                && bool_decide (child ∈ streetLights w))
             (Object3D.children (st obj)).

(** Which scene children the last loop of [wrapWorld] moves. *)
Definition movedWithScene (w : World) (st : Store) (obj : ObjId) : bool :=
  let isPlayerCharacter := bool_decide (obj = character w) in
  let isCar := bool_decide (obj = carModel w) in
  let isSunMoon :=
    bool_decide (obj = sunMoonLight w) || bool_decide (obj = sunMoonLightTarget w) in
  let isACoin := bool_decide (obj ∈ coins w) in
  negb isPlayerCharacter && negb isCar && negb isSunMoon && negb isACoin
  && negb (isStreetLanternGroup w st obj) && bool_decide (obj <> camera w).

(** One round of the loop over [scene.children]. *)
Definition wrapSceneChild (w : World) (offsetX offsetZ : R) (st : Store) (obj : ObjId)
  : Store :=
  if movedWithScene w st obj then alter (Object3D.shiftXZ offsetX offsetZ) obj st else st.

(** The offsets [wrapWorld] computes from the camera target. *)
Definition wrapOffsetX (w : World) : R :=
  wrapOffset (Vector3.x (Object3D.position (objs w (cameraTarget w)))).

Definition wrapOffsetZ (w : World) : R :=
  wrapOffset (Vector3.z (Object3D.position (objs w (cameraTarget w)))).

(** [wrapWorld]. *)
Definition wrapWorld (w : World) : World :=
  let offsetX := wrapOffsetX w in
  let offsetZ := wrapOffsetZ w in
  if bool_decide (offsetX <> 0) || bool_decide (offsetZ <> 0) then
    let st1 := alter (Object3D.shiftXZ offsetX offsetZ) (character w) (objs w) in
    let st2 := alter (Object3D.shiftXZ offsetX offsetZ) (carModel w) st1 in
    let colliders := translateColliders offsetX offsetZ (buildingColliders w) in
    let st3 :=
      foldl (fun st coin => alter (Object3D.shiftXZ offsetX offsetZ) coin st)
            st2 (coins w) in
    let st4 := foldl (wrapSceneChild w offsetX offsetZ) st3 (sceneChildren w) in
    withColliders colliders (withObjs st4 w)
  else w.

(** ** Coins *)

(** [updateCoins]: visible coin meshes spin. *)
Definition updateCoins (deltaTime : R) (w : World) : World :=
  withObjs
    (foldl (fun st coin =>
              if bool_decide (Object3D.class (st coin) = MeshClass)
                 && Object3D.visible (st coin)
              then alter (Object3D.addRotationY (1 * deltaTime)) coin st
              else st)
           (objs w) (coins w))
    w.

(** One round of the loop of [checkCoinCollection]: a visible coin within
    reach of the player is hidden and counted, and the respawn timer starts
    when no coin is left visible. *)
Definition collectCoin (player : ObjId) (w : World) (coin : ObjId) : World :=
  let playerPosition := Object3D.position (objs w player) in
  if Object3D.visible (objs w coin)
     && bool_decide (Vector3.distanceTo playerPosition (Object3D.position (objs w coin))
                     < coinCollectionDistance)
  then
    let st1 := alter (Object3D.setVisible false) coin (objs w) in
    let activeCoins := length (filter (fun c => Object3D.visible (st1 c) = true) (coins w)) in
    withCoins (collectedCoinsCount w + 1)
              (if decide (activeCoins = 0%nat) then true else respawnAllCoinsTimeout w)
              (withObjs st1 w)
  else w.

(** [checkCoinCollection]. *)
Definition checkCoinCollection (w : World) : World :=
  let player := if isInCar w then carModel w else character w in
  foldl (collectCoin player) w (coins w).

(** [respawnAllCoins], run by the timer. *)
Definition respawnAllCoins (w : World) : World :=
  withCoins (collectedCoinsCount w) false
    (withObjs (foldl (fun st coin => alter (Object3D.setVisible true) coin st)
                     (objs w) (coins w)) w).

(** ** One frame *)

(** [updateGameLogic]. *)
Definition updateGameLogic (deltaTime : R) (w : World) : World :=
  let w1 := updateDayNightCycle deltaTime w in
  let w2 :=
    if isInCar w1 then updateCarMovement deltaTime w1
    else updateCharacterMovement deltaTime w1 in
  let w3 := updateCameraOrbit w2 in
  let w4 := wrapWorld w3 in
  let w5 := updateCoins deltaTime w4 in
  checkCoinCollection w5.

(** A run of frames; before each frame the key events since the last one
    have left some key state. *)
Definition runFrames (frames : list (Keys * R)) (w : World) : World :=
  foldl (fun w frame => updateGameLogic (snd frame) (withKeys (fst frame) w)) w frames.

(** ** Which objects the wrap is about *)

(** The objects [wrapWorld] translates: the two agents, the coins, and the
    scene children that are neither the sun/moon light, its target, a
    lantern group nor the camera. *)
Definition translatedByWrap (w : World) (obj : ObjId) : Prop :=
  obj = character w \/ obj = carModel w \/ obj ∈ coins w
  \/ (obj ∈ sceneChildren w /\ obj <> sunMoonLight w /\ obj <> sunMoonLightTarget w
      /\ isStreetLanternGroup w (objs w) obj = false /\ obj <> camera w).

(** The objects [wrapWorld] keeps in place: the camera and the sun/moon light
    with its target, which [updateCameraOrbit] and [updateDayNightCycle]
    place anew every frame. *)
Definition keptByWrap (w : World) (obj : ObjId) : Prop :=
  obj = camera w \/ obj = sunMoonLight w \/ obj = sunMoonLightTarget w.

(** What the constructor guarantees about identities: the agents, the coins,
    the camera and the sun/moon light are different objects, and neither
    [coins] nor [scene.children] lists an object twice. *)
Definition distinctObjects (w : World) : Prop :=
  character w <> carModel w
  /\ (character w ∉ coins w) /\ (carModel w ∉ coins w)
  /\ (forall obj, keptByWrap w obj ->
        obj <> character w /\ obj <> carModel w /\ (obj ∉ coins w))
  /\ NoDup (coins w) /\ NoDup (sceneChildren w).

(** The sun/moon light, the ambient light and the street lights are
    different objects. *)
Definition distinctLights (w : World) : Prop :=
  sunMoonLight w <> ambientLight w
  /\ (sunMoonLight w ∉ streetLights w) /\ (ambientLight w ∉ streetLights w).

(** ** A small constructed world

    One object of every kind the constructor adds to the scene, in the
    order of the [scene.add] calls: the lights, the two agents, the ground,
    a lantern, a building with its collider, and a coin. *)

Module Demo.

Definition cameraId : ObjId := 0%nat.
Definition characterId : ObjId := 1%nat.
Definition carId : ObjId := 2%nat.
Definition sunId : ObjId := 3%nat.
Definition sunTargetId : ObjId := 4%nat.
Definition ambientId : ObjId := 5%nat.
Definition groundId : ObjId := 6%nat.
Definition buildingId : ObjId := 7%nat.
Definition lanternId : ObjId := 8%nat.
Definition lanternLightId : ObjId := 9%nat.
Definition coinId : ObjId := 10%nat.

Definition noRotation : Euler.t := Euler.mk 0 0 0.
Definition white : Color.t := Color.mk 1 1 1.

Definition object (class : ObjClass) (position : Vector3.t) (children : list ObjId)
  : Object3D.t :=
  Object3D.mk class position noRotation true children 1 white.

(** The building of [tower] below stands at (40, 0, 40). *)
Definition store (characterPosition carPosition : Vector3.t) (carYaw : R) : Store :=
  fun id =>
    match id with
    | 1%nat => object GroupClass characterPosition []
    | 2%nat => Object3D.setRotation (Euler.mk 0 carYaw 0)
                 (object GroupClass carPosition [11; 12; 13; 14]%nat)
    | 3%nat => object DirectionalLightClass (Vector3.mk 30 50 20) []
    | 4%nat => object Object3DClass (Vector3.mk 0 0 0) []
    | 5%nat => object AmbientLightClass (Vector3.mk 0 0 0) []
    | 6%nat => object MeshClass (Vector3.mk 0 (-0.05) 0) []
    | 7%nat => object MeshClass (Vector3.mk 40 10 40) []
    | 8%nat => object GroupClass (Vector3.mk 12 0 (-3.5)) [9%nat]
    | 9%nat => object PointLightClass (Vector3.mk 0 4.8 0) []
    | 10%nat => object MeshClass (Vector3.mk 20 0.15 7) []
    | 11%nat | 12%nat | 13%nat | 14%nat => object MeshClass (Vector3.mk 0 0.4 0) []
    | _ => object PerspectiveCameraClass (Vector3.mk 0 0 0) []
    end.

(** A building 10 wide, 20 high and 10 deep, centred on (40, 40). *)
Definition tower : Box3.t := buildingCollider 40 40 10 20 10.

Definition noKeys : Keys := fun _ => false.
Definition forwardKey : Keys := fun key => String.eqb key "w".
Definition leftKey : Keys := fun key => String.eqb key "a".

Definition world (characterPosition carPosition : Vector3.t) (carYaw : R)
    (inCar : bool) (speed : R) (keys : Keys) : World :=
  {| objs := store characterPosition carPosition carYaw;
     sceneChildren := [ambientId; sunId; sunTargetId; characterId; carId; groundId;
                       lanternId; buildingId; coinId];
     sceneFog := Some (Color.ofHex 0x001029);
     sceneBackground := None;
     camera := cameraId;
     character := characterId;
     carModel := carId;
     carWheels := [11; 12; 13; 14]%nat;
     sunMoonLight := sunId;
     sunMoonLightTarget := sunTargetId;
     ambientLight := ambientId;
     streetLights := [lanternLightId];
     coins := [coinId];
     cameraTarget := if inCar then carId else characterId;
     cameraTargetOffset :=
       if inCar then Vector3.mk 0 1.5 0 else Vector3.mk 0 (characterHeight * 0.8) 0;
     cameraElevationAngle := PI / 7;
     cameraAzimuthAngle := 0;
     keysPressed := keys;
     currentTimeOfDaySeconds := cycleDurationSeconds / 4;
     collectedCoinsCount := 0;
     respawnAllCoinsTimeout := false;
     footstepTimer := 0;
     isJumping := false;
     velocityY := 0;
     isInCar := inCar;
     carSpeed := speed;
     carSteeringInput := 0;
     buildingColliders := [tower] |}.

(** A car driving straight at the tower, and a character walking into it. *)
Definition drivingAtTower : World :=
  world (Vector3.mk 3 0 2) (Vector3.mk 40 0 34) 0 true 20 noKeys.

Definition walkingAtTower : World :=
  world (Vector3.mk 40 0 34.8) (Vector3.mk 0 0 2) 0 false 0 forwardKey.

(** The character just past the chunk's edge on both axes, and far past it
    on one. *)
Definition pastTheEdge : World :=
  world (Vector3.mk 135 0 (-140)) (Vector3.mk 100 0 (-100)) 0 false 0 forwardKey.

Definition farPastTheEdge : World :=
  world (Vector3.mk 500 0 2) (Vector3.mk 0 0 2) 0 false 0 forwardKey.

(** At the start of a quiet frame, on foot next to the car. *)
Definition atStart : World :=
  world (Vector3.mk 2 0 2) (Vector3.mk 0 0 2) 0 false 0 noKeys.

(** Seated in the car, which is turned half a radian. *)
Definition seated : World :=
  world (Vector3.mk 3 0 2) (Vector3.mk 0 0 2) 0.5 true 0 noKeys.

End Demo.

(** ** Pointer and keyboard input *)

Definition mouseSensitivity : R := 0.002.

(** The camera's two angles. *)
Definition withAngles (elevation azimuth : R) (w : World) : World :=
  {| objs := objs w; sceneChildren := sceneChildren w; sceneFog := sceneFog w;
     sceneBackground := sceneBackground w; camera := camera w;
     character := character w; carModel := carModel w; carWheels := carWheels w;
     sunMoonLight := sunMoonLight w; sunMoonLightTarget := sunMoonLightTarget w;
     ambientLight := ambientLight w; streetLights := streetLights w;
     coins := coins w; cameraTarget := cameraTarget w;
     cameraTargetOffset := cameraTargetOffset w;
     cameraElevationAngle := elevation;
     cameraAzimuthAngle := azimuth; keysPressed := keysPressed w;
     currentTimeOfDaySeconds := currentTimeOfDaySeconds w;
     collectedCoinsCount := collectedCoinsCount w;
     respawnAllCoinsTimeout := respawnAllCoinsTimeout w;
     footstepTimer := footstepTimer w; isJumping := isJumping w;
     velocityY := velocityY w; isInCar := isInCar w; carSpeed := carSpeed w;
     carSteeringInput := carSteeringInput w;
     buildingColliders := buildingColliders w |}.

(** The world together with the pointer-capture flag, which the
    [pointerlockchange] listener writes and [onMouseMove] reads. *)
Record Session : Type := mkSession {
  world : World;
  isPointerLockActive : bool
}.

(** [onMouseMove]: pointer motion turns the camera only while the pointer is
    captured; the elevation is clamped. *)
Definition onMouseMove (movementX movementY : R) (s : Session) : Session :=
  if negb (isPointerLockActive s) then s
  else
    let w := world s in
    let azimuth := cameraAzimuthAngle w - JS.or_else movementX 0 * mouseSensitivity in
    let elevation := cameraElevationAngle w - JS.or_else movementY 0 * mouseSensitivity in
    let elevation := Rmax (PI / 36) (Rmin (PI / 2.2) elevation) in
    mkSession (withAngles elevation azimuth w) (isPointerLockActive s).

Section Keyboard.

(** [String.prototype.toLowerCase], which the source applies to the key of
    every keyboard event. *)
Variable toLowerCase : string -> string.

(** The [keydown] listener: the key is recorded under its lower-case name,
    the space key starts a jump on foot and on the ground, and the f key
    toggles the vehicle. *)
Definition onKeyDown (key : string) (w : World) : World :=
  let w1 := withKeys (<[toLowerCase key := true]> (keysPressed w)) w in
  let w2 :=
    if negb (isInCar w1) && bool_decide (key = " "%string) && negb (isJumping w1)
    then withJump (footstepTimer w1) true jumpStrength w1
    else w1 in
  if bool_decide (toLowerCase key = "f"%string) then enterOrExitCar w2 else w2.

(** The [keyup] listener. *)
Definition onKeyUp (key : string) (w : World) : World :=
  withKeys (<[toLowerCase key := false]> (keysPressed w)) w.

(** What can happen between two renderings: the listeners of
    [setupControls], the frame callback, and the coin timer, which fires
    only while it is pending. *)
Inductive Event : Type :=
  | KeyDown (key : string)
  | KeyUp (key : string)
  | MouseMove (movementX movementY : R)
  | PointerLockChange (active : bool)
  | Frame (deltaTime : R)
  | CoinRespawnTimer.

Definition handle (s : Session) (e : Event) : Session :=
  match e with
  | KeyDown key => mkSession (onKeyDown key (world s)) (isPointerLockActive s)
  | KeyUp key => mkSession (onKeyUp key (world s)) (isPointerLockActive s)
  | MouseMove movementX movementY => onMouseMove movementX movementY s
  | PointerLockChange active => mkSession (world s) active
  | Frame deltaTime =>
      mkSession (updateGameLogic deltaTime (world s)) (isPointerLockActive s)
  | CoinRespawnTimer =>
      mkSession (if respawnAllCoinsTimeout (world s) then respawnAllCoins (world s)
                 else world s)
                (isPointerLockActive s)
  end.

Definition runEvents (events : list Event) (s : Session) : Session :=
  foldl handle s events.

End Keyboard.

(** The frame times of a run of events are those of a clock: never negative. *)
Definition clockwise (e : Event) : Prop :=
  match e with
  | Frame deltaTime => 0 <= deltaTime
  | _ => True
  end.

(** The look-at point of the camera: the target's position plus the offset
    [updateCameraOrbit] uses for it. *)
Definition lookAtPosition (w : World) : Vector3.t :=
  Vector3.add (Object3D.position (objs w (cameraTarget w)))
    (if decide (cameraTarget w = carModel w) then Vector3.mk 0 1.0 0
     else cameraTargetOffset w).

(** ** Where the constructor puts the agents *)

(** Assigned once, in the constructor. *)
Definition cityOffset : R := (citySize * (blockSize + streetWidth) - streetWidth) / 2.

(** [createCar]: the car stands on the centre line of the middle vertical
    street; [Math.floor] is the integer part. *)
Definition carSpawn : Vector3.t :=
  let midStreetIndex := IZR (Int_part (citySize / 2)) in
  let carSpawnX :=
    midStreetIndex * (blockSize + streetWidth) - cityOffset - streetWidth / 2 in
  let carSpawnZ := blockSize * 0.1 in
  Vector3.mk carSpawnX 0 carSpawnZ.

(** [createCar]: the character starts beside the car. *)
Definition characterSpawn : Vector3.t :=
  Vector3.mk (Vector3.x carSpawn + 3) characterFeetY (Vector3.z carSpawn).

(** The height of the character. *)
Definition characterY (w : World) : R :=
  Vector3.y (Object3D.position (objs w (character w))).

(** ** The buildings of the city

    The second loop nest of [createObjects].  [Math.random] is a sequence
    of draws, [random n] being draw number [n]; each function takes the
    number of the next draw, and the loops hand on the list of colliders
    and the number of the draw that comes next. *)

Definition buildingPadding : R := 2.

(** The block indices [0 .. citySize - 1] of either loop. *)
Definition blockIndices : list nat := seq 0 (Z.to_nat (Int_part citySize)).

Definition blockCenter (i : nat) : R :=
  INR i * (blockSize + streetWidth) - cityOffset + blockSize / 2.

(** The body of the innermost loop: six draws, for the height, the width,
    the depth, the material and the two coordinates. *)
Definition createBuilding (random : nat -> R) (n i j : nat) : Box3.t :=
  let height := random n * 15 + 8 in
  let width := random (n + 1)%nat * (blockSize / 2.5 - buildingPadding) + 5 in
  let depth := random (n + 2)%nat * (blockSize / 2.5 - buildingPadding) + 5 in
  let buildingX :=
    blockCenter i
    + (random (n + 4)%nat - 0.5) * (blockSize - width - buildingPadding * 2) in
  let buildingZ :=
    blockCenter j
    + (random (n + 5)%nat - 0.5) * (blockSize - depth - buildingPadding * 2) in
  buildingCollider buildingX buildingZ width height depth.

(** [for (k = 0; k < numBuildingsInBlock; k++)], with [count] rounds to go. *)
Fixpoint createBuildingsInBlock (random : nat -> R) (i j count : nat)
    (state : list Box3.t * nat) : list Box3.t * nat :=
  match count with
  | O => state
  | S count' =>
      createBuildingsInBlock random i j count'
        (fst state ++ [createBuilding random (snd state) i j], (snd state + 6)%nat)
  end.

(** One block: a draw decides between one and two buildings. *)
Definition createBlock (random : nat -> R) (i j : nat) (state : list Box3.t * nat)
  : list Box3.t * nat :=
  let numBuildingsInBlock := (Z.to_nat (Int_part (random (snd state) * 2)) + 1)%nat in
  createBuildingsInBlock random i j numBuildingsInBlock (fst state, (snd state + 1)%nat).

(** The two outer loops, from draw [n] on and an empty list of colliders. *)
Definition createBuildings (random : nat -> R) (n : nat) : list Box3.t :=
  fst (foldl (fun state i =>
                foldl (fun state j => createBlock random i j state) state blockIndices)
             ([], n) blockIndices).

(** A box stands inside block (i, j) with the padding on every side, from
    the ground up to a height of at least 8 and less than 23. *)
Definition insideBlock (i j : nat) (box : Box3.t) : Prop :=
  blockCenter i - blockSize / 2 + buildingPadding <= Vector3.x (Box3.min box)
  /\ Vector3.x (Box3.min box) < Vector3.x (Box3.max box)
  /\ Vector3.x (Box3.max box) <= blockCenter i + blockSize / 2 - buildingPadding
  /\ blockCenter j - blockSize / 2 + buildingPadding <= Vector3.z (Box3.min box)
  /\ Vector3.z (Box3.min box) < Vector3.z (Box3.max box)
  /\ Vector3.z (Box3.max box) <= blockCenter j + blockSize / 2 - buildingPadding
  /\ Vector3.y (Box3.min box) = 0
  /\ 8 <= Vector3.y (Box3.max box) < 23.

(** Every collider built so far stands inside a block. *)
Definition builtInsideBlocks (state : list Box3.t * nat) : Prop :=
  forall box, box ∈ fst state ->
    exists i j, i ∈ blockIndices /\ j ∈ blockIndices /\ insideBlock i j box.

(** A coordinate that lies in no block's padded interval: on a street, or
    within the padding of one. *)
Definition offTheBlocks (c : R) : Prop :=
  forall i : nat,
    ~ (blockCenter i - blockSize / 2 + buildingPadding <= c
       <= blockCenter i + blockSize / 2 - buildingPadding).

(** ** Who collects coins *)

(** The agent whose position [checkCoinCollection] measures from. *)
Definition player (w : World) : ObjId := if isInCar w then carModel w else character w.

(** The agents and who is in control: what [enterOrExitCar] switches and
    nothing else writes. *)
Definition control (w : World) : ObjId * ObjId * ObjId * bool :=
  (cameraTarget w, character w, carModel w, isInCar w).

(** A coin is in reach when it is closer to the player than
    [coinCollectionDistance]. *)
Definition inReach (w : World) (coin : ObjId) : Prop :=
  Vector3.distanceTo (Object3D.position (objs w (player w)))
                     (Object3D.position (objs w coin))
  < coinCollectionDistance.

(** ** More states of the small world *)

Module Demo2.

Definition diagonalKeys : Keys := fun key => String.eqb key "w" || String.eqb key "a".
Definition opposedKeys : Keys := fun key => String.eqb key "w" || String.eqb key "s".

(** On foot next to the car, walking forward and to the left at once. *)
Definition walkingDiagonally : World :=
  Demo.world (Vector3.mk 2 0 2) (Vector3.mk 0 0 2) 0 false 0 diagonalKeys.

(** On foot with the forward and the back key held together. *)
Definition pullingBothWays : World :=
  Demo.world (Vector3.mk 2 0 2) (Vector3.mk 0 0 2) 0 false 0 opposedKeys.

(** In the first frame of a jump from the ground. *)
Definition takingOff : World :=
  withJump 0 true jumpStrength Demo.atStart.

(** Fallen far below the ground, not in a jump. *)
Definition fallen : World :=
  Demo.world (Vector3.mk 2 (-60) 2) (Vector3.mk 0 0 2) 0 false 0 Demo.noKeys.

(** On foot, close to the coin. *)
Definition atTheCoin : World :=
  Demo.world (Vector3.mk 20 0 6.5) (Vector3.mk 0 0 2) 0 false 0 Demo.noKeys.

(** The draws that are all one half. *)
Definition evenDraws : nat -> R := fun _ => 0.5.

End Demo2.


(** * Properties *)

Section Collision.

Lemma containsPoint_spec (box : Box3.t) (p : Vector3.t) :
  Box3.containsPoint box p = true
  <-> Box3.inFootprint box p /\ Box3.inHeightRange box p.
Proof.
  unfold Box3.containsPoint, Box3.inFootprint, Box3.inHeightRange.
  repeat case_bool_decide; simpl; split; intros Hin;
    try discriminate; try reflexivity; lra.
Qed.

Lemma collides_spec (cs : list Box3.t) (p : Vector3.t) :
  collides cs p = true <-> exists box, box ∈ cs /\ Box3.containsPoint box p = true.
Proof.
  induction cs as [|c cs IH]; simpl.
  - split; [discriminate|]. intros (box & Hin & _). inversion Hin.
  - destruct (Box3.containsPoint c p) eqn:Hc.
    + split; [|reflexivity]. intros _. exists c. split; [left|assumption].
    + rewrite IH. split.
      * intros (box & Hin & Hb). exists box. split; [right|]; assumption.
      * intros (box & Hin & Hb). inversion Hin; subst; [congruence|].
        exists box. split; assumption.
Qed.

Lemma containsPoint_shift (dx dz : R) (box : Box3.t) (p : Vector3.t) :
  Box3.containsPoint (Box3.shiftXZ dx dz box) p
  = Box3.containsPoint box (Vector3.shiftXZ (- dx) (- dz) p).
Proof.
  unfold Box3.containsPoint, Box3.shiftXZ, Vector3.shiftXZ; simpl.
  repeat case_bool_decide; simpl; try reflexivity; lra.
Qed.

(** C1, as the code has it: [collides] answers true exactly when the point
    is inside some stored box on all three axes, that is inside its
    horizontal footprint and within its height range; the height of the
    point is part of the test. *)
Theorem collides_iff_footprint_and_height (cs : list Box3.t) (p : Vector3.t) :
  collides cs p = true
  <-> exists box, box ∈ cs /\ Box3.inFootprint box p /\ Box3.inHeightRange box p.
Proof.
  rewrite collides_spec. split; intros (box & Hin & Hb); exists box; split;
    try assumption; apply containsPoint_spec; assumption.
Qed.

(** C1 fails as stated: a point above the roof of a building is inside the
    building's footprint and does not collide. *)
Lemma collides_above_roof_not_blocked :
  let cs := [Demo.tower] in
  let p := Vector3.mk 40 100 40 in
  (exists box, box ∈ cs /\ Box3.inFootprint box p) /\ collides cs p = false.
Proof.
  split.
  - exists Demo.tower. split; [left|].
    unfold Box3.inFootprint, Demo.tower, buildingCollider; simpl. lra.
  - unfold collides, Box3.containsPoint, Demo.tower, buildingCollider; simpl.
    repeat case_bool_decide; simpl; try reflexivity; lra.
Qed.

(** For a point at a height every stored box spans, as for an agent on the
    ground among buildings that rise from it, the query is the footprint
    test. *)
Lemma collides_ground_level (cs : list Box3.t) (p : Vector3.t) :
  Forall (fun box => Box3.inHeightRange box p) cs ->
  (collides cs p = true <-> exists box, box ∈ cs /\ Box3.inFootprint box p).
Proof.
  intros Hall. rewrite collides_spec. rewrite Forall_forall in Hall.
  split; intros (box & Hin & Hb); exists box; split; try assumption.
  - apply containsPoint_spec in Hb. apply Hb.
  - apply containsPoint_spec. split; [assumption|]. apply Hall; assumption.
Qed.

(** C6: after every stored collider is shifted by (dx, dz), the query at a
    point is the query before the shift at the point moved back by
    (dx, dz). *)
Theorem translateColliders_shifts_query (dx dz : R) (cs : list Box3.t) (p : Vector3.t) :
  collides (translateColliders dx dz cs) p
  = collides cs (Vector3.shiftXZ (- dx) (- dz) p).
Proof.
  unfold translateColliders.
  induction cs as [|c cs IH]; simpl; [reflexivity|].
  rewrite containsPoint_shift, IH. reflexivity.
Qed.

End Collision.

(** ** Stores *)

Section Stores.

Lemma alter_same (f : Object3D.t -> Object3D.t) (st : Store) (a : ObjId) :
  alter f a st a = f (st a).
Proof. apply fn_lookup_alter. Qed.

Lemma alter_other (f : Object3D.t -> Object3D.t) (st : Store) (a b : ObjId) :
  a <> b -> alter f a st b = st b.
Proof. apply fn_lookup_alter_ne. Qed.

Lemma insert_same (o : Object3D.t) (st : Store) (a : ObjId) : <[a := o]> st a = o.
Proof. apply fn_lookup_insert. Qed.

Lemma insert_other (o : Object3D.t) (st : Store) (a b : ObjId) :
  a <> b -> <[a := o]> st b = st b.
Proof. apply fn_lookup_insert_ne. Qed.

(** An update that keeps a projection of every object keeps it in the
    store, whichever object it is applied to. *)
Lemma alter_keeps {A : Type} (proj : Object3D.t -> A) (f : Object3D.t -> Object3D.t)
    (st : Store) (a b : ObjId) :
  (forall o, proj (f o) = proj o) -> proj (alter f a st b) = proj (st b).
Proof.
  intros Hf. destruct (decide (a = b)) as [->|Hne].
  - rewrite alter_same. apply Hf.
  - rewrite alter_other by assumption. reflexivity.
Qed.

Lemma foldl_keeps {A B C : Type} (proj : A -> C) (f : A -> B -> A) (l : list B) :
  (forall a b, proj (f a b) = proj a) -> forall a, proj (foldl f a l) = proj a.
Proof.
  intros Hf. induction l as [|b l IH]; intros a; simpl; [reflexivity|].
  rewrite IH. apply Hf.
Qed.

Lemma rotateWheels_position (delta steering : R) (wheels : list ObjId) :
  forall (index : nat) (st : Store) (o : ObjId),
    Object3D.position (rotateWheels delta steering wheels index st o)
    = Object3D.position (st o).
Proof.
  induction wheels as [|wheel rest IH]; intros index st o; simpl; [reflexivity|].
  rewrite IH. case_decide.
  - rewrite (alter_keeps Object3D.position) by reflexivity.
    apply (alter_keeps Object3D.position). reflexivity.
  - apply (alter_keeps Object3D.position). reflexivity.
Qed.

End Stores.

(** ** The vehicle *)

Section Vehicle.

Lemma steeringInput_cases (keys : Keys) :
  steeringInput keys = 1 \/ steeringInput keys = -1 \/ steeringInput keys = 0.
Proof.
  unfold steeringInput.
  destruct (keys "a" || keys "arrowleft"); [left; reflexivity|].
  destruct (keys "d" || keys "arrowright"); [right; left|right; right]; reflexivity.
Qed.

Lemma sin_max_steering_pos : 0 < sin carMaxSteeringAngleRad.
Proof.
  unfold carMaxSteeringAngleRad. pose proof PI_RGT_0.
  apply sin_gt_0; lra.
Qed.

(** A turned wheel never gives a zero sine. *)
Lemma sin_steering_nonzero (keys : Keys) :
  steeringInput keys <> 0 ->
  sin (steeringInput keys * carMaxSteeringAngleRad) <> 0.
Proof.
  intros Hne. pose proof sin_max_steering_pos as Hpos.
  destruct (steeringInput_cases keys) as [Hs | [Hs | Hs]];
    [| |contradiction]; rewrite Hs; clear Hs Hne.
  - rewrite Rmult_1_l. lra.
  - replace (-1 * carMaxSteeringAngleRad) with (- carMaxSteeringAngleRad) by lra.
    rewrite sin_neg. lra.
Qed.

Lemma turnRadius_nonzero (keys : Keys) :
  steeringInput keys <> 0 -> turnRadius (steeringInput keys) <> 0.
Proof.
  intros Hne. unfold turnRadius, carWheelBase, Rdiv.
  apply Rmult_integral_contrapositive_currified; [lra|].
  apply Rinv_neq_0_compat. apply sin_steering_nonzero. assumption.
Qed.

Lemma carSpeedAfterInput_limits (deltaTime : R) (w : World) :
  carReverseMaxSpeed <= carSpeedAfterInput deltaTime w <= carMaxSpeed.
Proof.
  unfold carSpeedAfterInput. cbv zeta.
  match goal with |- _ <= Rmax _ (Rmin _ ?s) <= _ => generalize s end.
  intros s. unfold carReverseMaxSpeed, carMaxSpeed.
  split.
  - apply Rmax_l.
  - apply Rmax_lub; [lra|apply Rmin_l].
Qed.

Lemma updateCarMovement_speed (deltaTime : R) (w : World) :
  carSpeed (updateCarMovement deltaTime w)
  = if collides (buildingColliders w) (carCandidate deltaTime w) then 0
    else carSpeedAfterInput deltaTime w.
Proof. reflexivity. Qed.

Lemma updateCarMovement_limits (deltaTime : R) (w : World) :
  carReverseMaxSpeed <= carSpeed (updateCarMovement deltaTime w) <= carMaxSpeed.
Proof.
  rewrite updateCarMovement_speed.
  destruct (collides _ _).
  - unfold carReverseMaxSpeed, carMaxSpeed. lra.
  - apply carSpeedAfterInput_limits.
Qed.

Lemma updateCarMovement_position (deltaTime : R) (w : World) :
  Object3D.position (objs (updateCarMovement deltaTime w) (carModel w))
  = Vector3.setY
      (if collides (buildingColliders w) (carCandidate deltaTime w)
       then Object3D.position (objs w (carModel w))
       else carCandidate deltaTime w) 0.
Proof.
  unfold updateCarMovement. cbn [objs withCar withObjs].
  rewrite rotateWheels_position, alter_same.
  destruct (collides _ _); cbn [Object3D.setY Object3D.position Object3D.setPosition].
  - rewrite insert_same. unfold carAfterSteering.
    destruct (_ && _); reflexivity.
  - rewrite alter_same. reflexivity.
Qed.


(** The other steps of a frame leave the vehicle's mode and speed alone. *)
Lemma updateDayNightCycle_car (deltaTime : R) (w : World) :
  isInCar (updateDayNightCycle deltaTime w) = isInCar w
  /\ carSpeed (updateDayNightCycle deltaTime w) = carSpeed w.
Proof. split; reflexivity. Qed.

Lemma updateCharacterMovement_car (deltaTime : R) (w : World) :
  isInCar (updateCharacterMovement deltaTime w) = isInCar w
  /\ carSpeed (updateCharacterMovement deltaTime w) = carSpeed w.
Proof.
  unfold updateCharacterMovement, jumpPhysics.
  repeat (case_match || case_decide); split; reflexivity.
Qed.

Lemma wrapWorld_car (w : World) :
  isInCar (wrapWorld w) = isInCar w /\ carSpeed (wrapWorld w) = carSpeed w.
Proof. unfold wrapWorld. case_match; split; reflexivity. Qed.

Lemma collectCoin_car (player : ObjId) (w : World) (coin : ObjId) :
  isInCar (collectCoin player w coin) = isInCar w
  /\ carSpeed (collectCoin player w coin) = carSpeed w.
Proof. unfold collectCoin. case_match; split; reflexivity. Qed.

Lemma checkCoinCollection_car (w : World) :
  isInCar (checkCoinCollection w) = isInCar w
  /\ carSpeed (checkCoinCollection w) = carSpeed w.
Proof.
  unfold checkCoinCollection. generalize (if isInCar w then carModel w else character w).
  intros player. split.
  - apply (foldl_keeps isInCar). intros a b. apply collectCoin_car.
  - apply (foldl_keeps carSpeed). intros a b. apply collectCoin_car.
Qed.

Lemma updateGameLogic_isInCar (deltaTime : R) (w : World) :
  isInCar (updateGameLogic deltaTime w) = isInCar w.
Proof.
  unfold updateGameLogic. cbv zeta.
  rewrite (proj1 (checkCoinCollection_car _)).
  change (isInCar (updateCoins deltaTime ?x)) with (isInCar x).
  rewrite (proj1 (wrapWorld_car _)).
  change (isInCar (updateCameraOrbit ?x)) with (isInCar x).
  change (isInCar (updateDayNightCycle deltaTime w)) with (isInCar w).
  destruct (isInCar w) eqn:Hcar.
  - exact Hcar.
  - rewrite (proj1 (updateCharacterMovement_car _ _)). exact Hcar.
Qed.

Lemma updateGameLogic_carSpeed_driving (deltaTime : R) (w : World) :
  isInCar w = true ->
  carSpeed (updateGameLogic deltaTime w)
  = carSpeed (updateCarMovement deltaTime (updateDayNightCycle deltaTime w)).
Proof.
  intros Hcar. unfold updateGameLogic. cbv zeta.
  rewrite (proj2 (checkCoinCollection_car _)).
  change (carSpeed (updateCoins deltaTime ?x)) with (carSpeed x).
  rewrite (proj2 (wrapWorld_car _)).
  change (carSpeed (updateCameraOrbit ?x)) with (carSpeed x).
  change (isInCar (updateDayNightCycle deltaTime w)) with (isInCar w).
  rewrite Hcar. reflexivity.
Qed.

Lemma runFrames_isInCar (frames : list (Keys * R)) :
  forall w, isInCar (runFrames frames w) = isInCar w.
Proof.
  unfold runFrames. apply (foldl_keeps isInCar).
  intros a b. rewrite updateGameLogic_isInCar. reflexivity.
Qed.

Lemma runFrames_snoc (frames : list (Keys * R)) (keys : Keys) (deltaTime : R) (w : World) :
  runFrames (frames ++ [(keys, deltaTime)]) w
  = updateGameLogic deltaTime (withKeys keys (runFrames frames w)).
Proof. unfold runFrames. rewrite foldl_app. reflexivity. Qed.

(** C5: in vehicle mode the speed is within
    [carReverseMaxSpeed, carMaxSpeed] after every frame, whatever the
    frames before it, the keys held and the frame times were. *)
Theorem carSpeed_within_limits (frames : list (Keys * R)) (keys : Keys)
    (deltaTime : R) (w : World) :
  isInCar w = true ->
  carReverseMaxSpeed
  <= carSpeed (runFrames (frames ++ [(keys, deltaTime)]) w)
  <= carMaxSpeed.
Proof.
  intros Hcar. rewrite runFrames_snoc.
  rewrite updateGameLogic_carSpeed_driving.
  - apply updateCarMovement_limits.
  - change (isInCar (withKeys keys ?x)) with (isInCar x).
    rewrite runFrames_isInCar. assumption.
Qed.

Lemma carYawChecked_total (deltaTime : R) (w : World) :
  carYawChecked deltaTime w
  = Some (Euler.y (Object3D.rotation (carAfterSteering deltaTime w))).
Proof.
  unfold carYawChecked, carAfterSteering. cbv zeta.
  case_bool_decide as Hspeed; [|reflexivity].
  case_bool_decide as Hsteer; [|reflexivity].
  cbn [andb]. unfold checkedDiv.
  destruct (decide (sin (steeringInput (keysPressed w) * carMaxSteeringAngleRad) = 0))
    as [Hzero|_].
  - exfalso. revert Hzero. apply sin_steering_nonzero. assumption.
  - fold (turnRadius (steeringInput (keysPressed w))).
    destruct (decide (turnRadius (steeringInput (keysPressed w)) = 0)) as [Hzero|_].
    + exfalso. revert Hzero. apply turnRadius_nonzero. assumption.
    + reflexivity.
Qed.

(** C7: the steering step divides only by nonzero numbers.  The step with
    every division checked always yields the yaw the car gets; when the
    step runs, that is when speed and steering input are both nonzero,
    the sine and the turn radius are nonzero; and when either is zero the
    car is not turned at all. *)
Theorem steering_never_divides_by_zero (deltaTime : R) (w : World) :
  let speed := carSpeedAfterInput deltaTime w in
  let steering := steeringInput (keysPressed w) in
  carYawChecked deltaTime w
  = Some (Euler.y (Object3D.rotation (carAfterSteering deltaTime w)))
  /\ (speed <> 0 -> steering <> 0 ->
      sin (steering * carMaxSteeringAngleRad) <> 0
      /\ turnRadius steering <> 0
      /\ carAfterSteering deltaTime w
         = Object3D.addRotationY (speed / turnRadius steering * deltaTime)
             (objs w (carModel w)))
  /\ (speed = 0 \/ steering = 0 -> carAfterSteering deltaTime w = objs w (carModel w)).
Proof.
  intros speed steering. split; [apply carYawChecked_total|]. split.
  - intros Hspeed Hsteer. split; [apply sin_steering_nonzero; assumption|].
    split; [apply turnRadius_nonzero; assumption|].
    unfold carAfterSteering. fold speed steering.
    rewrite !bool_decide_eq_true_2 by assumption. reflexivity.
  - intros Hzero. unfold carAfterSteering. fold speed steering.
    destruct Hzero as [Hzero|Hzero].
    + rewrite (bool_decide_eq_false_2 (speed <> 0)); [reflexivity|]. tauto.
    + rewrite (bool_decide_eq_false_2 (steering <> 0)), andb_false_r; [reflexivity|].
      tauto.
Qed.

End Vehicle.

(** ** Movement against a collider *)

Section Blocked.

Lemma movementDirection_flat (w : World) : Vector3.y (fst (movementDirection w)) = 0.
Proof.
  unfold movementDirection. cbv zeta.
  repeat match goal with |- context [if ?c then _ else _] => destruct c end;
    simpl; lra.
Qed.

Lemma characterStep_flat (deltaTime : R) (w : World) :
  Vector3.y (characterStep deltaTime w) = 0.
Proof.
  unfold characterStep, Vector3.normalize, Vector3.multiplyScalar; simpl.
  rewrite movementDirection_flat. ring.
Qed.

(** The horizontal move never changes the character's height. *)
Lemma moveCharacter_y (deltaTime : R) (w : World) :
  Vector3.y (Object3D.position (moveCharacter deltaTime w (character w)))
  = Vector3.y (Object3D.position (objs w (character w))).
Proof.
  unfold moveCharacter. destruct (snd (movementDirection w)); [|reflexivity].
  cbv zeta. rewrite alter_same.
  cbn [Object3D.addRotationY Object3D.setRotation Object3D.position].
  destruct (collides _ _); cbn [negb]; [reflexivity|].
  rewrite alter_same. cbn [Object3D.setPosition Object3D.position].
  unfold characterCandidate, Vector3.add. cbn [Vector3.y].
  rewrite characterStep_flat. lra.
Qed.

Lemma moveCharacter_blocked (deltaTime : R) (w : World) :
  snd (movementDirection w) = true ->
  collides (buildingColliders w) (characterCandidate deltaTime w) = true ->
  Object3D.position (moveCharacter deltaTime w (character w))
  = Object3D.position (objs w (character w)).
Proof.
  intros Hmove Hhit. unfold moveCharacter. rewrite Hmove, Hhit. cbv zeta.
  rewrite alter_same. reflexivity.
Qed.

(** Above the respawn threshold the vertical half moves the character
    vertically only. *)
Lemma jumpPhysics_horizontal (deltaTime timer : R) (st : Store) (w : World) :
  -50 <= Vector3.y (Object3D.position (st (character w))) ->
  let p := Object3D.position (objs (jumpPhysics deltaTime timer st w) (character w)) in
  Vector3.x p = Vector3.x (Object3D.position (st (character w)))
  /\ Vector3.z p = Vector3.z (Object3D.position (st (character w))).
Proof.
  intros Hy. unfold jumpPhysics. cbv zeta.
  destruct (isJumping w).
  - case_decide; cbn [objs withJump withObjs]; rewrite alter_same; split; reflexivity.
  - destruct (bool_decide _ && bool_decide _) eqn:Hsnap.
    + rewrite alter_same. cbn [Object3D.setY Object3D.position Object3D.setPosition
                               Vector3.setY Vector3.y].
      case_decide as Hfall; [unfold characterFeetY in Hfall; lra|].
      cbn [objs withJump withObjs]. rewrite alter_same. split; reflexivity.
    + case_decide as Hfall; [lra|]. split; reflexivity.
Qed.

(** The vertical half reads the store only at the character's height. *)
Lemma jumpPhysics_vertical (deltaTime timer timer' : R) (st st' : Store)
    (cs : list Box3.t) (w : World) :
  Vector3.y (Object3D.position (st (character w)))
  = Vector3.y (Object3D.position (st' (character w))) ->
  velocityY (jumpPhysics deltaTime timer st w)
  = velocityY (jumpPhysics deltaTime timer' st' (withColliders cs w))
  /\ isJumping (jumpPhysics deltaTime timer st w)
     = isJumping (jumpPhysics deltaTime timer' st' (withColliders cs w)).
Proof.
  intros Hy. unfold jumpPhysics. cbv zeta.
  cbn [isJumping velocityY character carModel withColliders].
  rewrite <- Hy.
  destruct (isJumping w) eqn:Hjump.
  - case_decide; cbn [velocityY isJumping withJump withObjs]; split; reflexivity.
  - destruct (bool_decide _ && bool_decide _) eqn:Hsnap.
    + rewrite !alter_same.
      cbn [Object3D.setY Object3D.position Object3D.setPosition Vector3.setY Vector3.y].
      case_decide; cbn [velocityY isJumping withJump withObjs]; split; reflexivity.
    + rewrite <- Hy.
      case_decide; cbn [velocityY isJumping withJump withObjs]; split;
        first [reflexivity | assumption | symmetry; assumption].
Qed.

(** On the ground and not jumping, the vertical half changes nothing in the
    store. *)
Lemma jumpPhysics_grounded (deltaTime timer : R) (st : Store) (w : World) :
  isJumping w = false ->
  characterFeetY <= Vector3.y (Object3D.position (st (character w))) ->
  objs (jumpPhysics deltaTime timer st w) = st.
Proof.
  intros Hjump Hy. unfold jumpPhysics. cbv zeta. rewrite Hjump.
  rewrite (bool_decide_eq_false_2
             (Vector3.y (Object3D.position (st (character w))) < characterFeetY))
    by lra.
  cbn [andb]. case_decide as Hfall; [unfold characterFeetY in Hy; lra|].
  reflexivity.
Qed.

(** C3: a vehicle whose candidate position collides keeps its horizontal
    position for the frame and its speed becomes 0.  A character whose
    candidate collides (and who is not below the fall threshold, where the
    respawn moves it) keeps its horizontal position too, and its whole
    position when it stands on the ground; but no speed is zeroed for it:
    the vehicle's speed stays as it was, and the vertical velocity and the
    jump flag come out as they would with no collider at all. *)
Theorem blocked_move_stops_vehicle_only (deltaTime : R) (w : World) :
  (collides (buildingColliders w) (carCandidate deltaTime w) = true ->
   let w' := updateCarMovement deltaTime w in
   Vector3.x (Object3D.position (objs w' (carModel w)))
   = Vector3.x (Object3D.position (objs w (carModel w)))
   /\ Vector3.z (Object3D.position (objs w' (carModel w)))
      = Vector3.z (Object3D.position (objs w (carModel w)))
   /\ carSpeed w' = 0)
  /\ (snd (movementDirection w) = true ->
      collides (buildingColliders w) (characterCandidate deltaTime w) = true ->
      -50 <= Vector3.y (Object3D.position (objs w (character w))) ->
      let w' := updateCharacterMovement deltaTime w in
      let free := updateCharacterMovement deltaTime (withColliders [] w) in
      Vector3.x (Object3D.position (objs w' (character w)))
      = Vector3.x (Object3D.position (objs w (character w)))
      /\ Vector3.z (Object3D.position (objs w' (character w)))
         = Vector3.z (Object3D.position (objs w (character w)))
      /\ (isJumping w = false ->
          characterFeetY <= Vector3.y (Object3D.position (objs w (character w))) ->
          Object3D.position (objs w' (character w))
          = Object3D.position (objs w (character w)))
      /\ carSpeed w' = carSpeed w
      /\ velocityY w' = velocityY free
      /\ isJumping w' = isJumping free).
Proof.
  split.
  - intros Hhit w'. subst w'.
    rewrite updateCarMovement_position, updateCarMovement_speed, Hhit.
    repeat split; reflexivity.
  - intros Hmove Hhit Hy w' free. subst w' free. unfold updateCharacterMovement.
    pose proof (moveCharacter_blocked deltaTime w Hmove Hhit) as Hpos.
    destruct (jumpPhysics_horizontal deltaTime (footstepTimerAfter deltaTime w)
                (moveCharacter deltaTime w) w) as [Hx Hz].
    { rewrite Hpos. assumption. }
    rewrite Hpos in Hx, Hz.
    split; [exact Hx|]. split; [exact Hz|].
    split.
    { intros Hjump Hground. rewrite jumpPhysics_grounded.
      - exact Hpos.
      - exact Hjump.
      - rewrite Hpos. exact Hground. }
    split; [apply (updateCharacterMovement_car deltaTime w)|].
    apply jumpPhysics_vertical.
    rewrite moveCharacter_y.
    change (character w) with (character (withColliders [] w)).
    rewrite (moveCharacter_y deltaTime (withColliders [] w)). reflexivity.
Qed.

(** The two loops on the angle difference end within their fuel: the result
    is in [-PI, PI]. *)
Lemma raiseAngle_spec (fuel : nat) :
  forall a : R,
    - PI - 2 * PI * INR fuel <= a ->
    - PI <= raiseAngle fuel a
    /\ (a < - PI -> raiseAngle fuel a < PI)
    /\ (- PI <= a -> raiseAngle fuel a = a).
Proof.
  pose proof PI_RGT_0 as Hpi.
  induction fuel as [|fuel IH]; intros a Ha.
  - simpl in *. repeat split; intros; lra.
  - rewrite S_INR in Ha. cbn [raiseAngle]. case_decide as Hlow.
    + destruct (IH (a + 2 * PI)) as (H1 & H2 & H3); [lra|].
      split; [exact H1|]. split; [|intros; lra].
      intros _. destruct (Rlt_dec (a + 2 * PI) (- PI)) as [Hstill|Hdone].
      * apply H2. exact Hstill.
      * rewrite H3 by lra. lra.
    + repeat split; intros; lra.
Qed.

Lemma lowerAngle_spec (fuel : nat) :
  forall a : R,
    a <= PI + 2 * PI * INR fuel ->
    lowerAngle fuel a <= PI
    /\ (a > PI -> lowerAngle fuel a > - PI)
    /\ (a <= PI -> lowerAngle fuel a = a).
Proof.
  pose proof PI_RGT_0 as Hpi.
  induction fuel as [|fuel IH]; intros a Ha.
  - simpl in *. repeat split; intros; lra.
  - rewrite S_INR in Ha. cbn [lowerAngle]. case_decide as Hhigh.
    + destruct (IH (a - 2 * PI)) as (H1 & H2 & H3); [lra|].
      split; [exact H1|]. split; [|intros; lra].
      intros _. destruct (Rgt_dec (a - 2 * PI) PI) as [Hstill|Hdone].
      * apply H2. exact Hstill.
      * rewrite H3 by lra. lra.
    + repeat split; intros; lra.
Qed.

Lemma wrapAngle_range (a : R) : - PI <= wrapAngle a <= PI.
Proof.
  pose proof PI_RGT_0 as Hpi. unfold wrapAngle. cbv zeta.
  set (fuel := Z.to_nat (up (Rabs a / (2 * PI)))).
  assert (Hfuel : Rabs a < 2 * PI * INR fuel).
  { destruct (archimed (Rabs a / (2 * PI))) as [Hup _].
    assert (Hq : 0 <= Rabs a / (2 * PI)).
    { apply Rmult_le_pos; [apply Rabs_pos|]. left. apply Rinv_0_lt_compat. lra. }
    assert (Hpos : (0 <= up (Rabs a / (2 * PI)))%Z).
    { apply le_IZR. lra. }
    unfold fuel. rewrite INR_IZR_INZ, Z2Nat.id by assumption.
    apply (Rmult_lt_compat_l (2 * PI)) in Hup; [|lra].
    replace (2 * PI * (Rabs a / (2 * PI))) with (Rabs a) in Hup by (field; lra).
    exact Hup. }
  assert (Habs : - Rabs a <= a <= Rabs a).
  { split; [|apply Rle_abs]. pose proof (Rle_abs (- a)) as H. rewrite Rabs_Ropp in H. lra. }
  destruct (raiseAngle_spec fuel a) as (R1 & R2 & R3); [lra|].
  destruct (lowerAngle_spec fuel (raiseAngle fuel a)) as (L1 & L2 & L3).
  { destruct (Rlt_dec a (- PI)) as [Hlow|Hok].
    - pose proof (R2 Hlow). pose proof (pos_INR fuel). nra.
    - rewrite R3 by lra. lra. }
  split; [|exact L1].
  destruct (Rgt_dec (raiseAngle fuel a) PI) as [Hhigh|Hok].
  - pose proof (L2 Hhigh). lra.
  - rewrite L3 by lra. exact R1.
Qed.

End Blocked.

(** ** Orientation about the vertical axis *)

Section Yaw.

Lemma half_zero : 0 / 2 = 0.
Proof. lra. Qed.

(** An object turned about the vertical axis only has a quaternion with
    two components. *)
Lemma quaternion_yaw_only (o : Object3D.t) :
  Euler.x (Object3D.rotation o) = 0 ->
  Euler.z (Object3D.rotation o) = 0 ->
  Object3D.quaternion o
  = Quaternion.mk 0 (sin (Euler.y (Object3D.rotation o) / 2)) 0
                  (cos (Euler.y (Object3D.rotation o) / 2)).
Proof.
  intros Hx Hz. unfold Object3D.quaternion, Quaternion.setFromEuler.
  rewrite Hx, Hz, half_zero, sin_0, cos_0. f_equal; ring.
Qed.

Lemma applyQuaternion_yaw (v : Vector3.t) (s c : R) :
  applyQuaternion v (Quaternion.mk 0 s 0 c)
  = Vector3.mk ((c * c - s * s) * Vector3.x v + 2 * s * c * Vector3.z v)
               ((c * c + s * s) * Vector3.y v)
               ((c * c - s * s) * Vector3.z v - 2 * s * c * Vector3.x v).
Proof. unfold applyQuaternion; simpl. f_equal; ring. Qed.

Lemma sin_cos_half_zero : sin (0 / 2) = 0 /\ cos (0 / 2) = 1.
Proof. rewrite half_zero. split; [apply sin_0|apply cos_0]. Qed.

End Yaw.

Section VehicleExamples.

(** C5 at work: two frames of driving in the small world. *)
Example carSpeed_within_limits_witness :
  let w := Demo.world (Vector3.mk 3 0 2) (Vector3.mk 0 0 2) 0 true 20 Demo.noKeys in
  isInCar w = true
  /\ carReverseMaxSpeed
     <= carSpeed (runFrames ([(Demo.forwardKey, 0.5)] ++ [(Demo.noKeys, 0.1)]) w)
     <= carMaxSpeed.
Proof.
  split; [reflexivity|].
  apply (carSpeed_within_limits [(Demo.forwardKey, 0.5)] Demo.noKeys 0.1).
  reflexivity.
Defined.

Lemma demo_speed_after_left :
  carSpeedAfterInput 0.1
    (Demo.world (Vector3.mk 3 0 2) (Vector3.mk 0 0 2) 0 true 10 Demo.leftKey) = 8.5.
Proof.
  unfold carSpeedAfterInput, accelerationInput, carAcceleration, carDeceleration,
    carReverseMaxSpeed, carMaxSpeed; simpl.
  rcases; rminmax.
Qed.

(** C7 at work: the car moves at 10 with the left key held. *)
Example steering_never_divides_by_zero_witness :
  let w := Demo.world (Vector3.mk 3 0 2) (Vector3.mk 0 0 2) 0 true 10 Demo.leftKey in
  (carSpeedAfterInput 0.1 w <> 0 /\ steeringInput (keysPressed w) <> 0)
  /\ sin (steeringInput (keysPressed w) * carMaxSteeringAngleRad) <> 0
  /\ turnRadius (steeringInput (keysPressed w)) <> 0.
Proof.
  intros w.
  assert (Hspeed : carSpeedAfterInput 0.1 w <> 0).
  { unfold w. rewrite demo_speed_after_left. lra. }
  assert (Hsteer : steeringInput (keysPressed w) <> 0).
  { unfold w, steeringInput; simpl. lra. }
  split; [split; assumption|].
  destruct (steering_never_divides_by_zero 0.1 w) as (_ & Hturn & _).
  destruct (Hturn Hspeed Hsteer) as (Hsin & Hradius & _).
  split; assumption.
Defined.


Lemma drivingAtTower_candidate :
  carCandidate 0.1 Demo.drivingAtTower = Vector3.mk 40 0 35.85.
Proof.
  unfold carCandidate.
  assert (Hspeed : carSpeedAfterInput 0.1 Demo.drivingAtTower = 18.5).
  { unfold carSpeedAfterInput, accelerationInput, carAcceleration, carDeceleration,
      carReverseMaxSpeed, carMaxSpeed; simpl.
    rcases; rminmax. }
  assert (Hcar : carAfterSteering 0.1 Demo.drivingAtTower
                 = objs Demo.drivingAtTower (carModel Demo.drivingAtTower)).
  { unfold carAfterSteering. rewrite Hspeed.
    replace (steeringInput (keysPressed Demo.drivingAtTower)) with 0 by reflexivity.
    rewrite (bool_decide_eq_false_2 (0 <> 0)) by tauto.
    rewrite andb_false_r. reflexivity. }
  rewrite Hcar, Hspeed, quaternion_yaw_only by reflexivity.
  rewrite applyQuaternion_yaw. simpl.
  destruct sin_cos_half_zero as [-> ->].
  unfold Vector3.add, Vector3.multiplyScalar; simpl. f_equal; lra.
Qed.

Lemma walkingAtTower_candidate :
  characterCandidate 0.1 Demo.walkingAtTower = Vector3.mk 40 0 35.2.
Proof.
  unfold characterCandidate, characterStep, movementDirection, Vector3.normalize,
    Vector3.length, moveSpeed; simpl.
  rewrite sin_0, cos_0.
  replace ((0 + 0) * (0 + 0) + (0 + 0) * (0 + 0) + (0 + 1) * (0 + 1)) with 1 by lra.
  rewrite sqrt_1. unfold JS.or_else. rcases.
  unfold Vector3.add, Vector3.multiplyScalar; simpl. f_equal; lra.
Qed.

Lemma tower_contains (p : Vector3.t) :
  35 <= Vector3.x p <= 45 -> 0 <= Vector3.y p <= 20 -> 35 <= Vector3.z p <= 45 ->
  collides [Demo.tower] p = true.
Proof.
  intros Hx Hy Hz. apply collides_spec. exists Demo.tower. split; [left|].
  apply containsPoint_spec.
  unfold Box3.inFootprint, Box3.inHeightRange, Demo.tower, buildingCollider; simpl.
  lra.
Qed.

(** C3 at work: the car and the character of the small world run into the
    tower. *)
Example blocked_move_stops_vehicle_only_witness :
  (collides (buildingColliders Demo.drivingAtTower) (carCandidate 0.1 Demo.drivingAtTower) = true
   /\ carSpeed (updateCarMovement 0.1 Demo.drivingAtTower) = 0)
  /\ (snd (movementDirection Demo.walkingAtTower) = true
      /\ collides (buildingColliders Demo.walkingAtTower)
           (characterCandidate 0.1 Demo.walkingAtTower) = true
      /\ -50 <= Vector3.y (Object3D.position
                             (objs Demo.walkingAtTower (character Demo.walkingAtTower)))
      /\ carSpeed (updateCharacterMovement 0.1 Demo.walkingAtTower)
         = carSpeed Demo.walkingAtTower).
Proof.
  assert (Hcar : collides (buildingColliders Demo.drivingAtTower)
                   (carCandidate 0.1 Demo.drivingAtTower) = true).
  { rewrite drivingAtTower_candidate. apply tower_contains; simpl; lra. }
  assert (Hfoot : collides (buildingColliders Demo.walkingAtTower)
                    (characterCandidate 0.1 Demo.walkingAtTower) = true).
  { rewrite walkingAtTower_candidate. apply tower_contains; simpl; lra. }
  assert (Hy : -50 <= Vector3.y (Object3D.position
                                   (objs Demo.walkingAtTower (character Demo.walkingAtTower)))).
  { simpl. lra. }
  destruct (blocked_move_stops_vehicle_only 0.1 Demo.drivingAtTower) as [Hvehicle _].
  destruct (blocked_move_stops_vehicle_only 0.1 Demo.walkingAtTower) as [_ Hwalk].
  split.
  - split; [exact Hcar|]. apply (Hvehicle Hcar).
  - split; [reflexivity|]. split; [exact Hfoot|]. split; [exact Hy|].
    destruct (Hwalk eq_refl Hfoot Hy) as (_ & _ & _ & Hspeed & _). exact Hspeed.
Defined.

End VehicleExamples.
(** ** The enter/exit toggle *)

Section Toggle.

Lemma enterOrExitCar_enter (w : World) :
  isInCar w = false ->
  Vector3.distanceTo (Object3D.position (objs w (character w)))
                     (Object3D.position (objs w (carModel w))) < enterCarDistance ->
  enterOrExitCar w
  = withCar true 0 0
      (withCamera (carModel w) (Vector3.mk 0 1.5 0)
         (withObjs (alter (Object3D.setVisible false) (character w) (objs w)) w)).
Proof.
  intros Hfoot Hnear. unfold enterOrExitCar. rewrite Hfoot.
  case_decide; [reflexivity|contradiction].
Qed.

(** Where leaving the car puts the character, and what it leaves alone. *)
Lemma enterOrExitCar_exit (w : World) :
  isInCar w = true ->
  character w <> carModel w ->
  let w' := enterOrExitCar w in
  let car := objs w (carModel w) in
  isInCar w' = false /\ carSpeed w' = 0
  /\ cameraTarget w' = character w
  /\ objs w' (carModel w) = car
  /\ Object3D.visible (objs w' (character w)) = true
  /\ Object3D.position (objs w' (character w))
     = Vector3.setY
         (Vector3.add (Object3D.position car)
            (applyQuaternion (Vector3.mk 1.5 0 0) (Object3D.quaternion car)))
         characterFeetY.
Proof.
  intros Hcar Hne w' car. subst w' car. unfold enterOrExitCar. rewrite Hcar.
  cbn [isInCar carSpeed cameraTarget objs withCar withCamera withObjs].
  repeat split.
  - rewrite !alter_other by assumption. reflexivity.
  - rewrite !alter_same. reflexivity.
  - rewrite !alter_same. rewrite !alter_other by assumption. reflexivity.
Qed.

(** C9: from on foot and within reach of the car, the toggle enters the
    car and zeroes its speed; the next toggle, with no condition, returns
    on foot and zeroes the speed again, with the character visible, at
    the exit offset from the car turned by the car's orientation, and at
    ground height. *)
Theorem toggle_twice_round_trip (w : World) :
  isInCar w = false ->
  Vector3.distanceTo (Object3D.position (objs w (character w)))
                     (Object3D.position (objs w (carModel w))) < enterCarDistance ->
  character w <> carModel w ->
  let w1 := enterOrExitCar w in
  let w2 := enterOrExitCar w1 in
  let car := objs w2 (carModel w) in
  (isInCar w1 = true /\ carSpeed w1 = 0
   /\ Object3D.visible (objs w1 (character w)) = false
   /\ cameraTarget w1 = carModel w)
  /\ (isInCar w2 = false /\ carSpeed w2 = 0
      /\ Object3D.visible (objs w2 (character w)) = true
      /\ cameraTarget w2 = character w
      /\ Object3D.position (objs w2 (character w))
         = Vector3.setY
             (Vector3.add (Object3D.position car)
                (applyQuaternion (Vector3.mk 1.5 0 0) (Object3D.quaternion car)))
             characterFeetY
      /\ Vector3.y (Object3D.position (objs w2 (character w))) = characterFeetY).
Proof.
  intros Hfoot Hnear Hne w1 w2 car.
  assert (Hw1 : w1 = withCar true 0 0
                       (withCamera (carModel w) (Vector3.mk 0 1.5 0)
                          (withObjs (alter (Object3D.setVisible false) (character w)
                                           (objs w)) w)))
    by (apply enterOrExitCar_enter; assumption).
  split.
  - rewrite Hw1. cbn [isInCar carSpeed cameraTarget objs withCar withCamera withObjs].
    rewrite alter_same. repeat split; reflexivity.
  - assert (Hin : isInCar w1 = true) by (rewrite Hw1; reflexivity).
    assert (Hne1 : character w1 <> carModel w1) by (rewrite Hw1; exact Hne).
    assert (Hch : character w1 = character w) by (rewrite Hw1; reflexivity).
    assert (Hcm : carModel w1 = carModel w) by (rewrite Hw1; reflexivity).
    destruct (enterOrExitCar_exit w1 Hin Hne1) as (H1 & H2 & H3 & H4 & H5 & H6).
    fold w2 in H1, H2, H3, H4, H5, H6. rewrite Hch, Hcm in *.
    subst car. rewrite H4.
    repeat split; try assumption.
    rewrite H6. reflexivity.
Qed.

(** The length of the exit offset turned about the vertical axis. *)
Lemma exit_offset_length (s c dx dz : R) :
  s * s + c * c = 1 ->
  dx = (c * c - s * s) * 1.5 + 2 * s * c * 0 ->
  dz = (c * c - s * s) * 0 - 2 * s * c * 1.5 ->
  sqrt (dx * dx + 0 * 0 + dz * dz) = 1.5.
Proof.
  intros Hunit -> ->.
  replace (((c * c - s * s) * 1.5 + 2 * s * c * 0)
           * ((c * c - s * s) * 1.5 + 2 * s * c * 0) + 0 * 0
           + ((c * c - s * s) * 0 - 2 * s * c * 1.5)
             * ((c * c - s * s) * 0 - 2 * s * c * 1.5))
    with (1.5 * 1.5 * ((s * s + c * c) * (s * s + c * c))) by ring.
  rewrite Hunit. replace (1.5 * 1.5 * (1 * 1)) with (1.5 * 1.5) by ring.
  apply sqrt_square. lra.
Qed.

(** C10: right after leaving a car that is turned about the vertical axis
    only and stands at ground height, the character is exactly 1.5 from
    the car, which is less than [enterCarDistance], so the next toggle
    enters the car again. *)
Theorem exit_lands_within_enter_distance (w : World) :
  isInCar w = true ->
  character w <> carModel w ->
  Euler.x (Object3D.rotation (objs w (carModel w))) = 0 ->
  Euler.z (Object3D.rotation (objs w (carModel w))) = 0 ->
  Vector3.y (Object3D.position (objs w (carModel w))) = characterFeetY ->
  let w1 := enterOrExitCar w in
  Vector3.distanceTo (Object3D.position (objs w1 (character w)))
                     (Object3D.position (objs w1 (carModel w))) = 1.5
  /\ 1.5 < enterCarDistance
  /\ isInCar (enterOrExitCar w1) = true.
Proof.
  intros Hcar Hne Hrx Hrz Hy w1.
  destruct (enterOrExitCar_exit w Hcar Hne) as (Hfoot & _ & _ & Hsame & _ & Hpos).
  fold w1 in Hfoot, Hsame, Hpos.
  assert (Hdist : Vector3.distanceTo (Object3D.position (objs w1 (character w)))
                    (Object3D.position (objs w1 (carModel w))) = 1.5).
  { rewrite Hsame, Hpos, (quaternion_yaw_only _ Hrx Hrz), applyQuaternion_yaw.
    unfold Vector3.distanceTo, Vector3.setY, Vector3.add.
    cbn [Vector3.x Vector3.y Vector3.z]. rewrite Hy.
    set (s := sin (Euler.y (Object3D.rotation (objs w (carModel w))) / 2)).
    set (c := cos (Euler.y (Object3D.rotation (objs w (carModel w))) / 2)).
    replace (characterFeetY - characterFeetY) with 0 by ring.
    apply (exit_offset_length s c).
    - pose proof (sin2_cos2 (Euler.y (Object3D.rotation (objs w (carModel w))) / 2)) as H.
      unfold Rsqr in H. exact H.
    - ring.
    - ring. }
  assert (Hlt : 1.5 < enterCarDistance) by (unfold enterCarDistance; lra).
  split; [exact Hdist|]. split; [exact Hlt|].
  assert (Hch : character w1 = character w) by (unfold w1, enterOrExitCar; rewrite Hcar; reflexivity).
  assert (Hcm : carModel w1 = carModel w) by (unfold w1, enterOrExitCar; rewrite Hcar; reflexivity).
  rewrite enterOrExitCar_enter; [reflexivity|exact Hfoot|].
  rewrite Hch, Hcm, Hdist. exact Hlt.
Qed.

End Toggle.

Section ToggleExamples.

Lemma atStart_distance :
  Vector3.distanceTo
    (Object3D.position (objs Demo.atStart (character Demo.atStart)))
    (Object3D.position (objs Demo.atStart (carModel Demo.atStart))) = 2.
Proof.
  unfold Vector3.distanceTo; simpl.
  replace ((2 - 0) * (2 - 0) + (0 - 0) * (0 - 0) + (2 - 2) * (2 - 2)) with (2 * 2)
    by ring.
  apply sqrt_square. lra.
Qed.

(** C9 at work: the character stands 2 away from the car. *)
Example toggle_twice_round_trip_witness :
  let w := Demo.atStart in
  let w2 := enterOrExitCar (enterOrExitCar w) in
  (isInCar w = false
   /\ Vector3.distanceTo (Object3D.position (objs w (character w)))
                         (Object3D.position (objs w (carModel w))) < enterCarDistance
   /\ character w <> carModel w)
  /\ isInCar (enterOrExitCar w) = true
  /\ carSpeed (enterOrExitCar w) = 0
  /\ isInCar w2 = false
  /\ carSpeed w2 = 0
  /\ Object3D.visible (objs w2 (character w)) = true
  /\ Vector3.y (Object3D.position (objs w2 (character w))) = characterFeetY.
Proof.
  intros w w2.
  assert (Hfoot : isInCar w = false) by reflexivity.
  assert (Hnear : Vector3.distanceTo (Object3D.position (objs w (character w)))
                    (Object3D.position (objs w (carModel w))) < enterCarDistance).
  { unfold w. rewrite atStart_distance. unfold enterCarDistance. lra. }
  assert (Hne : character w <> carModel w) by discriminate.
  split; [split; [exact Hfoot|split; [exact Hnear|exact Hne]]|].
  destruct (toggle_twice_round_trip w Hfoot Hnear Hne)
    as ((Hin & Hstop & _) & Hout & Hstop' & Hvisible & _ & _ & Hground).
  repeat (split; [assumption|]). assumption.
Defined.

(** C10 at work: leaving a car turned by half a radian. *)
Example exit_lands_within_enter_distance_witness :
  let w := Demo.seated in
  let w1 := enterOrExitCar w in
  (isInCar w = true
   /\ character w <> carModel w
   /\ Euler.x (Object3D.rotation (objs w (carModel w))) = 0
   /\ Euler.z (Object3D.rotation (objs w (carModel w))) = 0
   /\ Vector3.y (Object3D.position (objs w (carModel w))) = characterFeetY)
  /\ Vector3.distanceTo (Object3D.position (objs w1 (character w)))
                        (Object3D.position (objs w1 (carModel w))) = 1.5
  /\ isInCar (enterOrExitCar w1) = true.
Proof.
  intros w w1.
  assert (Hcar : isInCar w = true) by reflexivity.
  assert (Hne : character w <> carModel w) by discriminate.
  assert (Hrx : Euler.x (Object3D.rotation (objs w (carModel w))) = 0) by reflexivity.
  assert (Hrz : Euler.z (Object3D.rotation (objs w (carModel w))) = 0) by reflexivity.
  assert (Hy : Vector3.y (Object3D.position (objs w (carModel w))) = characterFeetY)
    by reflexivity.
  split; [repeat (split; [assumption|]); assumption|].
  destruct (exit_lands_within_enter_distance w Hcar Hne Hrx Hrz Hy)
    as (Hdist & _ & Hback).
  split; assumption.
Defined.

End ToggleExamples.
(** ** The world wrap *)

Section Wrap.

Lemma foldl_alter_NoDup (f : Object3D.t -> Object3D.t) (l : list ObjId) :
  forall (st : Store) (o : ObjId),
    NoDup l ->
    foldl (fun st c => alter f c st) st l o
    = if decide (o ∈ l) then f (st o) else st o.
Proof.
  induction l as [|a l IH]; intros st o Hnd; cbn [foldl].
  - destruct (decide (o ∈ [])) as [Hin|_]; [inversion Hin|reflexivity].
  - apply NoDup_cons in Hnd as [Hnotin Hnd].
    rewrite (IH _ _ Hnd).
    destruct (decide (o = a)) as [->|Hne].
    + rewrite alter_same.
      destruct (decide (a ∈ l)) as [Hin|_]; [contradiction|].
      destruct (decide (a ∈ a :: l)) as [_|Hout]; [reflexivity|].
      exfalso. apply Hout. left.
    + rewrite alter_other by congruence.
      destruct (decide (o ∈ l)) as [Hin|Hout];
        destruct (decide (o ∈ a :: l)) as [Hin'|Hout']; try reflexivity.
      * exfalso. apply Hout'. right. assumption.
      * exfalso. apply elem_of_cons in Hin' as [?|?]; contradiction.
Qed.

Lemma existsb_pointwise {A : Type} (f g : A -> bool) (l : list A) :
  (forall a, f a = g a) -> existsb f l = existsb g l.
Proof.
  intros Hfg. induction l as [|a l IH]; simpl; [reflexivity|].
  rewrite Hfg, IH. reflexivity.
Qed.

(** Whether the scene loop moves an object depends on the store only
    through the classes and the children lists. *)
Lemma movedWithScene_shape (w : World) (st st' : Store) (obj : ObjId) :
  (forall o, Object3D.class (st' o) = Object3D.class (st o)) ->
  (forall o, Object3D.children (st' o) = Object3D.children (st o)) ->
  movedWithScene w st' obj = movedWithScene w st obj.
Proof.
  intros Hclass Hchildren. unfold movedWithScene, isStreetLanternGroup.
  rewrite Hclass, Hchildren.
  rewrite (existsb_pointwise _
             (fun child => bool_decide (Object3D.class (st child) = PointLightClass)
                           && bool_decide (child ∈ streetLights w))).
  - reflexivity.
  - intros child. rewrite Hclass. reflexivity.
Qed.

Lemma foldl_wrapSceneChild (w : World) (dx dz : R) (st0 : Store) (l : list ObjId) :
  forall (st : Store) (o : ObjId),
    (forall a, Object3D.class (st a) = Object3D.class (st0 a)) ->
    (forall a, Object3D.children (st a) = Object3D.children (st0 a)) ->
    NoDup l ->
    foldl (wrapSceneChild w dx dz) st l o
    = if bool_decide (o ∈ l) && movedWithScene w st0 o
      then Object3D.shiftXZ dx dz (st o) else st o.
Proof.
  induction l as [|a l IH]; intros st o Hclass Hchildren Hnd; cbn [foldl].
  - rewrite bool_decide_eq_false_2; [reflexivity|]. intros Hin. inversion Hin.
  - apply NoDup_cons in Hnd as [Hnotin Hnd].
    assert (Hstep_class : forall b,
               Object3D.class (wrapSceneChild w dx dz st a b) = Object3D.class (st0 b)).
    { intros b. unfold wrapSceneChild. destruct (movedWithScene w st a); [|apply Hclass].
      rewrite (alter_keeps Object3D.class) by reflexivity. apply Hclass. }
    assert (Hstep_children : forall b,
               Object3D.children (wrapSceneChild w dx dz st a b)
               = Object3D.children (st0 b)).
    { intros b. unfold wrapSceneChild. destruct (movedWithScene w st a); [|apply Hchildren].
      rewrite (alter_keeps Object3D.children) by reflexivity. apply Hchildren. }
    rewrite (IH _ _ Hstep_class Hstep_children Hnd).
    unfold wrapSceneChild at 1 2.
    rewrite (movedWithScene_shape w st0 st a Hclass Hchildren).
    destruct (decide (o = a)) as [->|Hne].
    + rewrite (bool_decide_eq_false_2 (a ∈ l)) by assumption.
      rewrite (bool_decide_eq_true_2 (a ∈ a :: l)) by left.
      cbn [andb]. destruct (movedWithScene w st0 a); [|reflexivity].
      apply alter_same.
    + assert (Hsame : (if movedWithScene w st0 a
                       then alter (Object3D.shiftXZ dx dz) a st else st) o = st o).
      { destruct (movedWithScene w st0 a); [|reflexivity].
        apply alter_other. congruence. }
      rewrite Hsame.
      assert (Hmem : bool_decide (o ∈ a :: l) = bool_decide (o ∈ l)).
      { apply bool_decide_ext. rewrite elem_of_cons. tauto. }
      rewrite Hmem. reflexivity.
Qed.

(** Every object after a wrap that fires, loop by loop. *)
Lemma wrapWorld_objs (w : World) (o : ObjId) :
  wrapOffsetX w <> 0 \/ wrapOffsetZ w <> 0 ->
  NoDup (coins w) -> NoDup (sceneChildren w) ->
  let shift := Object3D.shiftXZ (wrapOffsetX w) (wrapOffsetZ w) in
  let o1 := alter shift (character w) (objs w) in
  let o2 := alter shift (carModel w) o1 in
  let o3 := if decide (o ∈ coins w) then shift (o2 o) else o2 o in
  objs (wrapWorld w) o
  = if bool_decide (o ∈ sceneChildren w) && movedWithScene w (objs w) o
    then shift o3 else o3.
Proof.
  intros Hfires Hcoins Hscene shift o1 o2 o3. unfold wrapWorld. cbv zeta.
  assert (Hcond : bool_decide (wrapOffsetX w <> 0) || bool_decide (wrapOffsetZ w <> 0)
                  = true).
  { destruct Hfires as [H|H].
    - rewrite (bool_decide_eq_true_2 _ H). reflexivity.
    - rewrite (bool_decide_eq_true_2 (wrapOffsetZ w <> 0) H). apply orb_true_r. }
  rewrite Hcond. cbn [objs withColliders withObjs].
  rewrite (foldl_wrapSceneChild w _ _ (objs w)); try assumption.
  - rewrite (foldl_alter_NoDup _ _ _ _ Hcoins). reflexivity.
  - intros a. rewrite (foldl_keeps (fun st : Store => Object3D.class (st a))).
    + rewrite !(alter_keeps Object3D.class) by reflexivity. reflexivity.
    + intros st c. apply (alter_keeps Object3D.class). reflexivity.
  - intros a. rewrite (foldl_keeps (fun st : Store => Object3D.children (st a))).
    + rewrite !(alter_keeps Object3D.children) by reflexivity. reflexivity.
    + intros st c. apply (alter_keeps Object3D.children). reflexivity.
Qed.

Lemma wrapWorld_colliders (w : World) :
  wrapOffsetX w <> 0 \/ wrapOffsetZ w <> 0 ->
  buildingColliders (wrapWorld w)
  = translateColliders (wrapOffsetX w) (wrapOffsetZ w) (buildingColliders w).
Proof.
  intros Hfires. unfold wrapWorld. cbv zeta.
  destruct Hfires as [H|H].
  - rewrite (bool_decide_eq_true_2 _ H). reflexivity.
  - rewrite (bool_decide_eq_true_2 (wrapOffsetZ w <> 0) H), orb_true_r. reflexivity.
Qed.

Lemma wrapWorld_idle (w : World) :
  wrapOffsetX w = 0 -> wrapOffsetZ w = 0 -> wrapWorld w = w.
Proof.
  intros Hx Hz. unfold wrapWorld. cbv zeta.
  rewrite (bool_decide_eq_false_2 (wrapOffsetX w <> 0)) by tauto.
  rewrite (bool_decide_eq_false_2 (wrapOffsetZ w <> 0)) by tauto.
  reflexivity.
Qed.

End Wrap.

Section WrapClaims.

Lemma wrapWorld_translated (w : World) (obj : ObjId) :
  wrapOffsetX w <> 0 \/ wrapOffsetZ w <> 0 ->
  distinctObjects w ->
  translatedByWrap w obj ->
  objs (wrapWorld w) obj
  = Object3D.shiftXZ (wrapOffsetX w) (wrapOffsetZ w) (objs w obj).
Proof.
  intros Hfires (Hne & Hch & Hcar & _ & Hcoins & Hscene) Hobj.
  rewrite (wrapWorld_objs w obj Hfires Hcoins Hscene). cbv zeta.
  unfold movedWithScene.
  destruct (decide (obj = character w)) as [->|Hnch].
  { rewrite (bool_decide_eq_true_2 (character w = character w)) by reflexivity.
    cbn [negb andb]. rewrite andb_false_r.
    rewrite decide_False by assumption.
    rewrite alter_other by congruence. apply alter_same. }
  destruct (decide (obj = carModel w)) as [->|Hncar].
  { rewrite (bool_decide_eq_true_2 (carModel w = carModel w)) by reflexivity.
    cbn [negb andb]. rewrite andb_false_r, andb_false_r.
    rewrite decide_False by assumption.
    rewrite alter_same, alter_other by congruence. reflexivity. }
  rewrite !alter_other by congruence.
  destruct (decide (obj ∈ coins w)) as [Hcoin|Hncoin].
  { rewrite (bool_decide_eq_true_2 (obj ∈ coins w)) by assumption.
    cbn [negb andb]. rewrite !andb_false_r. reflexivity. }
  destruct Hobj as [?|[?|[?|(Hin & Hsun & Htarget & Hlantern & Hcam)]]];
    try contradiction.
  rewrite (bool_decide_eq_true_2 (obj ∈ sceneChildren w)) by assumption.
  rewrite (bool_decide_eq_false_2 (obj = character w)) by assumption.
  rewrite (bool_decide_eq_false_2 (obj = carModel w)) by assumption.
  rewrite (bool_decide_eq_false_2 (obj = sunMoonLight w)) by assumption.
  rewrite (bool_decide_eq_false_2 (obj = sunMoonLightTarget w)) by assumption.
  rewrite (bool_decide_eq_false_2 (obj ∈ coins w)) by assumption.
  rewrite Hlantern.
  rewrite (bool_decide_eq_true_2 (obj <> camera w)) by assumption.
  reflexivity.
Qed.

Lemma wrapWorld_kept (w : World) (obj : ObjId) :
  distinctObjects w ->
  keptByWrap w obj ->
  objs (wrapWorld w) obj = objs w obj.
Proof.
  intros (Hne & Hch & Hcar & Hkept & Hcoins & Hscene) Hobj.
  destruct (Hkept obj Hobj) as (Hnch & Hncar & Hncoin).
  destruct (decide (wrapOffsetX w = 0)) as [Hx|Hx];
    [destruct (decide (wrapOffsetZ w = 0)) as [Hz|Hz]|].
  - rewrite wrapWorld_idle by assumption. reflexivity.
  - rewrite (wrapWorld_objs w obj (or_intror Hz) Hcoins Hscene). cbv zeta.
    rewrite !alter_other by congruence. rewrite decide_False by assumption.
    unfold movedWithScene.
    destruct Hobj as [-> | [-> | ->]].
    + rewrite (bool_decide_eq_false_2 (camera w <> camera w)) by tauto.
      rewrite !andb_false_r. reflexivity.
    + rewrite (bool_decide_eq_true_2 (sunMoonLight w = sunMoonLight w)) by reflexivity.
      cbn [negb andb orb]. rewrite !andb_false_r. reflexivity.
    + rewrite (bool_decide_eq_true_2 (sunMoonLightTarget w = sunMoonLightTarget w))
        by reflexivity.
      rewrite orb_true_r. cbn [negb andb]. rewrite !andb_false_r. reflexivity.
  - rewrite (wrapWorld_objs w obj (or_introl Hx) Hcoins Hscene). cbv zeta.
    rewrite !alter_other by congruence. rewrite decide_False by assumption.
    unfold movedWithScene.
    destruct Hobj as [-> | [-> | ->]].
    + rewrite (bool_decide_eq_false_2 (camera w <> camera w)) by tauto.
      rewrite !andb_false_r. reflexivity.
    + rewrite (bool_decide_eq_true_2 (sunMoonLight w = sunMoonLight w)) by reflexivity.
      cbn [negb andb orb]. rewrite !andb_false_r. reflexivity.
    + rewrite (bool_decide_eq_true_2 (sunMoonLightTarget w = sunMoonLightTarget w))
        by reflexivity.
      rewrite orb_true_r. cbn [negb andb]. rewrite !andb_false_r. reflexivity.
Qed.

Lemma shift_keeps_difference (dx dz : R) (a b : Vector3.t) :
  Vector3.sub (Vector3.shiftXZ dx dz a) (Vector3.shiftXZ dx dz b) = Vector3.sub a b.
Proof. unfold Vector3.sub, Vector3.shiftXZ; simpl. f_equal; ring. Qed.

(** C2, as the code has it by design: when the wrap fires, the same
    (dx, dz) is added to the character, the car, every coin and every
    scene child that is not the sun/moon light, its target, a lantern
    group or the camera, and to both corners of every collider; the
    camera and the sun/moon light with its target stay where they are;
    and the offset between any two translated objects is unchanged.
    Nothing is stated about lantern groups. *)
Theorem wrapWorld_translates_rigidly (w : World) :
  wrapOffsetX w <> 0 \/ wrapOffsetZ w <> 0 ->
  distinctObjects w ->
  let dx := wrapOffsetX w in
  let dz := wrapOffsetZ w in
  let w' := wrapWorld w in
  (forall obj, translatedByWrap w obj ->
     Object3D.position (objs w' obj)
     = Vector3.shiftXZ dx dz (Object3D.position (objs w obj)))
  /\ buildingColliders w'
     = map (fun box => Box3.mk (Vector3.shiftXZ dx dz (Box3.min box))
                               (Vector3.shiftXZ dx dz (Box3.max box)))
           (buildingColliders w)
  /\ (forall obj, keptByWrap w obj -> objs w' obj = objs w obj)
  /\ (forall a b, translatedByWrap w a -> translatedByWrap w b ->
        Vector3.sub (Object3D.position (objs w' a)) (Object3D.position (objs w' b))
        = Vector3.sub (Object3D.position (objs w a)) (Object3D.position (objs w b))).
Proof.
  intros Hfires Hdistinct dx dz w'. subst dx dz w'.
  split; [|split; [|split]].
  - intros obj Hobj. rewrite wrapWorld_translated by assumption. reflexivity.
  - rewrite wrapWorld_colliders by assumption. reflexivity.
  - intros obj Hobj. apply wrapWorld_kept; assumption.
  - intros a b Ha Hb. rewrite !wrapWorld_translated by assumption.
    apply shift_keeps_difference.
Qed.

(** Where the wrap leaves its target: one correction per axis. *)
Lemma wrapWorld_target (w : World) :
  distinctObjects w ->
  cameraTarget w = character w \/ cameraTarget w = carModel w ->
  Object3D.position (objs (wrapWorld w) (cameraTarget w))
  = Vector3.shiftXZ (wrapOffsetX w) (wrapOffsetZ w)
      (Object3D.position (objs w (cameraTarget w))).
Proof.
  intros Hdistinct Htarget.
  destruct (decide (wrapOffsetX w = 0)) as [Hx|Hx];
    [destruct (decide (wrapOffsetZ w = 0)) as [Hz|Hz]|].
  - rewrite wrapWorld_idle, Hx, Hz by assumption.
    unfold Vector3.shiftXZ. destruct (Object3D.position _) as [x y z]; simpl.
    f_equal; ring.
  - rewrite wrapWorld_translated; [reflexivity|right; assumption|assumption|].
    destruct Htarget as [-> | ->]; [left|right; left]; reflexivity.
  - rewrite wrapWorld_translated; [reflexivity|left; assumption|assumption|].
    destruct Htarget as [-> | ->]; [left|right; left]; reflexivity.
Qed.

Lemma wrapOffset_recentres (coordinate : R) :
  Rabs coordinate <= chunkSize / 2 + chunkSize ->
  - (chunkSize / 2) <= coordinate + wrapOffset coordinate <= chunkSize / 2.
Proof.
  unfold wrapOffset, chunkSize, citySize, blockSize, streetWidth. cbv zeta.
  intros Hnear. rcases; rminmax.
Qed.

(** C4, as the code has it: the wrap moves its target by one chunk length
    against the overflow on each axis that overflows, so afterwards the
    target's coordinate is within [-chunkSize/2, chunkSize/2] on every
    axis on which it was at most one chunk length past the bound. *)
Theorem wrapWorld_recentres_within_one_chunk (w : World) :
  distinctObjects w ->
  cameraTarget w = character w \/ cameraTarget w = carModel w ->
  let p := Object3D.position (objs w (cameraTarget w)) in
  let p' := Object3D.position (objs (wrapWorld w) (cameraTarget w)) in
  (Vector3.x p' = Vector3.x p + wrapOffsetX w
   /\ Vector3.z p' = Vector3.z p + wrapOffsetZ w)
  /\ (Rabs (Vector3.x p) <= chunkSize / 2 + chunkSize ->
      - (chunkSize / 2) <= Vector3.x p' <= chunkSize / 2)
  /\ (Rabs (Vector3.z p) <= chunkSize / 2 + chunkSize ->
      - (chunkSize / 2) <= Vector3.z p' <= chunkSize / 2).
Proof.
  intros Hdistinct Htarget p p'. subst p p'.
  rewrite (wrapWorld_target w Hdistinct Htarget).
  unfold Vector3.shiftXZ. cbn [Vector3.x Vector3.z].
  split; [split; reflexivity|].
  split; intros Hnear; apply wrapOffset_recentres; assumption.
Qed.

End WrapClaims.

Section WrapExamples.

Lemma demo_distinct (characterPosition carPosition : Vector3.t) (carYaw : R)
    (inCar : bool) (speed : R) (keys : Keys) :
  distinctObjects (Demo.world characterPosition carPosition carYaw inCar speed keys).
Proof.
  unfold distinctObjects, keptByWrap; cbn [character carModel coins sceneChildren
    camera sunMoonLight sunMoonLightTarget Demo.world].
  unfold Demo.characterId, Demo.carId, Demo.coinId, Demo.cameraId, Demo.sunId,
    Demo.sunTargetId, Demo.ambientId, Demo.groundId, Demo.lanternId, Demo.buildingId.
  repeat split.
  - discriminate.
  - apply (bool_decide_unpack _). vm_compute. exact I.
  - apply (bool_decide_unpack _). vm_compute. exact I.
  - destruct H as [-> | [-> | ->]]; discriminate.
  - destruct H as [-> | [-> | ->]]; discriminate.
  - destruct H as [-> | [-> | ->]]; apply (bool_decide_unpack _); vm_compute; exact I.
  - apply (bool_decide_unpack _). vm_compute. exact I.
  - apply (bool_decide_unpack _). vm_compute. exact I.
Qed.

Lemma demo_target (characterPosition carPosition : Vector3.t) (carYaw : R)
    (inCar : bool) (speed : R) (keys : Keys) :
  let w := Demo.world characterPosition carPosition carYaw inCar speed keys in
  cameraTarget w = character w \/ cameraTarget w = carModel w.
Proof. destruct inCar; [right|left]; reflexivity. Qed.

Lemma pastTheEdge_offsets :
  wrapOffsetX Demo.pastTheEdge = -260 /\ wrapOffsetZ Demo.pastTheEdge = 260.
Proof.
  unfold wrapOffsetX, wrapOffsetZ, wrapOffset, chunkSize, citySize, blockSize,
    streetWidth; simpl.
  split; rcases.
Qed.

Lemma farPastTheEdge_offsets :
  wrapOffsetX Demo.farPastTheEdge = -260 /\ wrapOffsetZ Demo.farPastTheEdge = 0.
Proof.
  unfold wrapOffsetX, wrapOffsetZ, wrapOffset, chunkSize, citySize, blockSize,
    streetWidth; simpl.
  split; rcases.
Qed.

Lemma pastTheEdge_fires :
  wrapOffsetX Demo.pastTheEdge <> 0 \/ wrapOffsetZ Demo.pastTheEdge <> 0.
Proof. left. rewrite (proj1 pastTheEdge_offsets). lra. Qed.

Lemma building_translated : translatedByWrap Demo.pastTheEdge Demo.buildingId.
Proof.
  right; right; right. split.
  - apply (bool_decide_unpack _). vm_compute. exact I.
  - repeat split; try discriminate.
Qed.

(** C2 at work: the character has walked past the edge on both axes; the
    building follows the wrap and the camera does not. *)
Example wrapWorld_translates_rigidly_witness :
  let w := Demo.pastTheEdge in
  ((wrapOffsetX w <> 0 \/ wrapOffsetZ w <> 0) /\ distinctObjects w)
  /\ Object3D.position (objs (wrapWorld w) Demo.buildingId)
     = Vector3.shiftXZ (-260) 260 (Object3D.position (objs w Demo.buildingId))
  /\ objs (wrapWorld w) Demo.cameraId = objs w Demo.cameraId.
Proof.
  intros w.
  assert (Hfires : wrapOffsetX w <> 0 \/ wrapOffsetZ w <> 0) by apply pastTheEdge_fires.
  assert (Hdistinct : distinctObjects w) by apply demo_distinct.
  split; [split; assumption|].
  destruct (wrapWorld_translates_rigidly w Hfires Hdistinct) as (Hmoved & _ & Hkept & _).
  split.
  - rewrite (Hmoved Demo.buildingId building_translated).
    unfold w. destruct pastTheEdge_offsets as [-> ->]. reflexivity.
  - apply Hkept. left. reflexivity.
Defined.

(** C2 fails as stated: the sun/moon light is a light among the scene's
    children and is not the camera, yet a wrap that fires leaves it where
    it is, so its offset from a building changes. *)
Example wrapWorld_leaves_sun_light :
  let w := Demo.pastTheEdge in
  let w' := wrapWorld w in
  (wrapOffsetX w <> 0 \/ wrapOffsetZ w <> 0)
  /\ Demo.sunId ∈ sceneChildren w
  /\ Demo.sunId <> camera w
  /\ Object3D.class (objs w Demo.sunId) = DirectionalLightClass
  /\ Object3D.position (objs w' Demo.sunId)
     <> Vector3.shiftXZ (wrapOffsetX w) (wrapOffsetZ w)
          (Object3D.position (objs w Demo.sunId))
  /\ Vector3.sub (Object3D.position (objs w' Demo.sunId))
                 (Object3D.position (objs w' Demo.buildingId))
     <> Vector3.sub (Object3D.position (objs w Demo.sunId))
                    (Object3D.position (objs w Demo.buildingId)).
Proof.
  intros w w'. subst w'.
  assert (Hsun : objs (wrapWorld w) Demo.sunId = objs w Demo.sunId).
  { apply wrapWorld_kept; [apply demo_distinct|]. right; left. reflexivity. }
  assert (Hbuilding : objs (wrapWorld w) Demo.buildingId
                      = Object3D.shiftXZ (-260) 260 (objs w Demo.buildingId)).
  { unfold w. rewrite wrapWorld_translated.
    - destruct pastTheEdge_offsets as [-> ->]. reflexivity.
    - apply pastTheEdge_fires.
    - apply demo_distinct.
    - apply building_translated. }
  split; [apply pastTheEdge_fires|].
  split; [apply (bool_decide_unpack _); vm_compute; exact I|].
  split; [discriminate|].
  split; [reflexivity|].
  rewrite Hsun, Hbuilding. unfold w. destruct pastTheEdge_offsets as [-> ->].
  split; intros Heq; inversion Heq; lra.
Qed.

(** The lantern of the small world stays in place as well. *)
Example wrapWorld_leaves_lantern :
  let w := Demo.pastTheEdge in
  isStreetLanternGroup w (objs w) Demo.lanternId = true
  /\ objs (wrapWorld w) Demo.lanternId = objs w Demo.lanternId.
Proof.
  intros w.
  assert (Hlantern : isStreetLanternGroup w (objs w) Demo.lanternId = true)
    by reflexivity.
  split; [exact Hlantern|].
  destruct (demo_distinct (Vector3.mk 135 0 (-140)) (Vector3.mk 100 0 (-100)) 0 false 0
              Demo.forwardKey) as (_ & _ & _ & _ & Hcoins & Hscene).
  unfold w. rewrite (wrapWorld_objs _ _ pastTheEdge_fires Hcoins Hscene). cbv zeta.
  unfold movedWithScene. fold w. rewrite Hlantern.
  cbn [negb]. rewrite andb_false_r. cbn [andb].
  rewrite !alter_other by discriminate.
  rewrite decide_False; [reflexivity|].
  apply (bool_decide_unpack _). vm_compute. exact I.
Qed.

(** C4 at work: from (135, -140) the wrap brings the character to
    (-125, 120). *)
Example wrapWorld_recentres_within_one_chunk_witness :
  let w := Demo.pastTheEdge in
  let p := Object3D.position (objs w (cameraTarget w)) in
  let p' := Object3D.position (objs (wrapWorld w) (cameraTarget w)) in
  (distinctObjects w
   /\ (cameraTarget w = character w \/ cameraTarget w = carModel w)
   /\ Rabs (Vector3.x p) <= chunkSize / 2 + chunkSize
   /\ Rabs (Vector3.z p) <= chunkSize / 2 + chunkSize)
  /\ - (chunkSize / 2) <= Vector3.x p' <= chunkSize / 2
  /\ - (chunkSize / 2) <= Vector3.z p' <= chunkSize / 2.
Proof.
  intros w p p'.
  assert (Hdistinct : distinctObjects w) by apply demo_distinct.
  assert (Htarget : cameraTarget w = character w \/ cameraTarget w = carModel w)
    by (left; reflexivity).
  assert (Hx : Rabs (Vector3.x p) <= chunkSize / 2 + chunkSize).
  { unfold chunkSize, citySize, blockSize, streetWidth; simpl. rminmax. }
  assert (Hz : Rabs (Vector3.z p) <= chunkSize / 2 + chunkSize).
  { unfold chunkSize, citySize, blockSize, streetWidth; simpl. rminmax. }
  split; [split; [exact Hdistinct|split; [exact Htarget|split; [exact Hx|exact Hz]]]|].
  destruct (wrapWorld_recentres_within_one_chunk w Hdistinct Htarget)
    as (_ & Hnearx & Hnearz).
  split; [apply Hnearx; exact Hx|apply Hnearz; exact Hz].
Defined.

(** C4 fails as stated: a target more than one chunk length past the bound
    is still out of bounds after the wrap. *)
Example wrapWorld_far_overshoot_stays_out :
  let w := Demo.farPastTheEdge in
  let p := Object3D.position (objs w (cameraTarget w)) in
  let p' := Object3D.position (objs (wrapWorld w) (cameraTarget w)) in
  Vector3.x p = 500
  /\ wrapOffsetX w <> 0
  /\ Vector3.x p' = 240
  /\ ~ (- (chunkSize / 2) <= Vector3.x p' <= chunkSize / 2).
Proof.
  intros w p p'. subst p p'.
  rewrite (wrapWorld_target w (demo_distinct _ _ _ _ _ _) (demo_target _ _ _ _ _ _)).
  unfold w. destruct farPastTheEdge_offsets as [-> ->].
  unfold chunkSize, citySize, blockSize, streetWidth; simpl.
  repeat split; lra.
Qed.

End WrapExamples.
(** ** The day/night cycle *)

Section DayNight.

Lemma trunc_nonneg (a : R) : 0 <= a -> IZR (JS.trunc a) <= a < IZR (JS.trunc a) + 1.
Proof.
  intros Ha. unfold JS.trunc. rewrite decide_True by assumption.
  destruct (base_Int_part a) as [Hle Hgt]. lra.
Qed.

(** The remainder of a nonnegative number by a positive one. *)
Lemma rem_range (a b : R) : 0 <= a -> 0 < b -> 0 <= JS.rem a b < b.
Proof.
  intros Ha Hb. unfold JS.rem.
  assert (Hq : 0 <= a / b).
  { apply Rmult_le_pos; [assumption|]. left. apply Rinv_0_lt_compat. assumption. }
  destruct (trunc_nonneg (a / b) Hq) as [Hlo Hhi].
  set (n := IZR (JS.trunc (a / b))) in *.
  assert (Ha' : a = b * (a / b)) by (field; lra).
  split.
  - assert (b * n <= b * (a / b)) by (apply Rmult_le_compat_l; lra). lra.
  - assert (b * (a / b) < b * (n + 1)) by (apply Rmult_lt_compat_l; lra). lra.
Qed.

Lemma rem_small (a b : R) : 0 <= a < b -> JS.rem a b = a.
Proof.
  intros [Ha Hab]. unfold JS.rem.
  assert (Hb : 0 < b) by lra.
  assert (Hq : 0 <= a / b < 1).
  { split.
    - apply Rmult_le_pos; [assumption|]. left. apply Rinv_0_lt_compat. assumption.
    - apply (Rmult_lt_reg_r b); [assumption|].
      replace (a / b * b) with a by (field; lra). lra. }
  assert (Hn : JS.trunc (a / b) = 0%Z).
  { unfold JS.trunc. rewrite decide_True by lra.
    symmetry. apply Int_part_spec. simpl. lra. }
  rewrite Hn. simpl. ring.
Qed.

Lemma advanceTimeOfDay_range (deltaTime : R) (w : World) :
  0 <= currentTimeOfDaySeconds w -> 0 <= deltaTime ->
  0 <= advanceTimeOfDay deltaTime w < cycleDurationSeconds.
Proof.
  intros Ht Hdt. unfold advanceTimeOfDay.
  apply rem_range; [lra|unfold cycleDurationSeconds; lra].
Qed.

(** Only [updateDayNightCycle] writes the accumulator. *)
Lemma updateGameLogic_time (deltaTime : R) (w : World) :
  currentTimeOfDaySeconds (updateGameLogic deltaTime w) = advanceTimeOfDay deltaTime w.
Proof.
  unfold updateGameLogic, checkCoinCollection. cbv zeta.
  rewrite (foldl_keeps currentTimeOfDaySeconds).
  - change (currentTimeOfDaySeconds (updateCoins deltaTime ?x))
      with (currentTimeOfDaySeconds x).
    assert (Hwrap : forall x, currentTimeOfDaySeconds (wrapWorld x)
                              = currentTimeOfDaySeconds x).
    { intros x. unfold wrapWorld. case_match; reflexivity. }
    rewrite Hwrap.
    change (currentTimeOfDaySeconds (updateCameraOrbit ?x))
      with (currentTimeOfDaySeconds x).
    destruct (isInCar (updateDayNightCycle deltaTime w)); [reflexivity|].
    unfold updateCharacterMovement, jumpPhysics.
    repeat (case_match || case_decide); reflexivity.
  - intros a b. unfold collectCoin. case_match; reflexivity.
Qed.

Lemma runFrames_time (frames : list (Keys * R)) :
  Forall (fun frame => 0 <= snd frame) frames ->
  forall w,
    0 <= currentTimeOfDaySeconds w < cycleDurationSeconds ->
    0 <= currentTimeOfDaySeconds (runFrames frames w) < cycleDurationSeconds.
Proof.
  unfold runFrames.
  induction 1 as [|[keys deltaTime] frames Hdt _ IH]; intros w Hw; cbn [foldl];
    [assumption|].
  apply IH. rewrite updateGameLogic_time. cbn [fst snd] in *.
  apply advanceTimeOfDay_range; [|assumption].
  change (currentTimeOfDaySeconds (withKeys keys w)) with (currentTimeOfDaySeconds w).
  lra.
Qed.

Lemma lerpScalar_start (a b : R) : lerpScalar a b 0 = a.
Proof. unfold lerpScalar. ring. Qed.

Lemma lerpScalar_same (a t : R) : lerpScalar a a t = a.
Proof. unfold lerpScalar. ring. Qed.

Lemma lerpColor_start (c1 c2 : Color.t) : lerpColor c1 c2 0 = c1.
Proof. destruct c1. unfold lerpColor, Color.lerp; simpl. f_equal; ring. Qed.

Lemma lerpColor_same (c : Color.t) (t : R) : lerpColor c c t = c.
Proof. destruct c. unfold lerpColor, Color.lerp; simpl. f_equal; ring. Qed.

(** Interpolation from a frame at that frame's own time. *)
Lemma interpolate_at_start (phase : R) (k next : Keyframe) :
  boundingFrames phase = (k, next) -> phase = time k ->
  sameLight (interpolateFrames phase) k.
Proof.
  intros Hframes Hphase. unfold interpolateFrames, sameLight. rewrite Hframes.
  cbn [fst snd sunIntensity sunColor ambientIntensity ambientColor fogColor].
  replace ((phase - time k) / (time next - time k)) with 0
    by (rewrite Hphase; unfold Rdiv; ring).
  rewrite !lerpScalar_start, !lerpColor_start. repeat split; reflexivity.
Qed.

Lemma interpolate_at_keyframe (phase : R) (k : Keyframe) :
  k ∈ keyframes -> 0 <= phase < 1 -> phase = time k ->
  sameLight (interpolateFrames phase) k.
Proof.
  intros Hin Hrange Hphase. unfold keyframes in Hin.
  repeat (apply elem_of_cons in Hin as [->|Hin]);
    [..|inversion Hin];
    try (eapply interpolate_at_start; [|exact Hphase];
         unfold boundingFrames; subst phase; simpl; rcases; reflexivity).
  exfalso. subst phase. simpl in Hrange. lra.
Qed.

(** At phase 1 itself, which the accumulator never reaches, the scan finds
    no frame and the initial pair extrapolates. *)
Example interpolate_past_the_cycle : sunIntensity (interpolateFrames 1) = 1.6.
Proof.
  unfold interpolateFrames, boundingFrames; simpl.
  rcases. unfold lerpScalar; simpl. lra.
Qed.

Lemma interpolate_last_segment (phase : R) :
  0.75 <= phase < 1 -> sameLight (interpolateFrames phase) (interpolateFrames 0).
Proof.
  intros Hrange.
  assert (Hlate : boundingFrames phase = (keyframe5, keyframe6)).
  { unfold boundingFrames; simpl. rcases; reflexivity. }
  assert (Hzero : sameLight (interpolateFrames 0) keyframe0).
  { apply (interpolate_at_start 0 keyframe0 keyframe1); [|reflexivity].
    unfold boundingFrames; simpl. rcases; reflexivity. }
  destruct Hzero as (Hz1 & Hz2 & Hz3 & Hz4 & Hz5).
  unfold sameLight. rewrite Hz1, Hz2, Hz3, Hz4, Hz5.
  unfold interpolateFrames. rewrite Hlate.
  cbn [fst snd sunIntensity sunColor ambientIntensity ambientColor fogColor
       keyframe5 keyframe6 keyframe0].
  rewrite !lerpScalar_same, !lerpColor_same. repeat split; reflexivity.
Qed.

End DayNight.

Section DayNightClaims.

Lemma foldl_alter_outside (f : Object3D.t -> Object3D.t) (l : list ObjId) :
  forall (st : Store) (o : ObjId),
    o ∉ l -> foldl (fun st c => alter f c st) st l o = st o.
Proof.
  induction l as [|a l IH]; intros st o Hout; cbn [foldl]; [reflexivity|].
  apply not_elem_of_cons in Hout as [Hne Hout].
  rewrite (IH _ _ Hout). apply alter_other. congruence.
Qed.

(** What a frame writes to the lights and the scene colours. *)
Lemma updateDayNightCycle_lights (deltaTime : R) (w : World) :
  distinctLights w ->
  let w' := updateDayNightCycle deltaTime w in
  let light := interpolateFrames (currentTimeOfDaySeconds w' / cycleDurationSeconds) in
  currentTimeOfDaySeconds w' = advanceTimeOfDay deltaTime w
  /\ Object3D.intensity (objs w' (sunMoonLight w)) = sunIntensity light
  /\ Object3D.color (objs w' (sunMoonLight w)) = sunColor light
  /\ Object3D.intensity (objs w' (ambientLight w)) = ambientIntensity light
  /\ Object3D.color (objs w' (ambientLight w)) = ambientColor light
  /\ sceneFog w' = match sceneFog w with Some _ => Some (fogColor light) | None => None end
  /\ sceneBackground w' = match sceneBackground w with
                           | Some _ => Some (fogColor light)
                           | None => None
                           end.
Proof.
  intros (Hne & Hsun & Hambient) w' light. subst w' light.
  unfold updateDayNightCycle. cbv zeta.
  cbn [currentTimeOfDaySeconds objs sceneFog sceneBackground withDay withObjs].
  split; [reflexivity|].
  rewrite !foldl_alter_outside by assumption.
  rewrite alter_same, (alter_other _ _ (ambientLight w)) by congruence.
  rewrite alter_same.
  rewrite (alter_other _ _ (sunMoonLight w)) by assumption.
  rewrite alter_same.
  repeat split; reflexivity.
Qed.

(** C8: over any run of frames with nonnegative frame times the
    accumulator stays in [0, cycleDurationSeconds); when the phase of a
    frame is exactly the time of a keyframe, the sun, the ambient light,
    the fog and the background get that keyframe's literal values; and
    every phase of the last segment, up to the end of the cycle, gives
    the light of phase 0. *)
Theorem dayNight_phase_keyframes_continuity :
  (forall (frames : list (Keys * R)) (w : World),
      Forall (fun frame => 0 <= snd frame) frames ->
      0 <= currentTimeOfDaySeconds w < cycleDurationSeconds ->
      0 <= currentTimeOfDaySeconds (runFrames frames w) < cycleDurationSeconds)
  /\ (forall (deltaTime : R) (w : World) (k : Keyframe),
         0 <= currentTimeOfDaySeconds w -> 0 <= deltaTime ->
         distinctLights w ->
         k ∈ keyframes ->
         let w' := updateDayNightCycle deltaTime w in
         currentTimeOfDaySeconds w' / cycleDurationSeconds = time k ->
         Object3D.intensity (objs w' (sunMoonLight w)) = sunIntensity k
         /\ Object3D.color (objs w' (sunMoonLight w)) = sunColor k
         /\ Object3D.intensity (objs w' (ambientLight w)) = ambientIntensity k
         /\ Object3D.color (objs w' (ambientLight w)) = ambientColor k
         /\ sceneFog w' = match sceneFog w with Some _ => Some (fogColor k) | None => None end
         /\ sceneBackground w' = match sceneBackground w with
                                  | Some _ => Some (fogColor k)
                                  | None => None
                                  end)
  /\ (forall phase : R,
         0.75 <= phase < 1 ->
         sameLight (interpolateFrames phase) (interpolateFrames 0)).
Proof.
  split; [|split].
  - intros frames w Hframes Hw. apply runFrames_time; assumption.
  - intros deltaTime w k Ht Hdt Hlights Hin w' Hphase.
    destruct (updateDayNightCycle_lights deltaTime w Hlights)
      as (Htime & H1 & H2 & H3 & H4 & H5 & H6).
    fold w' in Htime, H1, H2, H3, H4, H5, H6.
    assert (Hrange : 0 <= currentTimeOfDaySeconds w' / cycleDurationSeconds < 1).
    { rewrite Htime.
      pose proof (advanceTimeOfDay_range deltaTime w Ht Hdt) as Hr.
      unfold cycleDurationSeconds in *. lra. }
    destruct (interpolate_at_keyframe _ k Hin Hrange Hphase)
      as (E1 & E2 & E3 & E4 & E5).
    rewrite H1, H2, H3, H4, H5, H6, E1, E2, E3, E4, E5.
    repeat split; reflexivity.
  - apply interpolate_last_segment.
Qed.

Lemma demo_lights (characterPosition carPosition : Vector3.t) (carYaw : R)
    (inCar : bool) (speed : R) (keys : Keys) :
  distinctLights (Demo.world characterPosition carPosition carYaw inCar speed keys).
Proof.
  unfold distinctLights. split; [discriminate|].
  split; apply (bool_decide_unpack _); vm_compute; exact I.
Qed.

(** C8 at work: a frame of no duration at a quarter of the cycle shows the
    midday keyframe. *)
Example dayNight_phase_keyframes_continuity_witness :
  let w := Demo.atStart in
  let frames := [(Demo.forwardKey, 0.5); (Demo.noKeys, 0.016)] in
  let w' := updateDayNightCycle 0 w in
  (Forall (fun frame : Keys * R => 0 <= snd frame) frames
   /\ 0 <= currentTimeOfDaySeconds w < cycleDurationSeconds
   /\ distinctLights w
   /\ keyframe2 ∈ keyframes
   /\ currentTimeOfDaySeconds w' / cycleDurationSeconds = time keyframe2
   /\ 0.75 <= 0.9 < 1)
  /\ 0 <= currentTimeOfDaySeconds (runFrames frames w) < cycleDurationSeconds
  /\ Object3D.intensity (objs w' (sunMoonLight w)) = 1.0
  /\ sceneFog w' = Some (Color.ofHex 0x87CEEB)
  /\ sameLight (interpolateFrames 0.9) (interpolateFrames 0).
Proof.
  intros w frames w'.
  assert (Hframes : Forall (fun frame : Keys * R => 0 <= snd frame) frames).
  { repeat constructor; simpl; lra. }
  assert (Hw : 0 <= currentTimeOfDaySeconds w < cycleDurationSeconds).
  { unfold cycleDurationSeconds; simpl. unfold cycleDurationSeconds. lra. }
  assert (Hlights : distinctLights w) by apply demo_lights.
  assert (Hin : keyframe2 ∈ keyframes).
  { unfold keyframes. rewrite !elem_of_cons. right; right; left. reflexivity. }
  assert (Hphase : currentTimeOfDaySeconds w' / cycleDurationSeconds = time keyframe2).
  { unfold w', updateDayNightCycle, advanceTimeOfDay. cbv zeta.
    cbn [currentTimeOfDaySeconds withDay withObjs]. rewrite rem_small.
    - unfold cycleDurationSeconds; simpl. unfold cycleDurationSeconds. lra.
    - unfold cycleDurationSeconds; simpl. unfold cycleDurationSeconds. lra. }
  assert (Hlate : 0.75 <= 0.9 < 1) by lra.
  split; [repeat (split; [assumption|]); assumption|].
  destruct dayNight_phase_keyframes_continuity as (Hrun & Hkey & Hwrap).
  split; [apply Hrun; assumption|].
  assert (Hstart : 0 <= currentTimeOfDaySeconds w) by apply Hw.
  assert (Hzero : 0 <= 0) by lra.
  destruct (Hkey 0 w keyframe2 Hstart Hzero Hlights Hin Hphase)
    as (Hsun & _ & _ & _ & Hfog & _).
  split; [exact Hsun|]. split; [exact Hfog|].
  apply Hwrap. exact Hlate.
Defined.

End DayNightClaims.

(** * Further properties of the code *)

(** ** The orbit camera and the pointer *)

Section Camera.

Lemma elevation_limits : 0 < PI / 36 /\ PI / 36 < PI / 2.2 /\ PI / 2.2 < PI / 2.
Proof.
  pose proof PI_RGT_0 as Hpi. repeat split.
  - apply Rdiv_lt_0_compat; lra.
  - unfold Rdiv. apply Rmult_lt_compat_l; [assumption|].
    apply Rinv_lt_contravar; lra.
  - unfold Rdiv. apply Rmult_lt_compat_l; [assumption|].
    apply Rinv_lt_contravar; lra.
Qed.

(** While the pointer is captured, a pointer move leaves the elevation
    within [PI/36, PI/2.2], strictly between the horizon and the pole,
    however far the pointer moved and whatever the elevation was; while it
    is not captured, the move changes nothing. *)
Theorem onMouseMove_clamps_elevation (movementX movementY : R) (s : Session) :
  let s' := onMouseMove movementX movementY s in
  (isPointerLockActive s = true ->
   PI / 36 <= cameraElevationAngle (world s') <= PI / 2.2
   /\ 0 < cameraElevationAngle (world s') < PI / 2
   /\ cameraAzimuthAngle (world s')
      = cameraAzimuthAngle (world s) - movementX * mouseSensitivity)
  /\ (isPointerLockActive s = false -> s' = s).
Proof.
  intros s'. subst s'. unfold onMouseMove. split.
  - intros Hlock. rewrite Hlock. cbn [negb world cameraElevationAngle
      cameraAzimuthAngle withAngles].
    destruct elevation_limits as (H0 & H1 & H2).
    assert (Hclamp : forall e, PI / 36 <= Rmax (PI / 36) (Rmin (PI / 2.2) e) <= PI / 2.2).
    { intros e. split; [apply Rmax_l|]. apply Rmax_lub; [lra|apply Rmin_l]. }
    split; [apply Hclamp|]. split.
    + specialize (Hclamp (cameraElevationAngle (world s)
                            - JS.or_else movementY 0 * mouseSensitivity)). lra.
    + unfold JS.or_else. case_decide as Hzero; [rewrite Hzero|]; reflexivity.
  - intros Hlock. rewrite Hlock. reflexivity.
Qed.

Example onMouseMove_clamps_elevation_witness :
  let s := mkSession Demo.atStart true in
  isPointerLockActive s = true
  /\ PI / 36 <= cameraElevationAngle (world (onMouseMove 40 (-100000) s)) <= PI / 2.2.
Proof.
  split; [reflexivity|].
  destruct (onMouseMove_clamps_elevation 40 (-100000) (mkSession Demo.atStart true))
    as [Hlocked _].
  apply (Hlocked eq_refl).
Defined.

Lemma updateCameraOrbit_sphere_core (w : World) :
  camera w <> cameraTarget w ->
  (cameraTarget w = carModel w
   \/ (Vector3.x (cameraTargetOffset w) = 0 /\ Vector3.z (cameraTargetOffset w) = 0)) ->
  Vector3.distanceTo (Object3D.position (objs (updateCameraOrbit w) (camera w)))
                     (lookAtPosition (updateCameraOrbit w))
  = cameraOrbitRadius.
Proof.
  intros Hne Hoffset.
  unfold updateCameraOrbit, lookAtPosition. cbv zeta.
  cbn [objs cameraTarget carModel cameraTargetOffset withObjs].
  rewrite alter_same, alter_other by assumption.
  cbn [Object3D.setPosition Object3D.position].
  set (t := Object3D.position (objs w (cameraTarget w))).
  set (off := if decide (cameraTarget w = carModel w) then Vector3.mk 0 1.0 0
              else cameraTargetOffset w).
  assert (Hflat : Vector3.x off = 0 /\ Vector3.z off = 0).
  { subst off. case_decide as Hcar; [split; reflexivity|].
    destruct Hoffset as [?|?]; [contradiction|assumption]. }
  destruct Hflat as [Hx Hz].
  set (az := cameraAzimuthAngle w). set (el := cameraElevationAngle w).
  pose proof (sin2_cos2 az) as Haz. pose proof (sin2_cos2 el) as Hel.
  unfold Rsqr in Haz, Hel.
  unfold Vector3.distanceTo, Vector3.add. cbn [Vector3.x Vector3.y Vector3.z].
  rewrite Hx, Hz.
  match goal with |- sqrt ?r = _ =>
    replace r with (cameraOrbitRadius * cameraOrbitRadius
                    * (cos el * cos el * (sin az * sin az + cos az * cos az)
                       + sin el * sin el)) by ring
  end.
  rewrite Haz.
  replace (cos el * cos el * 1 + sin el * sin el) with 1 by lra.
  rewrite Rmult_1_r. apply sqrt_square. unfold cameraOrbitRadius. lra.
Qed.

(** The camera is placed on the sphere of radius [cameraOrbitRadius] around
    the point it looks at, whatever the two angles are, and above that point
    when the elevation is between the horizon and the pole. *)
Theorem updateCameraOrbit_on_sphere (w : World) :
  camera w <> cameraTarget w ->
  (cameraTarget w = carModel w
   \/ (Vector3.x (cameraTargetOffset w) = 0 /\ Vector3.z (cameraTargetOffset w) = 0)) ->
  let w' := updateCameraOrbit w in
  Vector3.distanceTo (Object3D.position (objs w' (camera w))) (lookAtPosition w')
  = cameraOrbitRadius
  /\ (0 < cameraElevationAngle w < PI ->
      Vector3.y (lookAtPosition w') < Vector3.y (Object3D.position (objs w' (camera w)))).
Proof.
  intros Hne Hoffset w'. subst w'.
  split; [apply updateCameraOrbit_sphere_core; assumption|].
  intros [Hlo Hhi].
  unfold updateCameraOrbit, lookAtPosition. cbv zeta.
  cbn [objs cameraTarget carModel cameraTargetOffset withObjs].
  rewrite alter_same, alter_other by assumption.
  cbn [Object3D.setPosition Object3D.position].
  unfold Vector3.add. cbn [Vector3.y].
  pose proof (sin_gt_0 (cameraElevationAngle w) Hlo Hhi) as Hsin.
  unfold cameraOrbitRadius. lra.
Qed.

Example updateCameraOrbit_on_sphere_witness :
  let w := Demo.atStart in
  (camera w <> cameraTarget w
   /\ Vector3.x (cameraTargetOffset w) = 0 /\ Vector3.z (cameraTargetOffset w) = 0)
  /\ Vector3.distanceTo (Object3D.position (objs (updateCameraOrbit w) (camera w)))
                        (lookAtPosition (updateCameraOrbit w)) = cameraOrbitRadius.
Proof.
  intros w.
  assert (Hne : camera w <> cameraTarget w) by discriminate.
  assert (Hx : Vector3.x (cameraTargetOffset w) = 0) by reflexivity.
  assert (Hz : Vector3.z (cameraTargetOffset w) = 0) by reflexivity.
  split; [split; [exact Hne|split; [exact Hx|exact Hz]]|].
  apply (updateCameraOrbit_on_sphere w Hne (or_intror (conj Hx Hz))).
Defined.

End Camera.

(** ** The wrap within a frame *)

Section WrapInFrame.

Lemma component_le_distance (a b : Vector3.t) :
  Rabs (Vector3.x a - Vector3.x b) <= Vector3.distanceTo a b
  /\ Rabs (Vector3.z a - Vector3.z b) <= Vector3.distanceTo a b.
Proof.
  unfold Vector3.distanceTo.
  set (dx := Vector3.x a - Vector3.x b). set (dy := Vector3.y a - Vector3.y b).
  set (dz := Vector3.z a - Vector3.z b).
  split.
  - rewrite <- (sqrt_Rsqr_abs dx). apply sqrt_le_1_alt. unfold Rsqr. nra.
  - rewrite <- (sqrt_Rsqr_abs dz). apply sqrt_le_1_alt. unfold Rsqr. nra.
Qed.

Lemma wrapOffset_values (coordinate : R) :
  wrapOffset coordinate = 0 \/ Rabs (wrapOffset coordinate) = chunkSize.
Proof.
  unfold wrapOffset, chunkSize, citySize, blockSize, streetWidth. cbv zeta.
  case_decide; [right; rminmax|]. case_decide; [right; rminmax|]. left. reflexivity.
Qed.

(** The wrap changes no identity and no list of the world. *)
Lemma wrapWorld_wiring (w : World) :
  camera (wrapWorld w) = camera w /\ character (wrapWorld w) = character w
  /\ carModel (wrapWorld w) = carModel w /\ cameraTarget (wrapWorld w) = cameraTarget w
  /\ cameraTargetOffset (wrapWorld w) = cameraTargetOffset w
  /\ coins (wrapWorld w) = coins w /\ sceneChildren (wrapWorld w) = sceneChildren w
  /\ sunMoonLight (wrapWorld w) = sunMoonLight w
  /\ sunMoonLightTarget (wrapWorld w) = sunMoonLightTarget w
  /\ streetLights (wrapWorld w) = streetLights w.
Proof. unfold wrapWorld. case_match; repeat split; reflexivity. Qed.

(** [updateGameLogic] places the camera before it wraps the world, and the
    wrap moves the target and not the camera: at the end of a frame in
    which the wrap fires, the camera is where it was and the point it looks
    at has moved by (dx, dz), so the two are at least a chunk length less
    the orbit radius apart until the next frame places the camera again. *)
Theorem wrap_leaves_camera_behind (w : World) :
  distinctObjects w ->
  cameraTarget w = character w \/ cameraTarget w = carModel w ->
  camera w <> cameraTarget w ->
  (cameraTarget w = carModel w
   \/ (Vector3.x (cameraTargetOffset w) = 0 /\ Vector3.z (cameraTargetOffset w) = 0)) ->
  let w1 := updateCameraOrbit w in
  let w2 := wrapWorld w1 in
  (wrapOffsetX w1 <> 0 \/ wrapOffsetZ w1 <> 0) ->
  Object3D.position (objs w2 (camera w)) = Object3D.position (objs w1 (camera w))
  /\ lookAtPosition w2
     = Vector3.shiftXZ (wrapOffsetX w1) (wrapOffsetZ w1) (lookAtPosition w1)
  /\ chunkSize - cameraOrbitRadius
     <= Vector3.distanceTo (Object3D.position (objs w2 (camera w))) (lookAtPosition w2).
Proof.
  intros Hdistinct Htarget Hne Hoffset w1 w2 Hfires.
  assert (Hdistinct1 : distinctObjects w1) by exact Hdistinct.
  assert (Htarget1 : cameraTarget w1 = character w1 \/ cameraTarget w1 = carModel w1)
    by exact Htarget.
  assert (Hcam : objs w2 (camera w) = objs w1 (camera w)).
  { apply (wrapWorld_kept w1 (camera w) Hdistinct1). left. reflexivity. }
  assert (Hlook : lookAtPosition w2
                  = Vector3.shiftXZ (wrapOffsetX w1) (wrapOffsetZ w1) (lookAtPosition w1)).
  { unfold lookAtPosition.
    destruct (wrapWorld_wiring w1) as (_ & _ & Hcm & Hct & Hoff & _).
    fold w2 in Hcm, Hct, Hoff. rewrite Hct, Hcm, Hoff.
    unfold w2. rewrite (wrapWorld_target w1 Hdistinct1 Htarget1).
    unfold Vector3.add, Vector3.shiftXZ. cbn [Vector3.x Vector3.y Vector3.z].
    f_equal; ring. }
  split; [rewrite Hcam; reflexivity|]. split; [exact Hlook|].
  pose proof (updateCameraOrbit_sphere_core w Hne Hoffset) as Hsphere.
  fold w1 in Hsphere.
  rewrite Hcam, Hlook.
  set (c := Object3D.position (objs w1 (camera w))) in *.
  set (l := lookAtPosition w1) in *.
  destruct (component_le_distance c l) as [Hcx Hcz].
  rewrite Hsphere in Hcx, Hcz.
  set (ox := wrapOffsetX w1) in *. set (oz := wrapOffsetZ w1) in *.
  set (l2 := Vector3.shiftXZ ox oz l).
  assert (Hl2x : Vector3.x l2 = Vector3.x l + ox) by reflexivity.
  assert (Hl2z : Vector3.z l2 = Vector3.z l + oz) by reflexivity.
  destruct (component_le_distance c l2) as [Hdx Hdz].
  rewrite Hl2x in Hdx. rewrite Hl2z in Hdz.
  destruct Hfires as [Hx|Hz].
  - destruct (wrapOffset_values
                (Vector3.x (Object3D.position (objs w1 (cameraTarget w1)))))
      as [Hzero|Hchunk]; [contradiction|].
    fold (wrapOffsetX w1) in Hchunk. fold ox in Hchunk.
    revert Hcx Hdx Hchunk.
    unfold chunkSize, citySize, blockSize, streetWidth, cameraOrbitRadius, Rabs.
    repeat destruct (Rcase_abs _); lra.
  - destruct (wrapOffset_values
                (Vector3.z (Object3D.position (objs w1 (cameraTarget w1)))))
      as [Hzero|Hchunk]; [contradiction|].
    fold (wrapOffsetZ w1) in Hchunk. fold oz in Hchunk.
    revert Hcz Hdz Hchunk.
    unfold chunkSize, citySize, blockSize, streetWidth, cameraOrbitRadius, Rabs.
    repeat destruct (Rcase_abs _); lra.
Qed.

End WrapInFrame.
Section WrapConsequences.

Example wrap_leaves_camera_behind_witness :
  let w := Demo.pastTheEdge in
  let w1 := updateCameraOrbit w in
  let w2 := wrapWorld w1 in
  (distinctObjects w
   /\ (cameraTarget w = character w \/ cameraTarget w = carModel w)
   /\ camera w <> cameraTarget w
   /\ (Vector3.x (cameraTargetOffset w) = 0 /\ Vector3.z (cameraTargetOffset w) = 0)
   /\ (wrapOffsetX w1 <> 0 \/ wrapOffsetZ w1 <> 0))
  /\ chunkSize - cameraOrbitRadius
     <= Vector3.distanceTo (Object3D.position (objs w2 (camera w))) (lookAtPosition w2).
Proof.
  intros w w1 w2.
  assert (Hdistinct : distinctObjects w) by apply demo_distinct.
  assert (Htarget : cameraTarget w = character w \/ cameraTarget w = carModel w)
    by (left; reflexivity).
  assert (Hne : camera w <> cameraTarget w) by discriminate.
  assert (Hflat : Vector3.x (cameraTargetOffset w) = 0
                  /\ Vector3.z (cameraTargetOffset w) = 0) by (split; reflexivity).
  assert (Hfires : wrapOffsetX w1 <> 0 \/ wrapOffsetZ w1 <> 0).
  { left. unfold wrapOffsetX, w1, updateCameraOrbit. cbv zeta.
    cbn [objs cameraTarget withObjs]. rewrite alter_other by discriminate.
    fold (wrapOffsetX w). unfold w. rewrite (proj1 pastTheEdge_offsets). lra. }
  split; [split; [exact Hdistinct|split; [exact Htarget|split; [exact Hne|
           split; [exact Hflat|exact Hfires]]]]|].
  destruct (wrap_leaves_camera_behind w Hdistinct Htarget Hne (or_intror Hflat) Hfires)
    as (_ & _ & Hfar).
  exact Hfar.
Defined.

Lemma collides_translated (dx dz : R) (cs : list Box3.t) (p : Vector3.t) :
  collides (translateColliders dx dz cs) (Vector3.shiftXZ dx dz p) = collides cs p.
Proof.
  unfold translateColliders.
  induction cs as [|c cs IH]; simpl; [reflexivity|].
  rewrite containsPoint_shift, IH.
  replace (Vector3.shiftXZ (- dx) (- dz) (Vector3.shiftXZ dx dz p)) with p; [reflexivity|].
  destruct p as [x y z]. unfold Vector3.shiftXZ; simpl. f_equal; ring.
Qed.

(** The wrap moves agents and colliders together: whether one of the
    translated objects stands inside a building is the same after the wrap
    as before it. *)
Theorem wrapWorld_keeps_collisions (w : World) (obj : ObjId) :
  distinctObjects w ->
  translatedByWrap w obj ->
  collides (buildingColliders (wrapWorld w)) (Object3D.position (objs (wrapWorld w) obj))
  = collides (buildingColliders w) (Object3D.position (objs w obj)).
Proof.
  intros Hdistinct Hobj.
  destruct (decide (wrapOffsetX w = 0)) as [Hx|Hx];
    [destruct (decide (wrapOffsetZ w = 0)) as [Hz|Hz]|].
  - rewrite wrapWorld_idle by assumption. reflexivity.
  - rewrite wrapWorld_colliders, wrapWorld_translated by (try assumption; right; assumption).
    apply collides_translated.
  - rewrite wrapWorld_colliders, wrapWorld_translated by (try assumption; left; assumption).
    apply collides_translated.
Qed.

Example wrapWorld_keeps_collisions_witness :
  let w := Demo.pastTheEdge in
  (distinctObjects w /\ translatedByWrap w (character w))
  /\ collides (buildingColliders (wrapWorld w))
       (Object3D.position (objs (wrapWorld w) (character w)))
     = collides (buildingColliders w) (Object3D.position (objs w (character w))).
Proof.
  intros w.
  assert (Hdistinct : distinctObjects w) by apply demo_distinct.
  assert (Hobj : translatedByWrap w (character w)) by (left; reflexivity).
  split; [split; assumption|].
  apply (wrapWorld_keeps_collisions w (character w) Hdistinct Hobj).
Defined.

Lemma wrapWorld_distinct (w : World) :
  distinctObjects w -> distinctObjects (wrapWorld w).
Proof.
  unfold distinctObjects, keptByWrap.
  destruct (wrapWorld_wiring w) as (-> & -> & -> & _ & _ & -> & -> & -> & -> & _).
  tauto.
Qed.

Lemma wrapWorld_target_fixed (w : World) :
  (cameraTarget w = character w \/ cameraTarget w = carModel w) ->
  cameraTarget (wrapWorld w) = character (wrapWorld w)
  \/ cameraTarget (wrapWorld w) = carModel (wrapWorld w).
Proof.
  destruct (wrapWorld_wiring w) as (_ & -> & -> & -> & _). tauto.
Qed.

Lemma wrapOffset_step (n : nat) (coordinate : R) :
  Rabs coordinate <= chunkSize / 2 + INR (S n) * chunkSize ->
  Rabs (coordinate + wrapOffset coordinate) <= chunkSize / 2 + INR n * chunkSize.
Proof.
  rewrite S_INR. pose proof (pos_INR n) as Hn.
  unfold wrapOffset, chunkSize, citySize, blockSize, streetWidth. cbv zeta.
  intros Hnear. rcases; rminmax; nra.
Qed.

(** A target that is up to [n] chunk lengths past the bound is brought back
    within [-chunkSize/2, chunkSize/2] by [n] wraps, one chunk length at a
    time, on each axis. *)
Theorem wrapWorld_recentres_in_steps (n : nat) :
  forall w : World,
    distinctObjects w ->
    cameraTarget w = character w \/ cameraTarget w = carModel w ->
    let p := Object3D.position (objs w (cameraTarget w)) in
    let p' := Object3D.position (objs (Nat.iter n wrapWorld w) (cameraTarget w)) in
    (Rabs (Vector3.x p) <= chunkSize / 2 + INR n * chunkSize ->
     Rabs (Vector3.x p') <= chunkSize / 2)
    /\ (Rabs (Vector3.z p) <= chunkSize / 2 + INR n * chunkSize ->
        Rabs (Vector3.z p') <= chunkSize / 2).
Proof.
  induction n as [|n IH]; intros w Hdistinct Htarget p p'; subst p p'.
  - simpl. split; intros H; lra.
  - rewrite Nat.iter_succ_r.
    specialize (IH (wrapWorld w) (wrapWorld_distinct w Hdistinct)
                   (wrapWorld_target_fixed w Htarget)).
    cbv zeta in IH.
    destruct (wrapWorld_wiring w) as (_ & _ & _ & Hct & _). rewrite Hct in IH.
    rewrite (wrapWorld_target w Hdistinct Htarget) in IH.
    unfold Vector3.shiftXZ in IH. cbn [Vector3.x Vector3.z] in IH.
    destruct IH as [IHx IHz].
    split; intros Hnear; [apply IHx|apply IHz]; apply wrapOffset_step; exact Hnear.
Qed.

Example wrapWorld_recentres_in_steps_witness :
  let w := Demo.farPastTheEdge in
  (distinctObjects w
   /\ (cameraTarget w = character w \/ cameraTarget w = carModel w)
   /\ Rabs (Vector3.x (Object3D.position (objs w (cameraTarget w))))
      <= chunkSize / 2 + INR 2 * chunkSize)
  /\ Rabs (Vector3.x (Object3D.position
                        (objs (Nat.iter 2 wrapWorld w) (cameraTarget w))))
     <= chunkSize / 2.
Proof.
  intros w.
  assert (Hdistinct : distinctObjects w) by apply demo_distinct.
  assert (Htarget : cameraTarget w = character w \/ cameraTarget w = carModel w)
    by (left; reflexivity).
  assert (Hx : Rabs (Vector3.x (Object3D.position (objs w (cameraTarget w))))
               <= chunkSize / 2 + INR 2 * chunkSize).
  { unfold chunkSize, citySize, blockSize, streetWidth; simpl. rminmax. }
  split; [split; [exact Hdistinct|split; [exact Htarget|exact Hx]]|].
  destruct (wrapWorld_recentres_in_steps 2 w Hdistinct Htarget) as [Hnear _].
  apply Hnear. exact Hx.
Defined.

(** A lantern group is left where it is by the wrap, so when the wrap fires
    its offset from every translated object, a street or a building, changes
    by (dx, dz). *)
Theorem wrapWorld_leaves_lanterns_behind (w : World) (lantern other : ObjId) :
  distinctObjects w ->
  isStreetLanternGroup w (objs w) lantern = true ->
  lantern <> character w -> lantern <> carModel w -> lantern ∉ coins w ->
  translatedByWrap w other ->
  let w' := wrapWorld w in
  objs w' lantern = objs w lantern
  /\ Vector3.sub (Object3D.position (objs w' other)) (Object3D.position (objs w' lantern))
     = Vector3.shiftXZ (wrapOffsetX w) (wrapOffsetZ w)
         (Vector3.sub (Object3D.position (objs w other))
                      (Object3D.position (objs w lantern))).
Proof.
  intros Hdistinct Hlantern Hnch Hncar Hncoin Hother w'. subst w'.
  assert (Hshift0 : forall p, Vector3.shiftXZ 0 0 p = p).
  { intros [x y z]. unfold Vector3.shiftXZ; simpl. f_equal; ring. }
  destruct (decide (wrapOffsetX w = 0)) as [Hx|Hx];
    [destruct (decide (wrapOffsetZ w = 0)) as [Hz|Hz]|].
  - rewrite wrapWorld_idle, Hx, Hz, Hshift0 by assumption. split; reflexivity.
  - assert (Hfires : wrapOffsetX w <> 0 \/ wrapOffsetZ w <> 0) by (right; assumption).
    assert (Hkept : objs (wrapWorld w) lantern = objs w lantern).
    { destruct Hdistinct as (_ & _ & _ & _ & Hcoins & Hscene).
      rewrite (wrapWorld_objs w lantern Hfires Hcoins Hscene). cbv zeta.
      unfold movedWithScene. rewrite Hlantern. cbn [negb andb].
      rewrite !andb_false_r. rewrite !alter_other by congruence.
      rewrite decide_False by assumption. reflexivity. }
    split; [exact Hkept|].
    rewrite Hkept, wrapWorld_translated by assumption.
    unfold Vector3.sub, Vector3.shiftXZ, Object3D.shiftXZ; simpl. f_equal; ring.
  - assert (Hfires : wrapOffsetX w <> 0 \/ wrapOffsetZ w <> 0) by (left; assumption).
    assert (Hkept : objs (wrapWorld w) lantern = objs w lantern).
    { destruct Hdistinct as (_ & _ & _ & _ & Hcoins & Hscene).
      rewrite (wrapWorld_objs w lantern Hfires Hcoins Hscene). cbv zeta.
      unfold movedWithScene. rewrite Hlantern. cbn [negb andb].
      rewrite !andb_false_r. rewrite !alter_other by congruence.
      rewrite decide_False by assumption. reflexivity. }
    split; [exact Hkept|].
    rewrite Hkept, wrapWorld_translated by assumption.
    unfold Vector3.sub, Vector3.shiftXZ, Object3D.shiftXZ; simpl. f_equal; ring.
Qed.

Example wrapWorld_leaves_lanterns_behind_witness :
  let w := Demo.pastTheEdge in
  (distinctObjects w
   /\ isStreetLanternGroup w (objs w) Demo.lanternId = true
   /\ Demo.lanternId <> character w /\ Demo.lanternId <> carModel w
   /\ (Demo.lanternId ∉ coins w)
   /\ translatedByWrap w Demo.buildingId)
  /\ objs (wrapWorld w) Demo.lanternId = objs w Demo.lanternId.
Proof.
  intros w.
  assert (Hdistinct : distinctObjects w) by apply demo_distinct.
  assert (Hlantern : isStreetLanternGroup w (objs w) Demo.lanternId = true) by reflexivity.
  assert (Hnch : Demo.lanternId <> character w) by discriminate.
  assert (Hncar : Demo.lanternId <> carModel w) by discriminate.
  assert (Hncoin : Demo.lanternId ∉ coins w).
  { apply (bool_decide_unpack _). vm_compute. exact I. }
  assert (Hother : translatedByWrap w Demo.buildingId) by apply building_translated.
  split; [split; [exact Hdistinct|split; [exact Hlantern|split; [exact Hnch|
           split; [exact Hncar|split; [exact Hncoin|exact Hother]]]]]|].
  destruct (wrapWorld_leaves_lanterns_behind w Demo.lanternId Demo.buildingId
              Hdistinct Hlantern Hnch Hncar Hncoin Hother) as [Hkept _].
  exact Hkept.
Defined.

End WrapConsequences.

(** ** The toggle and the keyboard *)

Section ToggleAndKeys.

Lemma carSpawn_value : carSpawn = Vector3.mk 0 0 2.
Proof.
  unfold carSpawn, cityOffset, citySize, blockSize, streetWidth. cbv zeta.
  assert (Hmid : Int_part (10 / 2) = 5%Z).
  { symmetry. apply Int_part_spec. simpl. lra. }
  rewrite Hmid. f_equal; simpl; lra.
Qed.

Lemma spawn_distance : Vector3.distanceTo characterSpawn carSpawn = enterCarDistance.
Proof.
  unfold characterSpawn. rewrite carSpawn_value.
  unfold Vector3.distanceTo, characterFeetY, enterCarDistance; simpl.
  replace ((0 + 3 - 0) * (0 + 3 - 0) + (0 - 0) * (0 - 0) + (2 - 2) * (2 - 2))
    with (3 * 3) by ring.
  rewrite sqrt_square; lra.
Qed.

Lemma enterOrExitCar_refused (w : World) :
  isInCar w = false ->
  enterCarDistance
  <= Vector3.distanceTo (Object3D.position (objs w (character w)))
                        (Object3D.position (objs w (carModel w))) ->
  enterOrExitCar w = w.
Proof.
  intros Hfoot Hfar. unfold enterOrExitCar. rewrite Hfoot.
  case_decide; [lra|reflexivity].
Qed.

(** On foot the toggle needs the character strictly nearer than
    [enterCarDistance]: at that distance or beyond it the world is left
    exactly as it is.  [createCar] puts the character exactly that far from
    the car, so at the spawn positions the toggle key does nothing until the
    character has stepped closer. *)
Theorem toggle_refused_at_spawn (w : World) :
  isInCar w = false ->
  (enterCarDistance
   <= Vector3.distanceTo (Object3D.position (objs w (character w)))
                         (Object3D.position (objs w (carModel w))) ->
   enterOrExitCar w = w)
  /\ (Object3D.position (objs w (character w)) = characterSpawn ->
      Object3D.position (objs w (carModel w)) = carSpawn ->
      enterOrExitCar w = w).
Proof.
  intros Hfoot. split.
  - apply enterOrExitCar_refused. exact Hfoot.
  - intros Hch Hcar. apply enterOrExitCar_refused; [exact Hfoot|].
    rewrite Hch, Hcar, spawn_distance. lra.
Qed.

Example toggle_refused_at_spawn_witness :
  let w := Demo.world (Vector3.mk 3 0 2) (Vector3.mk 0 0 2) 0 false 0 Demo.noKeys in
  (isInCar w = false
   /\ Object3D.position (objs w (character w)) = characterSpawn
   /\ Object3D.position (objs w (carModel w)) = carSpawn)
  /\ enterOrExitCar w = w.
Proof.
  intros w.
  assert (Hfoot : isInCar w = false) by reflexivity.
  assert (Hcar : Object3D.position (objs w (carModel w)) = carSpawn).
  { rewrite carSpawn_value. reflexivity. }
  assert (Hch : Object3D.position (objs w (character w)) = characterSpawn).
  { unfold characterSpawn. rewrite carSpawn_value. unfold characterFeetY; simpl.
    f_equal; lra. }
  split; [split; [exact Hfoot|split; [exact Hch|exact Hcar]]|].
  destruct (toggle_refused_at_spawn w Hfoot) as [_ Hspawn].
  apply Hspawn; assumption.
Defined.



(** The space key starts a jump only on foot and on the ground.  In the
    vehicle or in mid-air a press of it leaves the vertical velocity, the
    jump flag and every object as they are: there is no second jump before
    landing.  On foot and on the ground it sets the jump flag and the
    vertical velocity to [jumpStrength]. *)
Theorem space_jumps_only_from_ground (toLowerCase : string -> string) (w : World) :
  toLowerCase " "%string <> "f"%string ->
  let w' := onKeyDown toLowerCase " " w in
  (isInCar w = true \/ isJumping w = true ->
   velocityY w' = velocityY w /\ isJumping w' = isJumping w /\ objs w' = objs w)
  /\ (isInCar w = false -> isJumping w = false ->
      velocityY w' = jumpStrength /\ isJumping w' = true /\ objs w' = objs w).
Proof.
  intros Hkey w'. subst w'. unfold onKeyDown. cbv zeta.
  rewrite (bool_decide_eq_false_2 (toLowerCase " " = "f"%string)) by assumption.
  rewrite (bool_decide_eq_true_2 (" "%string = " "%string)) by reflexivity.
  cbn [isInCar isJumping footstepTimer withKeys].
  split.
  - intros [Hcar|Hjump].
    + rewrite Hcar. repeat split; reflexivity.
    + rewrite Hjump, andb_false_r. repeat split; first [reflexivity|exact Hjump].
  - intros Hfoot Hground. rewrite Hfoot, Hground. repeat split; reflexivity.
Qed.

Example space_jumps_only_from_ground_witness :
  let lower := fun key : string => key in
  (lower " "%string <> "f"%string
   /\ isInCar Demo.seated = true
   /\ isInCar Demo.atStart = false /\ isJumping Demo.atStart = false)
  /\ velocityY (onKeyDown lower " " Demo.seated) = velocityY Demo.seated
  /\ velocityY (onKeyDown lower " " Demo.atStart) = jumpStrength.
Proof.
  intros lower.
  assert (Hkey : lower " "%string <> "f"%string) by discriminate.
  split; [split; [exact Hkey|repeat split; reflexivity]|].
  destruct (space_jumps_only_from_ground lower Demo.seated Hkey) as [Hblocked _].
  destruct (space_jumps_only_from_ground lower Demo.atStart Hkey) as [_ Hjump].
  split.
  - apply (Hblocked (or_introl eq_refl)).
  - apply (Hjump eq_refl eq_refl).
Defined.

End ToggleAndKeys.

(** ** Coasting *)

Section Coasting.

Lemma coasting_speed (deltaTime : R) (w : World) :
  accelerationInput (keysPressed w) = 0 ->
  carSpeedAfterInput deltaTime w
  = Rmax carReverseMaxSpeed
      (Rmin carMaxSpeed
         (let s :=
            if decide (carSpeed w > 0) then carSpeed w - carDeceleration * deltaTime
            else if decide (carSpeed w < 0) then carSpeed w + carDeceleration * deltaTime
            else carSpeed w in
          if decide (Rabs s < 0.1) then 0 else s)).
Proof.
  intros Hcoast. unfold carSpeedAfterInput. cbv zeta. rewrite Hcoast.
  rewrite decide_False by tauto. reflexivity.
Qed.

(** With no acceleration key held and a frame time of at most
    0.1 / carDeceleration, friction never reverses the car: the speed after
    the frame lies between 0 and the speed before it, and it is exactly 0
    once the speed is within 0.1 + carDeceleration * dt of 0. *)
Theorem friction_slows_without_reversal (deltaTime : R) (w : World) :
  accelerationInput (keysPressed w) = 0 ->
  0 <= deltaTime -> carDeceleration * deltaTime <= 0.1 ->
  carReverseMaxSpeed <= carSpeed w <= carMaxSpeed ->
  let s := carSpeed w in
  let s' := carSpeed (updateCarMovement deltaTime w) in
  (0 <= s -> 0 <= s' <= s)
  /\ (s <= 0 -> s <= s' <= 0)
  /\ (Rabs s < 0.1 + carDeceleration * deltaTime -> s' = 0).
Proof.
  intros Hcoast Hdt Hsmall Hlimits s s'. subst s s'.
  rewrite updateCarMovement_speed. rewrite (coasting_speed _ _ Hcoast).
  revert Hsmall Hlimits. unfold carDeceleration, carReverseMaxSpeed, carMaxSpeed.
  intros Hsmall Hlimits. cbv zeta.
  destruct (collides _ _); repeat split; intros; rcases; rminmax.
Qed.

Example friction_slows_without_reversal_witness :
  let w := Demo.world (Vector3.mk 3 0 2) (Vector3.mk 0 0 2) 0 true 0.15 Demo.noKeys in
  (accelerationInput (keysPressed w) = 0
   /\ 0 <= 0.005 /\ carDeceleration * 0.005 <= 0.1
   /\ carReverseMaxSpeed <= carSpeed w <= carMaxSpeed
   /\ Rabs (carSpeed w) < 0.1 + carDeceleration * 0.005)
  /\ carSpeed (updateCarMovement 0.005 w) = 0.
Proof.
  intros w.
  assert (Hcoast : accelerationInput (keysPressed w) = 0) by reflexivity.
  assert (Hdt : 0 <= 0.005) by lra.
  assert (Hsmall : carDeceleration * 0.005 <= 0.1) by (unfold carDeceleration; lra).
  assert (Hlimits : carReverseMaxSpeed <= carSpeed w <= carMaxSpeed).
  { unfold carReverseMaxSpeed, carMaxSpeed; simpl. lra. }
  assert (Hnear : Rabs (carSpeed w) < 0.1 + carDeceleration * 0.005).
  { unfold carDeceleration; simpl. rminmax. }
  split; [split; [exact Hcoast|split; [exact Hdt|split; [exact Hsmall|
           split; [exact Hlimits|exact Hnear]]]]|].
  destruct (friction_slows_without_reversal 0.005 w Hcoast Hdt Hsmall Hlimits)
    as (_ & _ & Hstop).
  apply Hstop. exact Hnear.
Defined.



End Coasting.

(** ** Walking and jumping *)

Section Walking.

Lemma length_nonneg (v : Vector3.t) : 0 <= Vector3.length v.
Proof. unfold Vector3.length. apply sqrt_pos. Qed.

Lemma length_squared (v : Vector3.t) :
  Vector3.length v * Vector3.length v
  = Vector3.x v * Vector3.x v + Vector3.y v * Vector3.y v + Vector3.z v * Vector3.z v.
Proof. unfold Vector3.length. apply sqrt_sqrt. nra. Qed.

Lemma characterStep_length (deltaTime : R) (w : World) :
  0 <= deltaTime ->
  Vector3.length (fst (movementDirection w)) <> 0 ->
  Vector3.length (characterStep deltaTime w) = moveSpeed * deltaTime.
Proof.
  intros Hdt Hdir. unfold characterStep, Vector3.normalize, JS.or_else.
  rewrite decide_False by assumption.
  set (d := fst (movementDirection w)) in *.
  set (l := Vector3.length d) in *.
  pose proof (length_squared d) as Hsq. fold l in Hsq.
  unfold Vector3.length at 1, Vector3.multiplyScalar. cbn [Vector3.x Vector3.y Vector3.z].
  replace (Vector3.x d * (1 / l) * (moveSpeed * deltaTime)
           * (Vector3.x d * (1 / l) * (moveSpeed * deltaTime))
           + Vector3.y d * (1 / l) * (moveSpeed * deltaTime)
             * (Vector3.y d * (1 / l) * (moveSpeed * deltaTime))
           + Vector3.z d * (1 / l) * (moveSpeed * deltaTime)
             * (Vector3.z d * (1 / l) * (moveSpeed * deltaTime)))
    with (moveSpeed * deltaTime * (moveSpeed * deltaTime)).
  - apply sqrt_square. unfold moveSpeed. lra.
  - transitivity ((Vector3.x d * Vector3.x d + Vector3.y d * Vector3.y d
                   + Vector3.z d * Vector3.z d)
                  * (1 / l) * (1 / l) * (moveSpeed * deltaTime * (moveSpeed * deltaTime)));
      [|ring].
    rewrite <- Hsq. field. exact Hdir.
Qed.

(** A character on the ground whose candidate is free moves by exactly
    [moveSpeed * dt] in a frame, whichever direction keys give the (nonzero)
    direction: two keys held together move it no faster than one. *)
Theorem walk_moves_by_moveSpeed (deltaTime : R) (w : World) :
  0 <= deltaTime ->
  Vector3.length (fst (movementDirection w)) <> 0 ->
  collides (buildingColliders w) (characterCandidate deltaTime w) = false ->
  isJumping w = false ->
  characterFeetY <= Vector3.y (Object3D.position (objs w (character w))) ->
  Vector3.distanceTo
    (Object3D.position (objs (updateCharacterMovement deltaTime w) (character w)))
    (Object3D.position (objs w (character w)))
  = moveSpeed * deltaTime.
Proof.
  intros Hdt Hdir Hfree Hground Hy.
  assert (Hmove : snd (movementDirection w) = true).
  { destruct (snd (movementDirection w)) eqn:Hsnd; [reflexivity|].
    exfalso. apply Hdir. revert Hsnd. unfold movementDirection. cbv zeta.
    repeat match goal with |- context [if ?c then _ else _] => destruct c end;
      cbn [fst snd]; try discriminate.
    intros _. unfold Vector3.length; simpl.
    replace (0 * 0 + 0 * 0 + 0 * 0) with 0 by ring. apply sqrt_0. }
  unfold updateCharacterMovement.
  rewrite jumpPhysics_grounded; [|exact Hground|rewrite moveCharacter_y; exact Hy].
  unfold moveCharacter. rewrite Hmove, Hfree. cbv zeta. cbn [negb].
  rewrite !alter_same.
  cbn [Object3D.addRotationY Object3D.setRotation Object3D.setPosition Object3D.position].
  rewrite <- (characterStep_length deltaTime w Hdt Hdir).
  unfold characterCandidate, Vector3.distanceTo, Vector3.length, Vector3.add.
  cbn [Vector3.x Vector3.y Vector3.z]. f_equal. ring.
Qed.

Lemma tower_misses (p : Vector3.t) : Vector3.x p < 35 -> collides [Demo.tower] p = false.
Proof.
  intros Hx. unfold collides, Box3.containsPoint, Demo.tower, buildingCollider; simpl.
  rewrite (bool_decide_eq_true_2 (Vector3.x p < 40 - 10 / 2)) by lra. reflexivity.
Qed.

Lemma walkingDiagonally_direction :
  fst (movementDirection Demo2.walkingDiagonally) = Vector3.mk 1 0 1.
Proof.
  unfold movementDirection; simpl.
  rewrite Rplus_0_l, sin_0, cos_0, sin_PI2, cos_PI2.
  unfold Vector3.add; simpl. f_equal; lra.
Qed.

Lemma walkingDiagonally_moving :
  Vector3.length (fst (movementDirection Demo2.walkingDiagonally)) <> 0.
Proof.
  rewrite walkingDiagonally_direction. unfold Vector3.length; simpl.
  intros Hzero. apply sqrt_eq_0 in Hzero; lra.
Qed.

Example walk_moves_by_moveSpeed_witness :
  let w := Demo2.walkingDiagonally in
  (0 <= 0.1
   /\ Vector3.length (fst (movementDirection w)) <> 0
   /\ collides (buildingColliders w) (characterCandidate 0.1 w) = false
   /\ isJumping w = false
   /\ characterFeetY <= Vector3.y (Object3D.position (objs w (character w))))
  /\ Vector3.distanceTo
       (Object3D.position (objs (updateCharacterMovement 0.1 w) (character w)))
       (Object3D.position (objs w (character w)))
     = moveSpeed * 0.1.
Proof.
  intros w.
  assert (Hdt : 0 <= 0.1) by lra.
  assert (Hdir : Vector3.length (fst (movementDirection w)) <> 0)
    by apply walkingDiagonally_moving.
  assert (Hfree : collides (buildingColliders w) (characterCandidate 0.1 w) = false).
  { apply tower_misses.
    pose proof (characterStep_length 0.1 w Hdt Hdir) as Hlen.
    destruct (component_le_distance (characterCandidate 0.1 w)
                (Object3D.position (objs w (character w)))) as [Hx _].
    assert (Hd : Vector3.distanceTo (characterCandidate 0.1 w)
                   (Object3D.position (objs w (character w))) = moveSpeed * 0.1).
    { rewrite <- Hlen. unfold characterCandidate, Vector3.distanceTo, Vector3.length,
        Vector3.add. cbn [Vector3.x Vector3.y Vector3.z]. f_equal. ring. }
    rewrite Hd in Hx. revert Hx. unfold moveSpeed; simpl.
    unfold Rabs. destruct (Rcase_abs _); lra. }
  assert (Hground : isJumping w = false) by reflexivity.
  assert (Hy : characterFeetY <= Vector3.y (Object3D.position (objs w (character w)))).
  { unfold characterFeetY; simpl. lra. }
  split; [split; [exact Hdt|split; [exact Hdir|split; [exact Hfree|
           split; [exact Hground|exact Hy]]]]|].
  apply (walk_moves_by_moveSpeed 0.1 w Hdt Hdir Hfree Hground Hy).
Defined.

(** Opposite keys held together cancel: with forward and back both held or
    both released, and likewise left and right, the character's position
    after the frame's move is the one before it, collider or not. *)
Theorem opposite_keys_cancel (deltaTime : R) (w : World) :
  let keys := keysPressed w in
  (keys "w" || keys "arrowup") = (keys "s" || keys "arrowdown") ->
  (keys "a" || keys "arrowleft") = (keys "d" || keys "arrowright") ->
  characterStep deltaTime w = Vector3.mk 0 0 0
  /\ Object3D.position (moveCharacter deltaTime w (character w))
     = Object3D.position (objs w (character w)).
Proof.
  intros keys Hfb Hlr. subst keys.
  assert (Hdir : fst (movementDirection w) = Vector3.mk 0 0 0).
  { unfold movementDirection. cbv zeta. rewrite Hfb, Hlr.
    destruct (keysPressed w "s" || keysPressed w "arrowdown");
      destruct (keysPressed w "d" || keysPressed w "arrowright");
      cbn [fst snd]; unfold Vector3.add, Vector3.sub; simpl; f_equal; ring. }
  assert (Hstep : characterStep deltaTime w = Vector3.mk 0 0 0).
  { unfold characterStep, Vector3.normalize, Vector3.multiplyScalar. rewrite Hdir.
    simpl. f_equal; ring. }
  split; [exact Hstep|].
  unfold moveCharacter. destruct (snd (movementDirection w)); [|reflexivity].
  cbv zeta. rewrite alter_same.
  cbn [Object3D.addRotationY Object3D.setRotation Object3D.position].
  destruct (collides _ _); cbn [negb]; [reflexivity|].
  rewrite alter_same. cbn [Object3D.setPosition Object3D.position].
  unfold characterCandidate. rewrite Hstep.
  destruct (Object3D.position (objs w (character w))) as [x y z].
  unfold Vector3.add; simpl. f_equal; ring.
Qed.

Example opposite_keys_cancel_witness :
  let w := Demo2.pullingBothWays in
  ((keysPressed w "w" || keysPressed w "arrowup")
   = (keysPressed w "s" || keysPressed w "arrowdown")
   /\ (keysPressed w "a" || keysPressed w "arrowleft")
      = (keysPressed w "d" || keysPressed w "arrowright"))
  /\ Object3D.position (moveCharacter 0.1 w (character w))
     = Object3D.position (objs w (character w)).
Proof.
  intros w.
  assert (Hfb : (keysPressed w "w" || keysPressed w "arrowup")
                = (keysPressed w "s" || keysPressed w "arrowdown")) by reflexivity.
  assert (Hlr : (keysPressed w "a" || keysPressed w "arrowleft")
                = (keysPressed w "d" || keysPressed w "arrowright")) by reflexivity.
  split; [split; assumption|].
  destruct (opposite_keys_cancel 0.1 w Hfb Hlr) as [_ Hpos]. exact Hpos.
Defined.

End Walking.

Section Jumping.

Lemma updateCharacterMovement_character (deltaTime : R) (w : World) :
  character (updateCharacterMovement deltaTime w) = character w
  /\ carModel (updateCharacterMovement deltaTime w) = carModel w.
Proof.
  unfold updateCharacterMovement, jumpPhysics.
  repeat (case_match || case_decide); split; reflexivity.
Qed.

(** One frame of a jump: it either lands or integrates height and velocity. *)
Lemma jump_frame (deltaTime : R) (w : World) :
  isJumping w = true ->
  let w' := updateCharacterMovement deltaTime w in
  let y1 := characterY w + velocityY w * deltaTime in
  (y1 <= characterFeetY ->
   isJumping w' = false /\ velocityY w' = 0 /\ characterY w' = characterFeetY)
  /\ (characterFeetY < y1 ->
      isJumping w' = true /\ velocityY w' = velocityY w - gravity * deltaTime
      /\ characterY w' = y1).
Proof.
  intros Hjump w' y1. subst w' y1. unfold characterY.
  rewrite (proj1 (updateCharacterMovement_character deltaTime w)).
  unfold updateCharacterMovement, jumpPhysics. cbv zeta. rewrite Hjump.
  rewrite moveCharacter_y.
  split; intros Hy; case_decide; try lra;
    cbn [isJumping velocityY objs withJump withObjs]; rewrite alter_same;
    repeat split; reflexivity.
Qed.

(** On the ground, or anywhere above it, a character that is not jumping
    keeps its height and its vertical state through a frame: gravity acts
    only during a jump. *)
Theorem no_gravity_outside_a_jump (deltaTime : R) (w : World) :
  isJumping w = false ->
  characterFeetY <= characterY w ->
  let w' := updateCharacterMovement deltaTime w in
  characterY w' = characterY w /\ isJumping w' = false /\ velocityY w' = velocityY w.
Proof.
  intros Hground Hy w'. subst w'. unfold characterY in *.
  rewrite (proj1 (updateCharacterMovement_character deltaTime w)).
  unfold updateCharacterMovement.
  rewrite jumpPhysics_grounded; [|exact Hground|rewrite moveCharacter_y; exact Hy].
  split; [apply moveCharacter_y|].
  unfold jumpPhysics. cbv zeta. rewrite Hground.
  rewrite (bool_decide_eq_false_2
             (Vector3.y (Object3D.position (moveCharacter deltaTime w (character w)))
              < characterFeetY)) by (rewrite moveCharacter_y; lra).
  cbn [andb]. case_decide as Hfall.
  - rewrite moveCharacter_y in Hfall. unfold characterFeetY in Hy. lra.
  - split; reflexivity.
Qed.

(** A hovering character: 5 above the ground and not jumping. *)
Example no_gravity_outside_a_jump_witness :
  let w := Demo.world (Vector3.mk 2 5 2) (Vector3.mk 0 0 2) 0 false 0 Demo.forwardKey in
  (isJumping w = false /\ characterFeetY <= characterY w)
  /\ characterY (updateCharacterMovement 0.5 w) = 5.
Proof.
  intros w.
  assert (Hground : isJumping w = false) by reflexivity.
  assert (Hy : characterFeetY <= characterY w).
  { unfold characterFeetY, characterY; simpl. lra. }
  split; [split; assumption|].
  destruct (no_gravity_outside_a_jump 0.5 w Hground Hy) as [Hsame _].
  rewrite Hsame. reflexivity.
Defined.

(** A frame never takes a character that is at or above the ground below
    it, and it keeps the rule that a character not in a jump has no vertical
    velocity. *)
Theorem character_stays_above_ground (deltaTime : R) (w : World) :
  characterFeetY <= characterY w ->
  let w' := updateCharacterMovement deltaTime w in
  characterFeetY <= characterY w'
  /\ ((isJumping w = false -> velocityY w = 0) ->
      isJumping w' = false -> velocityY w' = 0).
Proof.
  intros Hy w'. subst w'.
  destruct (isJumping w) eqn:Hjump.
  - destruct (jump_frame deltaTime w Hjump) as [Hland Hfly]. cbv zeta in Hland, Hfly.
    destruct (Rle_dec (characterY w + velocityY w * deltaTime) characterFeetY)
      as [Hdown|Hup].
    + destruct (Hland Hdown) as (_ & Hv & Hy'). split; [lra|]. intros _ _. exact Hv.
    + destruct (Hfly ltac:(lra)) as (Hj & _ & Hy'). split; [lra|].
      intros _ Hfalse. rewrite Hj in Hfalse. discriminate.
  - destruct (no_gravity_outside_a_jump deltaTime w Hjump Hy) as (Hy' & _ & Hv).
    split; [lra|]. intros Hrest _. rewrite Hv. apply Hrest. reflexivity.
Qed.

Example character_stays_above_ground_witness :
  let w := Demo2.takingOff in
  characterFeetY <= characterY w
  /\ characterFeetY <= characterY (updateCharacterMovement 10 w).
Proof.
  intros w.
  assert (Hy : characterFeetY <= characterY w).
  { unfold characterFeetY, characterY; simpl. lra. }
  split; [exact Hy|].
  destruct (character_stays_above_ground 10 w Hy) as [Habove _]. exact Habove.
Defined.

(** Below the fall threshold and not in a jump, the frame puts the
    character beside the car, 5 above the ground, with its vertical state
    reset; as gravity acts only during a jump, it is still at that height
    after the next frame. *)
Theorem fall_respawn_hovers (deltaTime nextDeltaTime : R) (w : World) :
  isJumping w = false ->
  characterY w < -50 ->
  character w <> carModel w ->
  let w' := updateCharacterMovement deltaTime w in
  let car := Object3D.position (objs w (carModel w)) in
  Object3D.position (objs w' (character w))
  = Vector3.mk (Vector3.x car + 3) (characterFeetY + 5) (Vector3.z car)
  /\ isJumping w' = false /\ velocityY w' = 0
  /\ characterY (updateCharacterMovement nextDeltaTime w') = characterFeetY + 5.
Proof.
  intros Hground Hy Hne w' car.
  assert (Hmoved : forall o, o <> character w -> moveCharacter deltaTime w o = objs w o).
  { intros o Ho. unfold moveCharacter. destruct (snd (movementDirection w)); [|reflexivity].
    cbv zeta. rewrite alter_other by congruence.
    destruct (collides _ _); cbn [negb]; [reflexivity|].
    apply alter_other. congruence. }
  assert (Hw' : Object3D.position (objs w' (character w))
                = Vector3.mk (Vector3.x car + 3) (characterFeetY + 5) (Vector3.z car)
                /\ isJumping w' = false /\ velocityY w' = 0).
  { subst w' car. unfold updateCharacterMovement, jumpPhysics. cbv zeta.
    rewrite Hground. unfold characterY in Hy.
    rewrite (bool_decide_eq_false_2
               (Vector3.y (Object3D.position (moveCharacter deltaTime w (character w)))
                > -5)) by (rewrite moveCharacter_y; lra).
    rewrite andb_false_r.
    rewrite decide_True by (rewrite moveCharacter_y; lra).
    cbn [isJumping velocityY objs withJump withObjs].
    rewrite alter_same. cbn [Object3D.setPosition Object3D.position].
    rewrite (Hmoved (carModel w)) by congruence.
    repeat split; reflexivity. }
  destruct Hw' as (Hpos & Hj & Hv).
  split; [exact Hpos|]. split; [exact Hj|]. split; [exact Hv|].
  assert (Hch : character w' = character w)
    by apply (updateCharacterMovement_character deltaTime w).
  assert (Hy' : characterY w' = characterFeetY + 5).
  { unfold characterY. rewrite Hch, Hpos. reflexivity. }
  destruct (no_gravity_outside_a_jump nextDeltaTime w' Hj) as (Hsame & _).
  { rewrite Hy'. lra. }
  rewrite Hsame. exact Hy'.
Qed.

Example fall_respawn_hovers_witness :
  let w := Demo2.fallen in
  (isJumping w = false /\ characterY w < -50 /\ character w <> carModel w)
  /\ characterY (updateCharacterMovement 0.016 (updateCharacterMovement 0.016 w))
     = characterFeetY + 5.
Proof.
  intros w.
  assert (Hground : isJumping w = false) by reflexivity.
  assert (Hy : characterY w < -50) by (unfold characterY; simpl; lra).
  assert (Hne : character w <> carModel w) by discriminate.
  split; [split; [exact Hground|split; [exact Hy|exact Hne]]|].
  destruct (fall_respawn_hovers 0.016 0.016 w Hground Hy Hne) as (_ & _ & _ & Hhover).
  exact Hhover.
Defined.

(** While the jump lasts, frame [k] has the height and velocity of the
    explicit Euler scheme; otherwise it has landed at some earlier frame. *)
Lemma jump_trajectory (deltaTime : R) (w : World) (k : nat) :
  isJumping w = true ->
  let frames n := Nat.iter n (updateCharacterMovement deltaTime) w in
  (exists j, (j <= k)%nat /\ isJumping (frames j) = false
             /\ characterY (frames j) = characterFeetY /\ velocityY (frames j) = 0)
  \/ (isJumping (frames k) = true
      /\ velocityY (frames k) = velocityY w - gravity * deltaTime * INR k
      /\ characterY (frames k)
         = characterY w + velocityY w * deltaTime * INR k
           - gravity / 2 * deltaTime * deltaTime * (INR k * (INR k - 1))
      /\ ((0 < k)%nat -> characterFeetY < characterY (frames k))).
Proof.
  intros Hjump frames. induction k as [|k IH].
  - right. subst frames. unfold Nat.iter. cbn [nat_rect INR].
    split; [exact Hjump|]. split; [lra|]. split; [lra|]. intros Hk. lia.
  - destruct IH as [(j & Hj & Hlanded)|(Hair & Hv & Hy & _)].
    + left. exists j. split; [lia|exact Hlanded].
    + assert (Hnext : frames (S k) = updateCharacterMovement deltaTime (frames k))
        by reflexivity.
      destruct (jump_frame deltaTime (frames k) Hair) as [Hland Hfly].
      cbv zeta in Hland, Hfly. rewrite <- Hnext in Hland, Hfly.
      destruct (Rle_dec (characterY (frames k) + velocityY (frames k) * deltaTime)
                        characterFeetY) as [Hdown|Hup].
      * left. exists (S k). destruct (Hland Hdown) as (Hj' & Hv' & Hy').
        split; [lia|]. split; [exact Hj'|]. split; [exact Hy'|exact Hv'].
      * right. destruct (Hfly ltac:(lra)) as (Hj' & Hv' & Hy').
        split; [exact Hj'|]. rewrite S_INR.
        split; [rewrite Hv', Hv; lra|].
        split; [rewrite Hy', Hy, Hv; lra|].
        intros _. rewrite Hy'. lra.
Qed.

(** With any positive frame time every jump ends: after finitely many
    frames the character is back on the ground, not jumping, at rest. *)
Theorem every_jump_lands (deltaTime : R) (w : World) :
  0 < deltaTime ->
  isJumping w = true ->
  exists n,
    let w' := Nat.iter n (updateCharacterMovement deltaTime) w in
    isJumping w' = false /\ characterY w' = characterFeetY /\ velocityY w' = 0.
Proof.
  intros Hdt Hjump.
  set (a := gravity / 2 * deltaTime * deltaTime).
  set (b := velocityY w * deltaTime).
  set (c := characterY w).
  assert (Ha : 0 < a) by (subst a; unfold gravity; nra).
  set (q := (Rabs b + Rabs c) / a).
  assert (Hq : 0 <= q).
  { subst q. apply Rmult_le_pos.
    - pose proof (Rabs_pos b). pose proof (Rabs_pos c). lra.
    - left. apply Rinv_0_lt_compat. exact Ha. }
  destruct (archimed q) as [Hup _].
  set (M := Z.to_nat (up q)).
  assert (HM : q < INR M).
  { subst M. rewrite INR_IZR_INZ, Z2Nat.id; [exact Hup|].
    apply le_IZR. lra. }
  assert (Hbound : Rabs b + Rabs c < a * INR M).
  { assert (Hqa : q * a = Rabs b + Rabs c) by (subst q; field; lra).
    rewrite <- Hqa. nra. }
  destruct (jump_trajectory deltaTime w (S M) Hjump) as [(j & _ & Hlanded)|Hair].
  - exists j. cbv zeta. destruct Hlanded as (Hj & Hy & Hv).
    split; [exact Hj|]. split; [exact Hy|exact Hv].
  - exfalso. destruct Hair as (_ & _ & Hy & Habove).
    specialize (Habove ltac:(lia)). rewrite Hy in Habove.
    rewrite S_INR in Habove. unfold characterFeetY in Habove.
    fold c in Habove.
    replace (velocityY w * deltaTime * (INR M + 1)) with (b * (INR M + 1)) in Habove
      by (subst b; ring).
    replace (gravity / 2 * deltaTime * deltaTime * ((INR M + 1) * (INR M + 1 - 1)))
      with ((INR M + 1) * (a * INR M)) in Habove by (subst a; ring).
    pose proof (pos_INR M) as HM0.
    pose proof (Rle_abs b) as Hb. pose proof (Rle_abs c) as Hc.
    pose proof (Rabs_pos b) as Hb0. pose proof (Rabs_pos c) as Hc0.
    assert (H1 : b * (INR M + 1) <= Rabs b * (INR M + 1)) by nra.
    assert (H2 : (INR M + 1) * (Rabs b + Rabs c) <= (INR M + 1) * (a * INR M)) by nra.
    nra.
Qed.

Example every_jump_lands_witness :
  let w := Demo2.takingOff in
  (0 < 0.016 /\ isJumping w = true)
  /\ exists n, isJumping (Nat.iter n (updateCharacterMovement 0.016) w) = false.
Proof.
  intros w.
  assert (Hdt : 0 < 0.016) by lra.
  assert (Hjump : isJumping w = true) by reflexivity.
  split; [split; assumption|].
  destruct (every_jump_lands 0.016 w Hdt Hjump) as (n & Hlanded & _).
  exists n. exact Hlanded.
Defined.

End Jumping.

(** ** The sky *)

Section Sky.

Lemma updateDayNightCycle_wiring (deltaTime : R) (w : World) :
  sunMoonLight (updateDayNightCycle deltaTime w) = sunMoonLight w
  /\ streetLights (updateDayNightCycle deltaTime w) = streetLights w
  /\ currentTimeOfDaySeconds (updateDayNightCycle deltaTime w)
     = advanceTimeOfDay deltaTime w.
Proof. repeat split; reflexivity. Qed.

(** The sun/moon light after a frame, from the phase of the cycle. *)
Lemma sun_position (deltaTime : R) (w : World) :
  let w' := updateDayNightCycle deltaTime w in
  let angle := currentTimeOfDaySeconds w' / cycleDurationSeconds * PI * 2 in
  Object3D.position (objs w' (sunMoonLight w'))
  = Vector3.mk (cos (angle - PI / 2) * 70) (sin (angle - PI / 2) * 70) 30.
Proof.
  intros w' angle. subst w' angle. unfold updateDayNightCycle. cbv zeta.
  cbn [objs sunMoonLight currentTimeOfDaySeconds withDay withObjs].
  rewrite (foldl_keeps (fun st : Store => Object3D.position (st (sunMoonLight w))));
    [|intros st light; apply (alter_keeps Object3D.position); reflexivity].
  rewrite alter_same. reflexivity.
Qed.

(** The sun/moon light moves on a circle of radius 70 in the plane z = 30,
    a full turn per cycle. Its height is minus the cosine of the cycle's
    angle: lowest at phase 0, on the horizon at a quarter, highest at half
    the cycle. *)
Theorem sun_moves_on_a_circle (deltaTime : R) (w : World) :
  let w' := updateDayNightCycle deltaTime w in
  let angle := currentTimeOfDaySeconds w' / cycleDurationSeconds * PI * 2 in
  let sun := Object3D.position (objs w' (sunMoonLight w')) in
  Vector3.x sun = 70 * sin angle
  /\ Vector3.y sun = - 70 * cos angle
  /\ Vector3.z sun = 30
  /\ Vector3.x sun * Vector3.x sun + Vector3.y sun * Vector3.y sun = 70 * 70.
Proof.
  intros w' angle sun. subst sun. pose proof (sun_position deltaTime w) as Hsun.
  cbv zeta in Hsun. fold w' in Hsun. fold angle in Hsun. rewrite Hsun.
  cbn [Vector3.x Vector3.y Vector3.z].
  rewrite cos_minus, sin_minus, cos_PI2, sin_PI2.
  pose proof (sin2_cos2 angle) as Hunit. unfold Rsqr in Hunit.
  split; [ring|]. split; [ring|]. split; [reflexivity|].
  replace ((cos angle * 0 + sin angle * 1) * 70 * ((cos angle * 0 + sin angle * 1) * 70)
           + (sin angle * 0 - cos angle * 1) * 70 * ((sin angle * 0 - cos angle * 1) * 70))
    with (70 * 70 * (sin angle * sin angle + cos angle * cos angle)) by ring.
  rewrite Hunit. ring.
Qed.

(** With a clock that does not run backwards, the sun/moon light is above
    the horizon exactly in the second and third quarter of the cycle; in
    particular it is still on the horizon at phase 0.25, where the keyframes
    already give full daylight. *)
Theorem sun_above_horizon_mid_cycle (deltaTime : R) (w : World) :
  0 <= currentTimeOfDaySeconds w ->
  0 <= deltaTime ->
  let w' := updateDayNightCycle deltaTime w in
  let phase := currentTimeOfDaySeconds w' / cycleDurationSeconds in
  0 < Vector3.y (Object3D.position (objs w' (sunMoonLight w')))
  <-> 0.25 < phase < 0.75.
Proof.
  intros Ht Hdt w' phase.
  pose proof (sun_position deltaTime w) as Hsun. cbv zeta in Hsun.
  fold w' in Hsun. fold phase in Hsun. rewrite Hsun. cbn [Vector3.y].
  rewrite sin_minus, cos_PI2, sin_PI2.
  assert (Hphase : 0 <= phase < 1).
  { subst phase w'. destruct (updateDayNightCycle_wiring deltaTime w) as (_ & _ & ->).
    pose proof (advanceTimeOfDay_range deltaTime w Ht Hdt) as Hrange.
    unfold cycleDurationSeconds in *. lra. }
  pose proof PI_RGT_0 as Hpi.
  set (angle := phase * PI * 2).
  destruct (Rle_dec phase 0.25) as [Hearly|Hafter].
  - assert (Hcos : 0 <= cos angle) by (apply cos_ge_0; subst angle; nra).
    split; [intros Hy; exfalso; nra|intros Hmid; lra].
  - destruct (Rle_dec 0.75 phase) as [Hlate|Hbefore].
    + assert (Hcos : 0 <= cos angle).
      { apply cos_ge_0_3PI2; subst angle; nra. }
      split; [intros Hy; exfalso; nra|intros Hmid; lra].
    + assert (Hcos : cos angle < 0) by (apply cos_lt_0; subst angle; nra).
      split; [intros _; lra|intros _; nra].
Qed.

(** A frame that brings the demo world to three eighths of the cycle. *)
Example sun_above_horizon_mid_cycle_witness :
  let w := Demo.atStart in
  (0 <= currentTimeOfDaySeconds w /\ 0 <= 15)
  /\ 0 < Vector3.y (Object3D.position
                      (objs (updateDayNightCycle 15 w)
                            (sunMoonLight (updateDayNightCycle 15 w)))).
Proof.
  intros w.
  assert (Ht : 0 <= currentTimeOfDaySeconds w).
  { unfold w, Demo.atStart, Demo.world, cycleDurationSeconds; simpl. lra. }
  assert (Hdt : 0 <= 15) by lra.
  split; [split; assumption|].
  apply (sun_above_horizon_mid_cycle 15 w Ht Hdt).
  destruct (updateDayNightCycle_wiring 15 w) as (_ & _ & ->).
  unfold advanceTimeOfDay.
  replace (currentTimeOfDaySeconds w + 15) with 45
    by (unfold w, Demo.atStart, Demo.world, cycleDurationSeconds; simpl; lra).
  rewrite rem_small by (unfold cycleDurationSeconds; lra).
  unfold cycleDurationSeconds. lra.
Defined.

(** In every phase of the cycle the interpolated intensities lie between
    the smallest and the largest keyframe value. *)
Lemma interpolateFrames_bounds (phase : R) :
  0 <= phase < 1 ->
  0.1 <= sunIntensity (interpolateFrames phase) <= 1
  /\ 0.1 <= ambientIntensity (interpolateFrames phase) <= 0.8.
Proof.
  intros Hphase. unfold interpolateFrames, boundingFrames. simpl.
  repeat case_decide; simpl in *; unfold lerpScalar; lra.
Qed.

(** With a clock that does not run backwards, a frame leaves the sun/moon
    light's intensity in [0.1, 1] and the ambient light's in [0.1, 0.8]. *)
Theorem light_intensities_bounded (deltaTime : R) (w : World) :
  0 <= currentTimeOfDaySeconds w ->
  0 <= deltaTime ->
  distinctLights w ->
  let w' := updateDayNightCycle deltaTime w in
  0.1 <= Object3D.intensity (objs w' (sunMoonLight w)) <= 1
  /\ 0.1 <= Object3D.intensity (objs w' (ambientLight w)) <= 0.8.
Proof.
  intros Ht Hdt Hlights w'.
  destruct (updateDayNightCycle_lights deltaTime w Hlights)
    as (Hnow & Hsun & _ & Hambient & _).
  cbv zeta in Hnow, Hsun, Hambient. fold w' in Hnow, Hsun, Hambient.
  rewrite Hsun, Hambient. apply interpolateFrames_bounds.
  rewrite Hnow. pose proof (advanceTimeOfDay_range deltaTime w Ht Hdt) as Hrange.
  unfold cycleDurationSeconds in *. lra.
Qed.

Example light_intensities_bounded_witness :
  let w := Demo.atStart in
  (0 <= currentTimeOfDaySeconds w /\ 0 <= 100 /\ distinctLights w)
  /\ 0.1 <= Object3D.intensity (objs (updateDayNightCycle 100 w) (sunMoonLight w)) <= 1.
Proof.
  intros w.
  assert (Ht : 0 <= currentTimeOfDaySeconds w).
  { unfold w, Demo.atStart, Demo.world, cycleDurationSeconds; simpl. lra. }
  assert (Hdt : 0 <= 100) by lra.
  assert (Hlights : distinctLights w) by apply demo_lights.
  split; [split; [exact Ht|split; [exact Hdt|exact Hlights]]|].
  destruct (light_intensities_bounded 100 w Ht Hdt Hlights) as [Hsun _]. exact Hsun.
Defined.

(** What a frame writes to a street light. *)
Lemma streetLight_after_frame (deltaTime : R) (w : World) (light : ObjId) :
  distinctLights w ->
  NoDup (streetLights w) ->
  light ∈ streetLights w ->
  let w' := updateDayNightCycle deltaTime w in
  let target :=
    if decide (Object3D.intensity (objs w' (sunMoonLight w)) < 0.3) then 1.5 else 0 in
  Object3D.intensity (objs w' light)
  = lerpScalar (Object3D.intensity (objs w light)) target deltaTime.
Proof.
  intros (Hne & Hsun & Hambient) Hnodup Hin w' target. subst w' target.
  unfold updateDayNightCycle. cbv zeta. cbn [objs withDay withObjs].
  rewrite (foldl_alter_outside _ _ _ (sunMoonLight w)) by assumption.
  rewrite (foldl_alter_NoDup _ _ _ light) by assumption.
  rewrite decide_True by assumption.
  cbn [Object3D.intensity Object3D.setIntensity].
  assert (Hls : sunMoonLight w <> light) by (intros <-; contradiction).
  assert (Hla : ambientLight w <> light) by (intros <-; contradiction).
  rewrite !(alter_other _ _ _ light) by assumption.
  replace (deltaTime * 1.0) with deltaTime by lra.
  f_equal. case_bool_decide; case_decide; try reflexivity; contradiction.
Qed.

(** With frame times of at most a second, a street light eases towards its
    target, 1.5 while the sun/moon light is dimmer than 0.3 and 0 otherwise,
    without passing it: its intensity stays between the old value and the
    target, hence in [0, 1.5] once it is there. *)
Theorem street_lights_ease_without_overshoot (deltaTime : R) (w : World)
    (light : ObjId) :
  distinctLights w ->
  NoDup (streetLights w) ->
  light ∈ streetLights w ->
  0 <= deltaTime <= 1 ->
  let w' := updateDayNightCycle deltaTime w in
  let target :=
    if decide (Object3D.intensity (objs w' (sunMoonLight w)) < 0.3) then 1.5 else 0 in
  let before := Object3D.intensity (objs w light) in
  let after := Object3D.intensity (objs w' light) in
  Rmin before target <= after <= Rmax before target
  /\ (0 <= before <= 1.5 -> 0 <= after <= 1.5).
Proof.
  intros Hlights Hnodup Hin Hdt w' target before after.
  pose proof (streetLight_after_frame deltaTime w light Hlights Hnodup Hin) as Hafter.
  cbv zeta in Hafter. fold w' in Hafter. fold target in Hafter.
  fold before in Hafter. fold after in Hafter.
  assert (Htarget : target = 1.5 \/ target = 0).
  { subst target. case_decide; [left|right]; reflexivity. }
  rewrite Hafter. unfold lerpScalar.
  split.
  - unfold Rmin, Rmax. destruct (Rle_dec before target); nra.
  - intros Hbefore. destruct Htarget as [-> | ->]; nra.
Qed.

Example street_lights_ease_without_overshoot_witness :
  let w := Demo.atStart in
  (distinctLights w /\ NoDup (streetLights w) /\ Demo.lanternLightId ∈ streetLights w
   /\ 0 <= 0.5 <= 1)
  /\ 0 <= Object3D.intensity (objs (updateDayNightCycle 0.5 w) Demo.lanternLightId) <= 1.5.
Proof.
  intros w.
  assert (Hlights : distinctLights w) by apply demo_lights.
  assert (Hnodup : NoDup (streetLights w)).
  { apply NoDup_cons. split; [apply not_elem_of_nil|apply NoDup_nil_2]. }
  assert (Hin : Demo.lanternLightId ∈ streetLights w) by (apply elem_of_cons; left; reflexivity).
  assert (Hdt : 0 <= 0.5 <= 1) by lra.
  split; [split; [exact Hlights|split; [exact Hnodup|split; [exact Hin|exact Hdt]]]|].
  destruct (street_lights_ease_without_overshoot 0.5 w Demo.lanternLightId
              Hlights Hnodup Hin Hdt) as [_ Hrange].
  apply Hrange. simpl. lra.
Defined.

(** A frame longer than a second carries a street light past its target:
    by day a lit lantern gets a negative intensity, by night a dark one gets
    more than 1.5. The frame time is the clock's and is not capped. *)
Theorem street_lights_overshoot_on_long_frames (deltaTime : R) (w : World)
    (light : ObjId) :
  distinctLights w ->
  NoDup (streetLights w) ->
  light ∈ streetLights w ->
  1 < deltaTime ->
  let w' := updateDayNightCycle deltaTime w in
  let night := Object3D.intensity (objs w' (sunMoonLight w)) < 0.3 in
  let before := Object3D.intensity (objs w light) in
  let after := Object3D.intensity (objs w' light) in
  (~ night -> 0 < before -> after < 0)
  /\ (night -> before < 1.5 -> 1.5 < after).
Proof.
  intros Hlights Hnodup Hin Hdt w' night before after.
  pose proof (streetLight_after_frame deltaTime w light Hlights Hnodup Hin) as Hafter.
  cbv zeta in Hafter. fold w' in Hafter. fold before in Hafter. fold after in Hafter.
  fold night in Hafter. unfold lerpScalar in Hafter.
  split; intros Hnight Hbefore; rewrite Hafter; case_decide; try contradiction; nra.
Qed.

(** The demo world at a quarter of the cycle, with its lantern lit: after a
    frame of two seconds it is daylight and the lantern's intensity is
    negative. *)
Example street_lights_overshoot_on_long_frames_witness :
  let w := Demo.atStart in
  (distinctLights w /\ NoDup (streetLights w) /\ Demo.lanternLightId ∈ streetLights w
   /\ 1 < 2)
  /\ Object3D.intensity (objs (updateDayNightCycle 2 w) Demo.lanternLightId) < 0.
Proof.
  intros w.
  assert (Hlights : distinctLights w) by apply demo_lights.
  assert (Hnodup : NoDup (streetLights w)).
  { apply NoDup_cons. split; [apply not_elem_of_nil|apply NoDup_nil_2]. }
  assert (Hin : Demo.lanternLightId ∈ streetLights w) by (apply elem_of_cons; left; reflexivity).
  assert (Hdt : 1 < 2) by lra.
  split; [split; [exact Hlights|split; [exact Hnodup|split; [exact Hin|exact Hdt]]]|].
  destruct (street_lights_overshoot_on_long_frames 2 w Demo.lanternLightId
              Hlights Hnodup Hin Hdt) as [Hday _].
  apply Hday; [|simpl; lra].
  destruct (updateDayNightCycle_lights 2 w Hlights) as (Hnow & Hsun & _).
  cbv zeta in Hnow, Hsun. rewrite Hsun, Hnow.
  unfold advanceTimeOfDay.
  replace (currentTimeOfDaySeconds w + 2) with 32
    by (unfold w, Demo.atStart, Demo.world, cycleDurationSeconds; simpl; lra).
  rewrite rem_small by (unfold cycleDurationSeconds; lra).
  assert (Hframes : boundingFrames (32 / cycleDurationSeconds) = (keyframe2, keyframe3)).
  { unfold boundingFrames, cycleDurationSeconds; simpl. rcases; reflexivity. }
  unfold interpolateFrames. rewrite Hframes.
  cbn [fst snd sunIntensity keyframe2 keyframe3]. rewrite lerpScalar_same. lra.
Defined.

End Sky.

(** ** Coins *)

Section Coins.

Lemma filter_agree {A : Type} (P Q : A -> Prop) `{!forall x, Decision (P x)}
    `{!forall x, Decision (Q x)} (l : list A) :
  (forall x, x ∈ l -> P x <-> Q x) -> filter P l = filter Q l.
Proof.
  induction l as [|a l IH]; intros Hagree; [reflexivity|].
  rewrite !filter_cons.
  assert (Ha : P a <-> Q a) by (apply Hagree; left).
  rewrite IH by (intros x Hx; apply Hagree; right; exact Hx).
  destruct (decide (P a)) as [Hp|Hp], (decide (Q a)) as [Hq|Hq]; tauto.
Qed.

Lemma filter_none {A : Type} (P : A -> Prop) `{!forall x, Decision (P x)} (l : list A) :
  length (filter P l) = 0%nat <-> forall x, x ∈ l -> ~ P x.
Proof.
  induction l as [|a l IH].
  - split; [intros _ x Hx; inversion Hx|reflexivity].
  - rewrite filter_cons. destruct (decide (P a)) as [Hp|Hp].
    + split; [discriminate|]. intros Hnone. exfalso. apply (Hnone a); [left|exact Hp].
    + rewrite IH. split.
      * intros Hnone x Hx. apply elem_of_cons in Hx as [-> | Hx]; [exact Hp|].
        apply Hnone. exact Hx.
      * intros Hnone x Hx. apply Hnone. right. exact Hx.
Qed.

(** One round of the loop, by cases. *)
Lemma collectCoin_cases (p : ObjId) (w : World) (coin : ObjId) :
  let near :=
    Vector3.distanceTo (Object3D.position (objs w p)) (Object3D.position (objs w coin))
    < coinCollectionDistance in
  (Object3D.visible (objs w coin) = true /\ near
   /\ objs (collectCoin p w coin) = alter (Object3D.setVisible false) coin (objs w)
   /\ collectedCoinsCount (collectCoin p w coin) = (collectedCoinsCount w + 1)%Z
   /\ (respawnAllCoinsTimeout (collectCoin p w coin) = true
       <-> respawnAllCoinsTimeout w = true
           \/ forall c, c ∈ coins w ->
                Object3D.visible (objs (collectCoin p w coin) c) = false))
  \/ (~ (Object3D.visible (objs w coin) = true /\ near) /\ collectCoin p w coin = w).
Proof.
  intros near. subst near. unfold collectCoin. cbv zeta.
  destruct (Object3D.visible (objs w coin)) eqn:Hvisible; cbn [andb].
  - case_bool_decide as Hnear.
    + left. split; [reflexivity|]. split; [exact Hnear|].
      cbn [objs collectedCoinsCount respawnAllCoinsTimeout withCoins withObjs].
      split; [reflexivity|]. split; [reflexivity|].
      case_decide as Hactive.
      * split; [intros _|reflexivity]. right. intros c Hc.
        apply filter_none with (x := c) in Hactive; [|exact Hc].
        apply not_true_is_false. exact Hactive.
      * split; [intros Ht; left; exact Ht|]. intros [Ht|Hnone]; [exact Ht|].
        exfalso. apply Hactive. apply filter_none. intros c Hc Hv.
        rewrite (Hnone c Hc) in Hv. discriminate.
    + right. split; [intros [_ Hn]; contradiction|reflexivity].
  - right. split; [intros [Hv _]; discriminate|reflexivity].
Qed.

Lemma collectCoin_wiring (p : ObjId) (w : World) (coin : ObjId) :
  coins (collectCoin p w coin) = coins w
  /\ forall o, Object3D.position (objs (collectCoin p w coin) o)
               = Object3D.position (objs w o).
Proof.
  destruct (collectCoin_cases p w coin) as [(_ & _ & Hobjs & _)|[_ ->]];
    [|split; reflexivity].
  split; [unfold collectCoin; case_match; reflexivity|].
  intros o. rewrite Hobjs. apply (alter_keeps Object3D.position). reflexivity.
Qed.

(** The loop over a list of distinct coins. *)
Lemma foldl_collectCoin (p : ObjId) (l : list ObjId) :
  forall w : World,
    NoDup l ->
    let w' := foldl (collectCoin p) w l in
    let near c :=
      Vector3.distanceTo (Object3D.position (objs w p)) (Object3D.position (objs w c))
      < coinCollectionDistance in
    coins w' = coins w
    /\ (forall o, Object3D.position (objs w' o) = Object3D.position (objs w o))
    /\ (forall o, Object3D.visible (objs w' o)
                  = if decide (o ∈ l)
                    then Object3D.visible (objs w o) && negb (bool_decide (near o))
                    else Object3D.visible (objs w o))
    /\ collectedCoinsCount w'
       = (collectedCoinsCount w
          + Z.of_nat (length (filter (fun c => Object3D.visible (objs w c) = true /\ near c)
                                     l)))%Z.
Proof.
  induction l as [|coin l IH]; intros w Hnodup; cbn [foldl].
  - cbv zeta. split; [reflexivity|]. split; [reflexivity|].
    split; [|rewrite filter_nil; simpl; lia].
    intros o. rewrite decide_False by apply not_elem_of_nil. reflexivity.
  - apply NoDup_cons in Hnodup as [Hfresh Hnodup].
    specialize (IH (collectCoin p w coin) Hnodup). cbv zeta in IH |- *.
    destruct IH as (Hcoins & Hpos & Hvis & Hcount).
    destruct (collectCoin_wiring p w coin) as [Hcoins1 Hpos1].
    assert (Hrest : forall c, c ∈ l ->
              Object3D.visible (objs (collectCoin p w coin) c)
              = Object3D.visible (objs w c)).
    { intros c Hc.
      destruct (collectCoin_cases p w coin) as [(_ & _ & Hobjs & _)|[_ ->]];
        [|reflexivity].
      rewrite Hobjs, alter_other; [reflexivity|]. intros ->. contradiction. }
    split; [rewrite Hcoins; exact Hcoins1|].
    split; [intros o; rewrite Hpos; apply Hpos1|].
    split.
    + intros o. rewrite Hvis, !Hpos1.
      destruct (decide (o ∈ l)) as [Hin|Hout].
      * rewrite decide_True by (right; exact Hin). rewrite (Hrest o Hin). reflexivity.
      * destruct (decide (o = coin)) as [->|Hne].
        -- rewrite decide_True by left.
           cbv zeta in *.
           destruct (collectCoin_cases p w coin) as [(Hv & Hn & Hobjs & _)|[Hno ->]].
           ++ rewrite Hobjs, alter_same, Hv. cbn [Object3D.visible Object3D.setVisible].
              rewrite bool_decide_eq_true_2 by exact Hn. reflexivity.
           ++ destruct (Object3D.visible (objs w coin)); [|reflexivity].
              rewrite bool_decide_eq_false_2; [reflexivity|].
              intros Hn. apply Hno. split; [reflexivity|exact Hn].
        -- rewrite decide_False.
           ++ destruct (collectCoin_cases p w coin) as [(_ & _ & Hobjs & _)|[_ ->]];
                [|reflexivity].
              rewrite Hobjs, alter_other by congruence. reflexivity.
           ++ intros Hin. apply elem_of_cons in Hin as [Heq|Hin]; contradiction.
    + rewrite Hcount, filter_cons.
      rewrite (filter_agree
                 (fun c => Object3D.visible (objs (collectCoin p w coin) c) = true
                           /\ Vector3.distanceTo
                                (Object3D.position (objs (collectCoin p w coin) p))
                                (Object3D.position (objs (collectCoin p w coin) c))
                              < coinCollectionDistance)
                 (fun c => Object3D.visible (objs w c) = true
                           /\ Vector3.distanceTo
                                (Object3D.position (objs w p))
                                (Object3D.position (objs w c))
                              < coinCollectionDistance)).
      * destruct (collectCoin_cases p w coin) as [(Hv & Hn & _ & Hc & _)|[Hno ->]].
        -- rewrite decide_True by (split; [exact Hv|exact Hn]).
           rewrite Hc. cbn [length]. lia.
        -- rewrite decide_False by exact Hno. lia.
      * intros c Hc. rewrite (Hrest c Hc), !Hpos1. reflexivity.
Qed.

(** In one call every visible coin in reach of the player is hidden and
    counted once, every other coin keeps its visibility, and no object
    moves. The coins are distinct objects, as [createAndPlaceCoins] makes
    them. *)
Theorem checkCoinCollection_takes_coins_in_reach (w : World) :
  NoDup (coins w) ->
  let w' := checkCoinCollection w in
  (forall coin, coin ∈ coins w ->
     Object3D.visible (objs w' coin)
     = Object3D.visible (objs w coin) && negb (bool_decide (inReach w coin)))
  /\ collectedCoinsCount w'
     = (collectedCoinsCount w
        + Z.of_nat (length (filter (fun coin => Object3D.visible (objs w coin) = true
                                                /\ inReach w coin)
                                   (coins w))))%Z
  /\ (forall o, Object3D.position (objs w' o) = Object3D.position (objs w o)).
Proof.
  intros Hnodup w'.
  destruct (foldl_collectCoin (player w) (coins w) w Hnodup) as (_ & Hpos & Hvis & Hcount).
  cbv zeta in Hpos, Hvis, Hcount.
  split; [|split; [exact Hcount|exact Hpos]].
  intros coin Hin. subst w'. unfold checkCoinCollection. cbv zeta.
  fold (player w). rewrite Hvis, decide_True by exact Hin. reflexivity.
Qed.

(** The demo world with the player two thirds of a unit from its coin. *)
Example checkCoinCollection_takes_coins_in_reach_witness :
  let w := Demo2.atTheCoin in
  NoDup (coins w)
  /\ Object3D.visible (objs (checkCoinCollection w) Demo.coinId) = false
  /\ collectedCoinsCount (checkCoinCollection w) = 1%Z.
Proof.
  intros w.
  assert (Hnodup : NoDup (coins w)).
  { apply NoDup_cons. split; [apply not_elem_of_nil|apply NoDup_nil_2]. }
  split; [exact Hnodup|].
  destruct (checkCoinCollection_takes_coins_in_reach w Hnodup) as (Hvis & Hcount & _).
  assert (Hreach : inReach w Demo.coinId).
  { unfold inReach, player, Vector3.distanceTo, coinCollectionDistance; simpl.
    apply Rlt_le_trans with (sqrt (2 * 2)); [apply sqrt_lt_1; nra|].
    rewrite sqrt_square; lra. }
  split.
  - rewrite Hvis by (apply elem_of_cons; left; reflexivity).
    rewrite bool_decide_eq_true_2 by exact Hreach. apply andb_false_r.
  - rewrite Hcount.
    change (coins w) with [Demo.coinId]. rewrite filter_cons, filter_nil.
    rewrite decide_True by (split; [reflexivity|exact Hreach]). reflexivity.
Defined.

(** The loop never lowers the counter, never shows a hidden coin, and a
    loop that counts nothing changes nothing. *)
Lemma foldl_collectCoin_monotone (p : ObjId) (l : list ObjId) :
  forall w : World,
    let w' := foldl (collectCoin p) w l in
    (collectedCoinsCount w <= collectedCoinsCount w')%Z
    /\ (collectedCoinsCount w' = collectedCoinsCount w -> w' = w)
    /\ (forall c, Object3D.visible (objs w c) = false ->
                  Object3D.visible (objs w' c) = false)
    /\ coins w' = coins w.
Proof.
  induction l as [|coin l IH]; intros w; cbn [foldl]; cbv zeta.
  - split; [lia|]. split; [reflexivity|]. split; [intros c Hc; exact Hc|reflexivity].
  - specialize (IH (collectCoin p w coin)). cbv zeta in IH.
    destruct IH as (Hle & Hsame & Hhidden & Hcoins).
    destruct (collectCoin_cases p w coin) as [(_ & _ & Hobjs & Hcount & _)|[_ Hw]].
    + split; [lia|]. split; [intros Heq; lia|].
      split; [|rewrite Hcoins; apply collectCoin_wiring].
      intros c Hc. apply Hhidden. rewrite Hobjs.
      destruct (decide (coin = c)) as [->|Hne];
        [rewrite alter_same; reflexivity|rewrite alter_other by exact Hne; exact Hc].
    + rewrite Hw in *. split; [exact Hle|]. split; [exact Hsame|].
      split; [exact Hhidden|exact Hcoins].
Qed.

Lemma foldl_collectCoin_timer (p : ObjId) (l : list ObjId) :
  forall w : World,
    let w' := foldl (collectCoin p) w l in
    respawnAllCoinsTimeout w' = true
    <-> respawnAllCoinsTimeout w = true
        \/ ((collectedCoinsCount w < collectedCoinsCount w')%Z
            /\ forall c, c ∈ coins w -> Object3D.visible (objs w' c) = false).
Proof.
  induction l as [|coin l IH]; intros w; cbn [foldl]; cbv zeta.
  - split; [intros Ht; left; exact Ht|]. intros [Ht|[Hlt _]]; [exact Ht|lia].
  - specialize (IH (collectCoin p w coin)). cbv zeta in IH.
    destruct (foldl_collectCoin_monotone p l (collectCoin p w coin))
      as (Hle & Hsame & Hhidden & _).
    cbv zeta in Hle, Hsame, Hhidden.
    destruct (collectCoin_cases p w coin) as [(_ & _ & _ & Hcount & Htimer)|[_ Hw]].
    + assert (Hcoins : coins (collectCoin p w coin) = coins w)
        by apply collectCoin_wiring.
      rewrite Hcoins in IH. rewrite IH, Htimer. split.
      * intros [[Ht|Hnone]|[Hlt Hnone]].
        -- left. exact Ht.
        -- right. split; [lia|]. intros c Hc. apply Hhidden, Hnone, Hc.
        -- right. split; [lia|exact Hnone].
      * intros [Ht|[_ Hnone]]; [left; left; exact Ht|].
        destruct (Z.eq_dec (collectedCoinsCount (foldl (collectCoin p) (collectCoin p w coin) l))
                           (collectedCoinsCount (collectCoin p w coin))) as [Heq|Hne].
        -- left. right. rewrite (Hsame Heq) in Hnone. exact Hnone.
        -- right. split; [lia|exact Hnone].
    + rewrite Hw in *. exact IH.
Qed.

(** A call starts the respawn timer exactly when it collects a coin and
    leaves none visible; a timer that is already pending stays so. *)
Theorem last_coin_starts_respawn_timer (w : World) :
  let w' := checkCoinCollection w in
  respawnAllCoinsTimeout w' = true
  <-> respawnAllCoinsTimeout w = true
      \/ ((collectedCoinsCount w < collectedCoinsCount w')%Z
          /\ forall coin, coin ∈ coins w -> Object3D.visible (objs w' coin) = false).
Proof.
  intros w'. subst w'. unfold checkCoinCollection. cbv zeta.
  pose proof (foldl_collectCoin_timer
                (if isInCar w then carModel w else character w) (coins w) w) as Htimer.
  cbv zeta in Htimer. exact Htimer.
Qed.

Lemma respawnAllCoins_visible (l : list ObjId) :
  forall (st : Store) (coin : ObjId),
    coin ∈ l ->
    Object3D.visible (foldl (fun st c => alter (Object3D.setVisible true) c st) st l coin)
    = true.
Proof.
  induction l as [|a l IH] using rev_ind; intros st coin Hin; [inversion Hin|].
  rewrite foldl_app. cbn [foldl].
  destruct (decide (a = coin)) as [->|Hne]; [rewrite alter_same; reflexivity|].
  rewrite alter_other by exact Hne. apply IH.
  apply elem_of_app in Hin as [Hin|Hin]; [exact Hin|].
  apply list_elem_of_singleton in Hin. congruence.
Qed.

(** When the timer fires every coin is visible again, where it was, the
    timer is cleared, and the counter keeps its value. *)
Theorem respawnAllCoins_shows_every_coin (w : World) :
  let w' := respawnAllCoins w in
  (forall coin, coin ∈ coins w -> Object3D.visible (objs w' coin) = true)
  /\ (forall o, Object3D.position (objs w' o) = Object3D.position (objs w o))
  /\ respawnAllCoinsTimeout w' = false
  /\ collectedCoinsCount w' = collectedCoinsCount w
  /\ coins w' = coins w.
Proof.
  intros w'. subst w'. unfold respawnAllCoins.
  cbn [objs respawnAllCoinsTimeout collectedCoinsCount coins withCoins withObjs].
  split; [intros coin Hin; apply respawnAllCoins_visible; exact Hin|].
  split; [|repeat split; reflexivity].
  intros o.
  apply (foldl_keeps (fun st : Store => Object3D.position (st o))).
  intros st c. apply (alter_keeps Object3D.position). reflexivity.
Qed.

End Coins.

(** ** Runs of events *)

Section Events.

Variable toLowerCase : string -> string.

Lemma enterOrExitCar_count (w : World) :
  collectedCoinsCount (enterOrExitCar w) = collectedCoinsCount w.
Proof. unfold enterOrExitCar. repeat (case_match || case_decide); reflexivity. Qed.

Lemma onKeyDown_count (key : string) (w : World) :
  collectedCoinsCount (onKeyDown toLowerCase key w) = collectedCoinsCount w.
Proof.
  unfold onKeyDown. cbv zeta.
  repeat case_match; rewrite ?enterOrExitCar_count; reflexivity.
Qed.

Lemma updateCharacterMovement_static (deltaTime : R) (w : World) :
  control (updateCharacterMovement deltaTime w) = control w
  /\ collectedCoinsCount (updateCharacterMovement deltaTime w) = collectedCoinsCount w.
Proof.
  unfold updateCharacterMovement, jumpPhysics, control.
  repeat (case_match || case_decide); split; reflexivity.
Qed.

Lemma wrapWorld_static (w : World) :
  control (wrapWorld w) = control w
  /\ collectedCoinsCount (wrapWorld w) = collectedCoinsCount w.
Proof. unfold wrapWorld, control. case_match; split; reflexivity. Qed.

Lemma collectCoin_control (p : ObjId) (w : World) (coin : ObjId) :
  control (collectCoin p w coin) = control w.
Proof. unfold collectCoin, control. case_match; reflexivity. Qed.

Lemma checkCoinCollection_static (w : World) :
  control (checkCoinCollection w) = control w
  /\ (collectedCoinsCount w <= collectedCoinsCount (checkCoinCollection w))%Z.
Proof.
  unfold checkCoinCollection. split.
  - apply (foldl_keeps control). intros a b. apply collectCoin_control.
  - apply foldl_collectCoin_monotone.
Qed.

(** A frame switches nothing and does not lower the counter. *)
Lemma updateGameLogic_static (deltaTime : R) (w : World) :
  control (updateGameLogic deltaTime w) = control w
  /\ (collectedCoinsCount w <= collectedCoinsCount (updateGameLogic deltaTime w))%Z.
Proof.
  unfold updateGameLogic. cbv zeta.
  set (w2 := if isInCar (updateDayNightCycle deltaTime w)
             then updateCarMovement deltaTime (updateDayNightCycle deltaTime w)
             else updateCharacterMovement deltaTime (updateDayNightCycle deltaTime w)).
  assert (Hw2 : control w2 = control w /\ collectedCoinsCount w2 = collectedCoinsCount w).
  { subst w2. destruct (isInCar (updateDayNightCycle deltaTime w)).
    - split; reflexivity.
    - apply (updateCharacterMovement_static deltaTime (updateDayNightCycle deltaTime w)). }
  destruct Hw2 as [Hcontrol Hcount].
  destruct (checkCoinCollection_static
              (updateCoins deltaTime (wrapWorld (updateCameraOrbit w2)))) as [Hc Hle].
  destruct (wrapWorld_static (updateCameraOrbit w2)) as [Hwc Hwn].
  split.
  - rewrite Hc. change (control (updateCoins deltaTime ?x)) with (control x).
    rewrite Hwc. exact Hcontrol.
  - change (collectedCoinsCount (updateCoins deltaTime ?x)) with (collectedCoinsCount x)
      in Hle.
    rewrite Hwn in Hle.
    change (collectedCoinsCount (updateCameraOrbit w2)) with (collectedCoinsCount w2) in Hle.
    lia.
Qed.

Lemma handle_count (s : Session) (e : Event) :
  (collectedCoinsCount (world s)
   <= collectedCoinsCount (world (handle toLowerCase s e)))%Z.
Proof.
  destruct e as [key|key|movementX movementY|active|deltaTime|]; cbn [handle world].
  - rewrite onKeyDown_count. lia.
  - cbn. lia.
  - unfold onMouseMove. destruct (isPointerLockActive s); cbn; lia.
  - lia.
  - apply updateGameLogic_static.
  - destruct (respawnAllCoinsTimeout (world s)); cbn; lia.
Qed.

(** Whatever the keys, pointer moves, frames and timers, the coin counter
    never goes down: nothing, the respawn of the coins included, resets it. *)
Theorem score_never_drops (events : list Event) (s : Session) :
  (collectedCoinsCount (world s)
   <= collectedCoinsCount (world (runEvents toLowerCase events s)))%Z.
Proof.
  unfold runEvents. revert s.
  induction events as [|e events IH]; intros s; cbn [foldl]; [lia|].
  pose proof (handle_count s e) as Hstep.
  specialize (IH (handle toLowerCase s e)). lia.
Qed.

Lemma enterOrExitCar_follows (w : World) :
  cameraTarget w = player w -> cameraTarget (enterOrExitCar w) = player (enterOrExitCar w).
Proof.
  unfold enterOrExitCar, player. intros Hfollow.
  destruct (isInCar w) eqn:Hcar; [reflexivity|].
  cbv zeta. case_decide; [reflexivity|]. rewrite Hcar. exact Hfollow.
Qed.

Lemma control_follows (w w' : World) :
  control w' = control w -> cameraTarget w = player w -> cameraTarget w' = player w'.
Proof.
  unfold control, player. intros Hcontrol Hfollow.
  injection Hcontrol as -> -> -> ->. exact Hfollow.
Qed.

Lemma handle_follows (s : Session) (e : Event) :
  cameraTarget (world s) = player (world s) ->
  cameraTarget (world (handle toLowerCase s e))
  = player (world (handle toLowerCase s e)).
Proof.
  intros Hfollow.
  destruct e as [key|key|movementX movementY|active|deltaTime|]; cbn [handle world].
  - unfold onKeyDown. cbv zeta.
    assert (Hjump : forall w1 : World,
              control w1 = control (world s) ->
              cameraTarget (if bool_decide (toLowerCase key = "f"%string)
                            then enterOrExitCar w1 else w1)
              = player (if bool_decide (toLowerCase key = "f"%string)
                        then enterOrExitCar w1 else w1)).
    { intros w1 Hw1. pose proof (control_follows _ _ Hw1 Hfollow) as Hf1.
      case_bool_decide; [apply enterOrExitCar_follows|]; exact Hf1. }
    apply Hjump. destruct (negb (isInCar _) && _ && _); reflexivity.
  - exact Hfollow.
  - unfold onMouseMove. destruct (isPointerLockActive s); exact Hfollow.
  - exact Hfollow.
  - apply (control_follows (world s)); [apply updateGameLogic_static|exact Hfollow].
  - destruct (respawnAllCoinsTimeout (world s)); exact Hfollow.
Qed.

(** The camera follows whoever is in control, the car while driving and the
    character on foot, through any run of events that starts that way, as
    the constructor does. So the wrap recentres the controlled agent and
    coins are collected by the agent on screen. *)
Theorem camera_follows_the_player (events : list Event) (s : Session) :
  cameraTarget (world s) = player (world s) ->
  cameraTarget (world (runEvents toLowerCase events s))
  = player (world (runEvents toLowerCase events s)).
Proof.
  unfold runEvents. revert s.
  induction events as [|e events IH]; intros s Hfollow; cbn [foldl]; [exact Hfollow|].
  apply IH, handle_follows, Hfollow.
Qed.

End Events.

Section EventExamples.

(** Entering the car, a frame of driving, and leaving it again. *)
Example camera_follows_the_player_witness :
  let s := mkSession Demo.atStart false in
  let events := [KeyDown "f"; Frame 0.016; KeyDown "F"; MouseMove 3 4] in
  cameraTarget (world s) = player (world s)
  /\ forall toLowerCase,
       cameraTarget (world (runEvents toLowerCase events s))
       = player (world (runEvents toLowerCase events s)).
Proof.
  intros s events.
  assert (Hfollow : cameraTarget (world s) = player (world s)) by reflexivity.
  split; [exact Hfollow|].
  intros toLowerCase. apply (camera_follows_the_player toLowerCase events s Hfollow).
Defined.

End EventExamples.

(** ** The generated city *)

Section City.

Variable random : nat -> R.

(** [Math.random] returns a number in [0, 1). *)
Hypothesis random_range : forall n, 0 <= random n < 1.

Lemma createBuilding_insideBlock (n i j : nat) :
  insideBlock i j (createBuilding random n i j).
Proof.
  unfold insideBlock, createBuilding, buildingCollider, buildingPadding, blockSize.
  cbn [Box3.min Box3.max Vector3.x Vector3.y Vector3.z].
  pose proof (random_range n) as Hh.
  pose proof (random_range (n + 1)) as Hw.
  pose proof (random_range (n + 2)) as Hd.
  pose proof (random_range (n + 4)) as Hx.
  pose proof (random_range (n + 5)) as Hz.
  set (rw := random (n + 1)%nat) in *. set (rd := random (n + 2)%nat) in *.
  set (rx := random (n + 4)%nat) in *. set (rz := random (n + 5)%nat) in *.
  replace (20 / 2.5 - 2) with 6 by lra.
  repeat split; try lra; nra.
Qed.

Lemma createBuildingsInBlock_inside (i j count : nat) :
  i ∈ blockIndices -> j ∈ blockIndices ->
  forall state, builtInsideBlocks state ->
    builtInsideBlocks (createBuildingsInBlock random i j count state).
Proof.
  intros Hi Hj. induction count as [|count IH]; intros state Hstate; [exact Hstate|].
  cbn [createBuildingsInBlock]. apply IH.
  intros box Hbox. cbn [fst] in Hbox.
  apply elem_of_app in Hbox as [Hbox|Hbox]; [apply Hstate; exact Hbox|].
  apply list_elem_of_singleton in Hbox as ->.
  exists i, j. split; [exact Hi|]. split; [exact Hj|].
  apply createBuilding_insideBlock.
Qed.

Lemma foldl_invariant {A B : Type} (P : A -> Prop) (f : A -> B -> A) (l : list B) :
  (forall a b, b ∈ l -> P a -> P (f a b)) -> forall a, P a -> P (foldl f a l).
Proof.
  induction l as [|b l IH]; intros Hf a Ha; cbn [foldl]; [exact Ha|].
  apply IH.
  - intros a' b' Hb'. apply Hf. right. exact Hb'.
  - apply Hf; [left|exact Ha].
Qed.

Lemma createBuildings_inside (n : nat) (box : Box3.t) :
  box ∈ createBuildings random n ->
  exists i j, i ∈ blockIndices /\ j ∈ blockIndices /\ insideBlock i j box.
Proof.
  unfold createBuildings.
  apply (foldl_invariant builtInsideBlocks).
  - intros state i Hi Hstate.
    apply (foldl_invariant builtInsideBlocks); [|exact Hstate].
    intros state' j Hj Hstate'. unfold createBlock.
    apply createBuildingsInBlock_inside; [exact Hi|exact Hj|exact Hstate'].
  - intros b Hb. inversion Hb.
Qed.

Lemma createBuildings_off_blocks (n : nat) (p : Vector3.t) :
  offTheBlocks (Vector3.x p) \/ offTheBlocks (Vector3.z p) ->
  collides (createBuildings random n) p = false.
Proof.
  intros Hoff. apply not_true_is_false. intros Hhit.
  apply collides_spec in Hhit as (box & Hbox & Hin).
  apply containsPoint_spec in Hin as [[Hx Hz] _].
  apply createBuildings_inside in Hbox as (i & j & _ & _ & Hinside).
  destruct Hinside as (Hx1 & _ & Hx2 & Hz1 & _ & Hz2 & _).
  destruct Hoff as [Hoff|Hoff]; [apply (Hoff i)|apply (Hoff j)]; lra.
Qed.





End City.

Section CityClaims.

Lemma blockCenter_value (i : nat) : blockCenter i = 26 * INR i - 117.
Proof. unfold blockCenter, cityOffset, citySize, blockSize, streetWidth. lra. Qed.

(** Coordinates between the padded intervals of blocks 4 and 5. *)
Lemma mid_street_off_blocks (c : R) : -5 < c < 5 -> offTheBlocks c.
Proof.
  intros Hc i. rewrite blockCenter_value. unfold blockSize, buildingPadding.
  destruct (le_lt_dec i 4) as [Hlow|Hhigh].
  - apply le_INR in Hlow. change (INR 4) with (1 + 1 + 1 + 1) in Hlow. lra.
  - assert (Hfive : (5 <= i)%nat) by lia. apply le_INR in Hfive.
    change (INR 5) with (1 + 1 + 1 + 1 + 1) in Hfive. lra.
Qed.




(** Whatever the draws, no point on a street collides with a building, and
    neither does the place where [createCar] puts the car or the one where
    it puts the character: nobody starts inside a building. *)
Theorem streets_and_spawn_are_free (random : nat -> R) (n : nat) :
  (forall k, 0 <= random k < 1) ->
  (forall p, offTheBlocks (Vector3.x p) \/ offTheBlocks (Vector3.z p) ->
             collides (createBuildings random n) p = false)
  /\ collides (createBuildings random n) carSpawn = false
  /\ collides (createBuildings random n) characterSpawn = false.
Proof.
  intros Hrange.
  split; [intros p Hoff; apply (createBuildings_off_blocks random Hrange n p Hoff)|].
  split; apply (createBuildings_off_blocks random Hrange); left; apply mid_street_off_blocks.
  - rewrite carSpawn_value. simpl. lra.
  - unfold characterSpawn. rewrite carSpawn_value. simpl. lra.
Qed.

Example streets_and_spawn_are_free_witness :
  (forall k : nat, 0 <= Demo2.evenDraws k < 1)
  /\ collides (createBuildings Demo2.evenDraws 0) carSpawn = false.
Proof.
  assert (Hrange : forall k : nat, 0 <= Demo2.evenDraws k < 1)
    by (intros k; unfold Demo2.evenDraws; lra).
  split; [exact Hrange|].
  destruct (streets_and_spawn_are_free Demo2.evenDraws 0 Hrange) as (_ & Hcar & _).
  exact Hcar.
Defined.

End CityClaims.

(** ** A jump interrupted by the car *)

Section InterruptedJump.

Lemma collectCoin_vertical (p : ObjId) (w : World) (coin : ObjId) :
  isJumping (collectCoin p w coin) = isJumping w
  /\ velocityY (collectCoin p w coin) = velocityY w.
Proof. unfold collectCoin. case_match; split; reflexivity. Qed.

(** A frame of driving does not touch the jump. *)
Lemma updateGameLogic_vertical_driving (deltaTime : R) (w : World) :
  isInCar w = true ->
  isJumping (updateGameLogic deltaTime w) = isJumping w
  /\ velocityY (updateGameLogic deltaTime w) = velocityY w.
Proof.
  intros Hcar. unfold updateGameLogic, checkCoinCollection. cbv zeta.
  change (isInCar (updateDayNightCycle deltaTime w)) with (isInCar w). rewrite Hcar.
  set (w2 := updateCarMovement deltaTime (updateDayNightCycle deltaTime w)).
  assert (Hwrap : isJumping (wrapWorld (updateCameraOrbit w2)) = isJumping w
                  /\ velocityY (wrapWorld (updateCameraOrbit w2)) = velocityY w).
  { unfold wrapWorld. case_match; split; reflexivity. }
  split.
  - rewrite (foldl_keeps isJumping) by (intros a b; apply collectCoin_vertical).
    apply Hwrap.
  - rewrite (foldl_keeps velocityY) by (intros a b; apply collectCoin_vertical).
    apply Hwrap.
Qed.

Lemma runFrames_driving (frames : list (Keys * R)) :
  forall w,
    isInCar w = true ->
    isJumping (runFrames frames w) = isJumping w
    /\ velocityY (runFrames frames w) = velocityY w
    /\ control (runFrames frames w) = control w.
Proof.
  induction frames as [|[keys deltaTime] frames IH]; intros w Hcar.
  - repeat split; reflexivity.
  - change (runFrames ((keys, deltaTime) :: frames) w)
      with (runFrames frames (updateGameLogic deltaTime (withKeys keys w))).
    destruct (IH (updateGameLogic deltaTime (withKeys keys w))) as (Hj & Hv & Hc).
    { rewrite updateGameLogic_isInCar. exact Hcar. }
    destruct (updateGameLogic_vertical_driving deltaTime (withKeys keys w) Hcar)
      as [Hj1 Hv1].
    rewrite Hj, Hv, Hc, Hj1, Hv1.
    split; [reflexivity|]. split; [reflexivity|].
    apply (updateGameLogic_static deltaTime (withKeys keys w)).
Qed.

(** Entering the car in mid-air suspends the jump instead of ending it:
    however long the drive, on leaving the car the character stands on the
    ground with the jump flag still set and the vertical velocity it had
    when it got in, so the jump goes on from the ground. *)
Theorem jump_survives_a_drive (frames : list (Keys * R)) (w : World) :
  isInCar w = false ->
  isJumping w = true ->
  character w <> carModel w ->
  Vector3.distanceTo (Object3D.position (objs w (character w)))
                     (Object3D.position (objs w (carModel w))) < enterCarDistance ->
  let driving := runFrames frames (enterOrExitCar w) in
  let w' := enterOrExitCar driving in
  isInCar driving = true
  /\ isInCar w' = false
  /\ isJumping w' = true
  /\ velocityY w' = velocityY w
  /\ characterY w' = characterFeetY.
Proof.
  intros Hfoot Hjump Hne Hnear driving w'.
  pose proof (enterOrExitCar_enter w Hfoot Hnear) as Henter.
  assert (Hseated : isInCar (enterOrExitCar w) = true) by (rewrite Henter; reflexivity).
  destruct (runFrames_driving frames (enterOrExitCar w) Hseated) as (Hj & Hv & Hc).
  fold driving in Hj, Hv, Hc.
  assert (Hdriving : isInCar driving = true).
  { subst driving. rewrite runFrames_isInCar. exact Hseated. }
  assert (Hagents : character driving = character w /\ carModel driving = carModel w).
  { unfold control in Hc. rewrite Henter in Hc. cbn in Hc.
    injection Hc as _ Hch Hcm. split; assumption. }
  destruct Hagents as [Hch Hcm].
  split; [exact Hdriving|].
  subst w'. unfold characterY, enterOrExitCar. rewrite Hdriving.
  cbn [isInCar isJumping velocityY objs character withCar withCamera withObjs].
  rewrite Hj, Hv, Henter.
  split; [reflexivity|]. split; [exact Hjump|]. split; [reflexivity|].
  rewrite alter_same. reflexivity.
Qed.

Example jump_survives_a_drive_witness :
  let w := Demo2.takingOff in
  let frames := [(Demo.forwardKey, 0.016); (Demo.noKeys, 0.016)] in
  (isInCar w = false /\ isJumping w = true /\ character w <> carModel w)
  /\ isJumping (enterOrExitCar (runFrames frames (enterOrExitCar w))) = true
  /\ velocityY (enterOrExitCar (runFrames frames (enterOrExitCar w))) = jumpStrength.
Proof.
  intros w frames.
  assert (Hfoot : isInCar w = false) by reflexivity.
  assert (Hjump : isJumping w = true) by reflexivity.
  assert (Hne : character w <> carModel w) by discriminate.
  assert (Hnear : Vector3.distanceTo (Object3D.position (objs w (character w)))
                                     (Object3D.position (objs w (carModel w)))
                  < enterCarDistance).
  { change (Vector3.distanceTo
              (Object3D.position (objs Demo.atStart (character Demo.atStart)))
              (Object3D.position (objs Demo.atStart (carModel Demo.atStart)))
            < enterCarDistance).
    rewrite atStart_distance. unfold enterCarDistance. lra. }
  split; [split; [exact Hfoot|split; [exact Hjump|exact Hne]]|].
  destruct (jump_survives_a_drive frames w Hfoot Hjump Hne Hnear)
    as (_ & _ & Hj & Hv & _).
  split; [exact Hj|exact Hv].
Defined.

End InterruptedJump.
